(** * Triton GEMM emitter: launch geometry, address building and guards

    A shallow embedding of the parts of
    [xla/service/gpu/ir_emitter_triton.cc] that decide the tiling and
    launch geometry of a fused matrix multiply, the block-pointer
    construction (boundary checks, concatenation multiplexing), the
    reduction masking and the non-finite guard of the bf16 emulations.

    C++ integers are [Z] with two's-complement wrap-around written out,
    [absl::Status] results are the [Result] monad below, and emitted MLIR
    values are terms of the inductive type [Value]. *)

From Stdlib Require Import ZArith List Lia Bool String Sorted.
From Stdlib Require Import Floats.SpecFloat.
Import ListNotations.
Local Open Scope Z_scope.
Set Warnings "-register-all".

(** ** Fixed-width signed integers *)

Module CInt.

(** Two's-complement reduction of [z] to a signed [w]-bit value. *)
Definition wrap (w z : Z) : Z := (z + 2 ^ (w - 1)) mod 2 ^ w - 2 ^ (w - 1).

Definition fits (w z : Z) : Prop := - 2 ^ (w - 1) <= z < 2 ^ (w - 1).

Definition fitsb (w z : Z) : bool :=
  (- 2 ^ (w - 1) <=? z) && (z <? 2 ^ (w - 1)).

End CInt.

Definition int32 : Z -> Z := CInt.wrap 32.
Definition int64 : Z -> Z := CInt.wrap 64.
Definition fits32 : Z -> Prop := CInt.fits 32.
Definition fits64 : Z -> Prop := CInt.fits 64.

Definition INT_MAX : Z := 2147483647.

Definition add32 (a b : Z) : Z := int32 (a + b).
Definition sub32 (a b : Z) : Z := int32 (a - b).
Definition mul32 (a b : Z) : Z := int32 (a * b).
Definition add64 (a b : Z) : Z := int64 (a + b).
Definition sub64 (a b : Z) : Z := int64 (a - b).
Definition mul64 (a b : Z) : Z := int64 (a * b).

(** ** Status and results *)

Inductive StatusCode :=
| kCancelled | kInvalidArgument | kUnimplemented | kInternal
| kResourceExhausted.

(** An error message: literal text, or a format string with its integer
    arguments. *)
Inductive Message :=
| Text (s : string)
| StrFormat (fmt : string) (args : list Z).

Record Status := mkStatus {
  code : StatusCode;
  message : Message;
  payload : list (string * Message)
}.

(** The outcome of a call: a value, a non-OK status handed back to the
    caller, or the death of the process (CHECK failure, LOG(FATAL), an
    out-of-range access, a division by zero). *)
Inductive Result (A : Type) : Type :=
| Ok (a : A)
| Err (s : Status)
| Abort.
Arguments Ok {A} a.
Arguments Err {A} s.
Arguments Abort {A}.

Definition bind {A B} (r : Result A) (f : A -> Result B) : Result B :=
  match r with
  | Ok a => f a
  | Err s => Err s
  | Abort => Abort
  end.

Declare Scope result_scope.
Delimit Scope result_scope with result.
Notation "x <- c ;; k" := (bind c (fun x => k))
  (at level 61, c at next level, right associativity) : result_scope.
Notation "c ;;; k" := (bind c (fun _ => k))
  (at level 61, right associativity) : result_scope.
Local Open Scope result_scope.

Definition InternalError (what : string) : Status :=
  mkStatus kInternal (Text what) [].

Definition ResourceExhausted (fmt : string) (args : list Z) : Status :=
  mkStatus kResourceExhausted (StrFormat fmt args) [].

(** [TF_RET_CHECK(c)]: an internal error when [c] is false. *)
Definition TF_RET_CHECK (c : bool) (what : string) : Result unit :=
  if c then Ok tt else Err (InternalError what).

(** [CHECK(c)]: the process dies when [c] is false. *)
Definition CHECK (c : bool) : Result unit :=
  if c then Ok tt else Abort.

(** [std::vector::at], repeated-field [Get] and [operand(i)]. *)
Definition at_ {A} (l : list A) (i : Z) : Result A :=
  if i <? 0 then Abort
  else match nth_error l (Z.to_nat i) with
       | Some a => Ok a
       | None => Abort
       end.

(** C++ [/] and [%] on signed integers: truncation towards zero, and no
    result for a zero divisor. *)
Definition cdiv (w a b : Z) : Result Z :=
  if b =? 0 then Abort else Ok (CInt.wrap w (Z.quot a b)).

Definition crem (a b : Z) : Result Z :=
  if b =? 0 then Abort else Ok (Z.rem a b).

(** [StatusOr::value()] and [TF_CHECK_OK]: the process dies on a non-OK
    status. *)
Definition value {A} (r : Result A) : Result A :=
  match r with
  | Err _ => Abort
  | _ => r
  end.

Definition value_or {A} (o : option A) (d : A) : A :=
  match o with Some a => a | None => d end.

Definition has_value {A} (o : option A) : bool :=
  match o with Some _ => true | None => false end.

(** ** Tiling configuration *)

(** [TritonGemmConfig]: every field is a C++ [int]. *)
Record TritonGemmConfig := mkConfig {
  block_m : Z;
  block_n : Z;
  block_k : Z;
  split_k : Z;
  num_stages : Z;
  num_warps : Z;
  num_ctas : Z
}.

Definition kComplexityHeuristicLimit : Z := 9000.

(** The heuristic value: [int] arithmetic, widened to [int64_t] on
    assignment. *)
Definition complexity_heuristic_value (config : TritonGemmConfig) : Result Z :=
  cdiv 32
    (add32 (mul32 (block_m config) (block_n config))
           (mul32 (add32 (block_m config) (block_n config)) (block_k config)))
    (num_warps config).

Definition CheckGemmTilingComplexityHeuristic (config : TritonGemmConfig)
  : Result unit :=
  v <- complexity_heuristic_value config ;;
  if v >? kComplexityHeuristicLimit
  then Err (ResourceExhausted "Tiling complexity heuristic exceeded: %d > %d"
              [v; kComplexityHeuristicLimit])
  else Ok tt.

(** ** The operator graph *)

Inductive HloOpcode :=
| kParameter | kConstant | kConvert | kPad | kBitcast | kConcatenate
| kDot | kReduce | kBroadcast | kOtherOpcode (opname : string).

Definition HloOpcode_eqb (a b : HloOpcode) : bool :=
  match a, b with
  | kParameter, kParameter | kConstant, kConstant | kConvert, kConvert
  | kPad, kPad | kBitcast, kBitcast | kConcatenate, kConcatenate
  | kDot, kDot | kReduce, kReduce | kBroadcast, kBroadcast => true
  | kOtherOpcode s, kOtherOpcode t => String.eqb s t
  | _, _ => false
  end.

Inductive PrimitiveType :=
| F64 | F32 | F16 | BF16 | S64 | S32 | S16 | PRED | S8 | U64
| OtherPrimitiveType.

Definition PrimitiveType_eqb (a b : PrimitiveType) : bool :=
  match a, b with
  | F64, F64 | F32, F32 | F16, F16 | BF16, BF16 | S64, S64 | S32, S32
  | S16, S16 | PRED, PRED | S8, S8 | U64, U64
  | OtherPrimitiveType, OtherPrimitiveType => true
  | _, _ => false
  end.

(** [Shape]: element type, extents, the layout's minor-to-major order,
    and whether the shape is a tuple. *)
Record Shape := mkShape {
  element_type : PrimitiveType;
  dimensions : list Z;
  minor_to_major : list Z;
  IsTuple : bool
}.

Definition rank (s : Shape) : Z := Z.of_nat (List.length (dimensions s)).

(** [Shape::dimensions(i)]. *)
Definition dimension (s : Shape) (i : Z) : Result Z := at_ (dimensions s) i.

(** [Shape::dimensions_minor(i)]. *)
Definition dimensions_minor (s : Shape) (i : Z) : Result Z :=
  d <- at_ (minor_to_major s) i ;; dimension s d.

(** One operation of the graph.  [hlo_dimensions] are the reduced
    dimensions of a reduce; [to_apply] is the post-order instruction list
    of the computation a reduce applies. *)
Inductive HloInstruction :=
| mkHlo (name : string) (opcode : HloOpcode) (shape : Shape)
        (operands : list HloInstruction) (parameter_number : Z)
        (hlo_dimensions : list Z) (to_apply : list HloInstruction).

Definition name (h : HloInstruction) : string :=
  let (n, _, _, _, _, _, _) := h in n.
Definition opcode (h : HloInstruction) : HloOpcode :=
  let (_, o, _, _, _, _, _) := h in o.
Definition shape (h : HloInstruction) : Shape :=
  let (_, _, s, _, _, _, _) := h in s.
Definition operands (h : HloInstruction) : list HloInstruction :=
  let (_, _, _, l, _, _, _) := h in l.
Definition parameter_number (h : HloInstruction) : Z :=
  let (_, _, _, _, p, _, _) := h in p.
Definition hlo_dimensions (h : HloInstruction) : list Z :=
  let (_, _, _, _, _, d, _) := h in d.
Definition to_apply (h : HloInstruction) : list HloInstruction :=
  let (_, _, _, _, _, _, c) := h in c.

Definition operand (h : HloInstruction) (i : Z) : Result HloInstruction :=
  at_ (operands h) i.

Definition operand_count (h : HloInstruction) : Z :=
  Z.of_nat (List.length (operands h)).

Record DotDimensionNumbers := mkDnums {
  lhs_contracting_dimensions : list Z;
  rhs_contracting_dimensions : list Z;
  lhs_batch_dimensions : list Z;
  rhs_batch_dimensions : list Z
}.

(** [HloDotInstruction], with the root of the computation it lives in. *)
Record HloDotInstruction := mkDot {
  dot_hlo : HloInstruction;
  dot_dimension_numbers : DotDimensionNumbers;
  sparse_operands : Z;
  root_instruction : HloInstruction
}.

(** ** The iteration-spec table *)

Inductive Scope := LHS | RHS | META | OUTPUT.

Definition Scope_eqb (a b : Scope) : bool :=
  match a, b with
  | LHS, LHS | RHS, RHS | META, META | OUTPUT, OUTPUT => true
  | _, _ => false
  end.

Record IterationSpecFragment := mkFragment {
  stride : Z;
  count : Z;
  slice_start : Z;
  sliced_count : Z
}.

Definition DimIterationSpec := list IterationSpecFragment.

(** [TritonFusionAnalysis] as the emitter consumes it: [IterSpec] is
    [None] for the null pointer. *)
Record TritonFusionAnalysis := mkAnalysis {
  IterSpec : Scope -> HloInstruction -> Z -> option DimIterationSpec;
  ScopeParameters : Scope -> list HloInstruction
}.

(** Dereference of a spec pointer. *)
Definition deref {A} (o : option A) : Result A :=
  match o with Some a => Ok a | None => Abort end.

(** ** MatMulDims *)

Record MatMulDims := mkDims {
  out_split_k_dim_idx : option Z;
  lhs_batch_dim_idx : option Z;
  rhs_batch_dim_idx : option Z;
  out_batch_dim_idx : option Z;
  lhs_noncontracting_split : option Z;
  lhs_contracting_dim_idx : Z;
  lhs_noncontracting_dim_idx : Z;
  rhs_contracting_dim_idx : Z;
  rhs_noncontracting_dim_idx : Z;
  out_lhs_noncontracting_dim_idx : Z;
  out_rhs_noncontracting_dim_idx : Z;
  m : Z;
  n : Z;
  k : Z
}.

(** One step of the loop of [GetLhsNoncontractingSplitSpec]. *)
Definition split_spec_step (analysis : TritonFusionAnalysis)
    (lhs_noncontracting_dim_idx : Z)
    (acc : Result (option DimIterationSpec)) (lhs_param : HloInstruction)
  : Result (option DimIterationSpec) :=
  result <- acc ;;
  match IterSpec analysis LHS lhs_param lhs_noncontracting_dim_idx with
  | Some spec =>
      if Z.of_nat (List.length spec) >? 1 then
        CHECK (Z.of_nat (List.length spec) =? 2) ;;;
        match result with
        | Some r =>
            r0 <- at_ r 0 ;; s0 <- at_ spec 0 ;;
            CHECK (count r0 =? count s0) ;;;
            r1 <- at_ r 1 ;; s1 <- at_ spec 1 ;;
            CHECK (count r1 =? count s1)
        | None => Ok tt
        end ;;;
        Ok (Some spec)
      else Ok result
  | None => Ok result
  end.

Definition GetLhsNoncontractingSplitSpec (analysis : TritonFusionAnalysis)
    (lhs_noncontracting_dim_idx : Z) : Result (option DimIterationSpec) :=
  fold_left (split_spec_step analysis lhs_noncontracting_dim_idx)
            (ScopeParameters analysis LHS) (Ok None).

(** [*l.rbegin()]. *)
Definition rbegin (l : list Z) : Result Z :=
  match rev l with x :: _ => Ok x | [] => Abort end.

Inductive ProgramIDDim := PidX | PidY | PidZ.

Inductive Dim3 := BlockDim (x y z : Z).

Record LaunchDimensions := mkLaunchDimensions {
  block_counts : Dim3;
  thread_counts_per_block : Dim3
}.

Record MatMulLaunchConfig := mkLaunchConfig {
  grid_m : Z;
  grid_n : Z;
  launch_dims : LaunchDimensions;
  batch_program_id_dim : ProgramIDDim;
  noncontracting_program_id_dim : ProgramIDDim
}.

Definition kBlockCountYZLimit : Z := 65536.

Section Emitter.

(** Collaborators that live in other files of the repository. *)
Variable WarpSize : Z.
Variable ElementsIn : Shape -> Z.
Variable GetNonContractingDims :
  Shape -> list Z -> list Z -> Result (list Z).
Variable kUncompilableFusion : string.

(** The contracting extent, lines 1134-1148 of the source. *)
Definition Create_k (config : TritonGemmConfig) (dot : HloDotInstruction)
  : Result Z :=
  let dims := dot_dimension_numbers dot in
  is_pad <-
    (if split_k config >? 1 then
       rhs <- operand (dot_hlo dot) 1 ;;
       producer <- operand rhs 0 ;;
       Ok (HloOpcode_eqb (opcode producer) kPad)
     else Ok false) ;;
  if (is_pad : bool) then
    rhs <- operand (dot_hlo dot) 1 ;;
    TF_RET_CHECK (HloOpcode_eqb (opcode rhs) kBitcast)
      "dot.operand(1)->opcode() == HloOpcode::kBitcast" ;;;
    producer <- operand rhs 0 ;;
    unpadded <- operand producer 0 ;;
    c <- at_ (rhs_contracting_dimensions dims) 0 ;;
    dimension (shape unpadded) (sub64 c 1)
  else
    rhs <- operand (dot_hlo dot) 1 ;;
    c <- at_ (rhs_contracting_dimensions dims) 0 ;;
    e <- dimension (shape rhs) c ;;
    Ok (mul64 e (split_k config)).

Definition MatMulDims_Create (config : TritonGemmConfig)
    (dot : HloDotInstruction) (analysis : TritonFusionAnalysis)
  : Result MatMulDims :=
  let out_split_k := if split_k config >? 1 then Some 0 else None in
  let num_split_k_dims := if split_k config >? 1 then 1 else 0 in
  let dims := dot_dimension_numbers dot in
  lhs_c <- at_ (lhs_contracting_dimensions dims) 0 ;;
  lhs_operand <- operand (dot_hlo dot) 0 ;;
  lhs_ncs <- value (GetNonContractingDims (shape lhs_operand)
                      (lhs_batch_dimensions dims)
                      (lhs_contracting_dimensions dims)) ;;
  lhs_nc <- at_ lhs_ncs 0 ;;
  rhs_c <- at_ (rhs_contracting_dimensions dims) 0 ;;
  rhs_operand <- operand (dot_hlo dot) 1 ;;
  rhs_ncs <- value (GetNonContractingDims (shape rhs_operand)
                      (rhs_batch_dimensions dims)
                      (rhs_contracting_dimensions dims)) ;;
  rhs_nc <- at_ rhs_ncs 0 ;;
  batch <-
    (if Z.of_nat (List.length (lhs_batch_dimensions dims)) >? num_split_k_dims
     then
       lb <- rbegin (lhs_batch_dimensions dims) ;;
       rb <- rbegin (rhs_batch_dimensions dims) ;;
       Ok (Some (int32 lb), Some (int32 rb), Some num_split_k_dims)
     else Ok (None, None, None)) ;;
  let '(lhs_b, rhs_b, out_b) := batch in
  let out_rhs_nc := rank (shape (dot_hlo dot)) - 1 in
  let out_lhs_nc := rank (shape (dot_hlo dot)) - 2 in
  let root := root_instruction dot in
  match IterSpec analysis OUTPUT root out_rhs_nc with
  | None => Err (InternalError "iter_spec != nullptr")
  | Some iter_spec =>
      f0 <- at_ iter_spec 0 ;;
      let n_ := count f0 in
      k_ <- Create_k config dot ;;
      split_spec <- GetLhsNoncontractingSplitSpec analysis (int32 lhs_nc) ;;
      m_split <-
        match split_spec with
        | Some spec =>
            s0 <- at_ spec 0 ;; s1 <- at_ spec 1 ;;
            Ok (count s0, Some (count s1))
        | None =>
            spec <- deref (IterSpec analysis OUTPUT root out_lhs_nc) ;;
            s0 <- at_ spec 0 ;;
            Ok (count s0, None)
        end ;;
      let '(m_, split) := m_split in
      TF_RET_CHECK (negb (has_value out_b && has_value split))
        "!(out_batch_dim_idx.has_value() && lhs_noncontracting_split.has_value())" ;;;
      TF_RET_CHECK (m_ >=? 1) "matmul_dims.m >= 1" ;;;
      TF_RET_CHECK (n_ >=? 1) "matmul_dims.n >= 1" ;;;
      Ok {| out_split_k_dim_idx := out_split_k;
            lhs_batch_dim_idx := lhs_b;
            rhs_batch_dim_idx := rhs_b;
            out_batch_dim_idx := out_b;
            lhs_noncontracting_split := split;
            lhs_contracting_dim_idx := int32 lhs_c;
            lhs_noncontracting_dim_idx := int32 lhs_nc;
            rhs_contracting_dim_idx := int32 rhs_c;
            rhs_noncontracting_dim_idx := int32 rhs_nc;
            out_lhs_noncontracting_dim_idx := out_lhs_nc;
            out_rhs_noncontracting_dim_idx := out_rhs_nc;
            m := m_; n := n_; k := k_ |}
  end.

(** The constructor of [MatMulLaunchConfig].  The argument of [value_or]
    is evaluated before the call, as in C++. *)
Definition MatMulLaunchConfig_init (config : TritonGemmConfig)
    (dot : HloDotInstruction) (dims : MatMulDims)
  : Result MatMulLaunchConfig :=
  gm <- cdiv 64 (sub64 (add64 (m dims) (block_m config)) 1) (block_m config) ;;
  gn <- cdiv 64 (sub64 (add64 (n dims) (block_n config)) 1) (block_n config) ;;
  dflt <- match out_batch_dim_idx dims with
          | Some i => dimension (shape (dot_hlo dot)) i
          | None => Ok 1
          end ;;
  let batch_size := value_or (lhs_noncontracting_split dims) dflt in
  CHECK (mul64 (mul64 batch_size gm) gn
         <? mul64 kBlockCountYZLimit kBlockCountYZLimit) ;;;
  let large_batch := batch_size >=? kBlockCountYZLimit in
  let threads := BlockDim (mul64 (num_warps config) WarpSize) 1 1 in
  if large_batch then
    Ok {| grid_m := gm; grid_n := gn;
          launch_dims :=
            mkLaunchDimensions
              (BlockDim batch_size (mul64 gm gn) (split_k config)) threads;
          batch_program_id_dim := PidX;
          noncontracting_program_id_dim := PidY |}
  else
    Ok {| grid_m := gm; grid_n := gn;
          launch_dims :=
            mkLaunchDimensions
              (BlockDim (mul64 gm gn) batch_size (split_k config)) threads;
          batch_program_id_dim := PidY;
          noncontracting_program_id_dim := PidX |}.

Definition ValidateMatMulConfig (config : TritonGemmConfig)
    (dot : HloDotInstruction) : Result unit :=
  TF_RET_CHECK (split_k config >=? 1) "config.split_k >= 1" ;;;
  TF_RET_CHECK (block_m config >=? 16) "config.block_m >= 16" ;;;
  TF_RET_CHECK (block_k config >=? 16) "config.block_k >= 16" ;;;
  TF_RET_CHECK (block_n config >=? 16) "config.block_n >= 16" ;;;
  let dims := dot_dimension_numbers dot in
  let num_batch_dims :=
    sub32 (Z.of_nat (List.length (lhs_batch_dimensions dims)))
          (if split_k config >? 1 then 1 else 0) in
  TF_RET_CHECK (num_batch_dims <=? 1) "num_batch_dims <= 1" ;;;
  (if split_k config >? 1 then
     lc <- at_ (lhs_contracting_dimensions dims) 0 ;;
     rc <- at_ (rhs_contracting_dimensions dims) 0 ;;
     let lhs_split_k_dim_idx := int32 (sub64 lc 1) in
     let rhs_split_k_dim_idx := int32 (sub64 rc 1) in
     lb0 <- at_ (lhs_batch_dimensions dims) 0 ;;
     TF_RET_CHECK (lb0 =? lhs_split_k_dim_idx)
       "dims.lhs_batch_dimensions(0) == lhs_split_k_dim_idx" ;;;
     rb0 <- at_ (rhs_batch_dimensions dims) 0 ;;
     TF_RET_CHECK (rb0 =? rhs_split_k_dim_idx)
       "dims.rhs_batch_dimensions(0) == rhs_split_k_dim_idx" ;;;
     lhs_operand <- operand (dot_hlo dot) 0 ;;
     ld <- dimension (shape lhs_operand) lhs_split_k_dim_idx ;;
     TF_RET_CHECK (split_k config =? ld)
       "config.split_k == dot.operand(0)->shape().dimensions(lhs_split_k_dim_idx)" ;;;
     rhs_operand <- operand (dot_hlo dot) 1 ;;
     rd <- dimension (shape rhs_operand) rhs_split_k_dim_idx ;;
     TF_RET_CHECK (split_k config =? rd)
       "config.split_k == dot.operand(1)->shape().dimensions(rhs_split_k_dim_idx)"
   else Ok tt) ;;;
  TF_RET_CHECK (Z.of_nat (List.length (lhs_contracting_dimensions dims)) =? 1)
    "dims.lhs_contracting_dimensions_size() == 1" ;;;
  TF_RET_CHECK (Z.of_nat (List.length (rhs_contracting_dimensions dims)) =? 1)
    "dims.rhs_contracting_dimensions_size() == 1" ;;;
  lhs_operand <- operand (dot_hlo dot) 0 ;;
  TF_RET_CHECK (rank (shape lhs_operand)
                =? 2 + (if split_k config >? 1 then 1 else 0) + num_batch_dims)
    "dot.operand(0)->shape().rank() == 2 + (config.split_k > 1 ? 1 : 0) + num_batch_dims".


(** ** Emitted IR *)

Inductive ElementType := f64 | f32 | f16 | bf16 | i64 | i32 | i16 | i8 | i1.

Definition ElementType_eqb (a b : ElementType) : bool :=
  match a, b with
  | f64, f64 | f32, f32 | f16, f16 | bf16, bf16 | i64, i64 | i32, i32
  | i16, i16 | i8, i8 | i1, i1 => true
  | _, _ => false
  end.

Definition isFloat (e : ElementType) : bool :=
  match e with f64 | f32 | f16 | bf16 => true | _ => false end.

Definition isInteger (e : ElementType) : bool := negb (isFloat e).

Definition getIntOrFloatBitWidth (e : ElementType) : Z :=
  match e with
  | f64 | i64 => 64 | f32 | i32 => 32 | f16 | bf16 | i16 => 16
  | i8 => 8 | i1 => 1
  end.

Definition getFPMantissaWidth (e : ElementType) : Z :=
  match e with f64 => 53 | f32 => 24 | f16 => 11 | bf16 => 8 | _ => 0 end.

Inductive MlirType :=
| ScalarType (e : ElementType)
| RankedTensorType (dims : list Z) (e : ElementType)
| PointerType (pointee : MlirType).

Fixpoint MlirType_eqb (a b : MlirType) : bool :=
  match a, b with
  | ScalarType x, ScalarType y => ElementType_eqb x y
  | RankedTensorType s x, RankedTensorType t y =>
      (if list_eq_dec Z.eq_dec s t then true else false) && ElementType_eqb x y
  | PointerType x, PointerType y => MlirType_eqb x y
  | _, _ => false
  end.

(** [mt::isTensorPointerType]. *)
Definition isTensorPointerType (t : MlirType) : bool :=
  match t with PointerType (RankedTensorType _ _) => true | _ => false end.

Inductive Attr :=
| IntegerAttr (z : Z)
| FloatAttr (d : spec_float).

Inductive CmpIPredicate := slt.
Inductive CmpFPredicate := OGT | UNE.
Inductive PaddingOption := PAD_ZERO | PAD_NAN.

(** Emitted values, as the terms that compute them.  [NullValue] is the
    default-constructed [Value{}]. *)
Inductive Value :=
| NullValue
| FuncArgument (idx : Z) (ty : MlirType)
| BlockArgument (idx : Z) (ty : MlirType)
| ConstantOp (ty : MlirType) (a : Attr)
| GetProgramIdOp (axis : ProgramIDDim)
| AddIOp (a b : Value)
| SubIOp (a b : Value)
| MulIOp (a b : Value)
| DivSIOp (a b : Value)
| RemSIOp (a b : Value)
| AndIOp (a b : Value)
| CmpIOp (p : CmpIPredicate) (a b : Value)
| CmpFOp (p : CmpFPredicate) (a b : Value)
| SelectOp (c a b : Value)
| AbsFOp (a : Value)
| AddFOp (a b : Value)
| SubFOp (a b : Value)
| ExtFOp (ty : MlirType) (a : Value)
| TruncFOp (ty : MlirType) (a : Value)
| ExtSIOp (ty : MlirType) (a : Value)
| ExtUIOp (ty : MlirType) (a : Value)
| TruncIOp (ty : MlirType) (a : Value)
| SIToFPOp (ty : MlirType) (a : Value)
| UIToFPOp (ty : MlirType) (a : Value)
| FPToSIOp (ty : MlirType) (a : Value)
| BitcastOp (ty : MlirType) (a : Value)
| SplatOp (ty : MlirType) (a : Value)
| MakeRangeOp (ty : MlirType) (lo hi : Z)
| DotOp (a b acc : Value) (allowTF32 : bool) (maxNumImpreciseAcc : Z)
| ReduceOp (input : Value) (axis : Z) (reducer_result : Value)
| AddPtrOp (ty : MlirType) (ptr offset : Value)
| MakeTensorPtrOp (base : Value) (bounds strides offsets : list Value)
                  (block_dims dim_order : list Z)
| AdvanceOp (ty : MlirType) (ptr : Value) (offsets : list Value)
| LoadOp (ptr : Value) (boundary_checks : list Z)
         (padding : option PaddingOption).

Definition is_null (v : Value) : bool :=
  match v with NullValue => true | _ => false end.

Definition getElementTypeOrSelf (t : MlirType) : MlirType :=
  match t with
  | RankedTensorType _ e => ScalarType e
  | _ => t
  end.

(** The scalar element type of a scalar or tensor type. *)
Definition element_of (t : MlirType) : option ElementType :=
  match t with
  | ScalarType e | RankedTensorType _ e => Some e
  | PointerType _ => None
  end.

(** [ShapedType::clone]: same shape, new element type. *)
Definition with_element (t : MlirType) (e : ElementType) : MlirType :=
  match t with
  | RankedTensorType s _ => RankedTensorType s e
  | _ => ScalarType e
  end.

Definition drop_axis (s : list Z) (axis : Z) : list Z :=
  firstn (Z.to_nat axis) s ++ skipn (S (Z.to_nat axis)) s.

(** [Value::getType]. *)
Fixpoint getType (v : Value) : MlirType :=
  match v with
  | NullValue => ScalarType i32
  | FuncArgument _ ty | BlockArgument _ ty | ConstantOp ty _ => ty
  | GetProgramIdOp _ => ScalarType i32
  | AddIOp a _ | SubIOp a _ | MulIOp a _ | DivSIOp a _ | RemSIOp a _
  | AndIOp a _ | AbsFOp a | AddFOp a _ | SubFOp a _ => getType a
  | CmpIOp _ a _ | CmpFOp _ a _ => with_element (getType a) i1
  | SelectOp _ a _ => getType a
  | ExtFOp ty _ | TruncFOp ty _ | ExtSIOp ty _ | ExtUIOp ty _ | TruncIOp ty _
  | SIToFPOp ty _ | UIToFPOp ty _ | FPToSIOp ty _ | BitcastOp ty _
  | SplatOp ty _ | MakeRangeOp ty _ _ | AddPtrOp ty _ _ | AdvanceOp ty _ _ => ty
  | DotOp _ _ acc _ _ => getType acc
  | ReduceOp input axis _ =>
      match getType input with
      | RankedTensorType s e =>
          match drop_axis s axis with
          | [] => ScalarType e
          | s' => RankedTensorType s' e
          end
      | t => t
      end
  | MakeTensorPtrOp base _ _ _ block_dims _ =>
      match getType base with
      | PointerType (ScalarType e) =>
          PointerType (RankedTensorType block_dims e)
      | t => t
      end
  | LoadOp ptr _ _ =>
      match getType ptr with
      | PointerType t => t
      | t => t
      end
  end.

(** The value a templated [CreateConst] receives: an integer or a
    floating-point number. *)
Inductive CValue := CInt (z : Z) | CFloat (d : spec_float).

(** [static_cast<double>] of an integer. *)
Definition int_to_double (z : Z) : spec_float :=
  binary_normalize 53 1024 z 0 false.

(** Conversion of a [double] to [int64_t]: truncation, undefined outside
    the range. *)
Definition double_to_int64 (d : spec_float) : Result Z :=
  match d with
  | S754_zero _ => Ok 0
  | S754_finite s mant e =>
      let mag := if e <? 0 then Z.quot (Zpos mant) (2 ^ (- e))
                 else Zpos mant * 2 ^ e in
      let v := if s then - mag else mag in
      if CInt.fitsb 64 v then Ok v else Abort
  | _ => Abort
  end.

(** The attribute [CreateConst] builds for an element type. *)
Definition const_attr (e : ElementType) (value : CValue) : Result Attr :=
  if isInteger e then
    match value with
    | CInt z => Ok (IntegerAttr (CInt.wrap (getIntOrFloatBitWidth e) z))
    | CFloat d =>
        z <- double_to_int64 d ;;
        Ok (IntegerAttr (CInt.wrap (getIntOrFloatBitWidth e) z))
    end
  else
    match value with
    | CInt z => Ok (FloatAttr (int_to_double z))
    | CFloat d => Ok (FloatAttr d)
    end.

(** [CreateConst(b, type, value)]: a scalar constant. *)
Definition CreateConst (type : MlirType) (value : CValue) : Result Value :=
  match type with
  | ScalarType e => a <- const_attr e value ;; Ok (ConstantOp type a)
  | _ => Abort
  end.

(** [CreateConst(b, type, value, shape)]: a tensor constant. *)
Definition CreateConstTensor (type : MlirType) (value : CValue)
    (dims : list Z) : Result Value :=
  match type with
  | ScalarType e =>
      a <- const_attr e value ;; Ok (ConstantOp (RankedTensorType dims e) a)
  | _ => Abort
  end.

Definition ZerosLike (x : Value) : Result Value :=
  match getType x with
  | RankedTensorType s e => CreateConstTensor (ScalarType e) (CInt 0) s
  | t => CreateConst t (CInt 0)
  end.

(** [Splat]: [RankedTensorType::get] needs a scalar element type. *)
Definition Splat (value : Value) (dims : list Z) : Result Value :=
  match getType value with
  | ScalarType e => Ok (SplatOp (RankedTensorType dims e) value)
  | _ => Abort
  end.

Definition Range (limit : Z) : Value :=
  MakeRangeOp (RankedTensorType [int32 limit] i32) 0 (int32 limit).

Definition AddPtr (ptr offset : Value) : Value :=
  AddPtrOp (getType ptr) ptr offset.

(** [TritonType]: the scalar type of an XLA element type. *)
Definition TritonType (t : PrimitiveType) : Result ElementType :=
  match t with
  | F64 => Ok f64
  | F32 => Ok f32
  | F16 => Ok f16
  | BF16 => Ok bf16
  | S64 => Ok i64
  | S32 => Ok i32
  | S16 => Ok i16
  | PRED => Ok i1
  | S8 => Ok i8
  | _ => Abort
  end.

(** The part of [Cast] after the bf16 cases. *)
Definition Cast_plain (value : Value) (src_e dst_e : ElementType)
    (dst_ty : MlirType) : Result Value :=
  if isFloat src_e && isFloat dst_e then
    if getFPMantissaWidth src_e >? getFPMantissaWidth dst_e
    then Ok (TruncFOp dst_ty value)
    else Ok (ExtFOp dst_ty value)
  else if isInteger src_e && isInteger dst_e then
    if getIntOrFloatBitWidth src_e <? getIntOrFloatBitWidth dst_e then
      if ElementType_eqb src_e i1 then Ok (ExtUIOp dst_ty value)
      else Ok (ExtSIOp dst_ty value)
    else Ok (TruncIOp dst_ty value)
  else if isInteger src_e && isFloat dst_e then
    if ElementType_eqb src_e i1 then Ok (UIToFPOp dst_ty value)
    else Ok (SIToFPOp dst_ty value)
  else if isFloat src_e && isInteger dst_e then
    if ElementType_eqb dst_e i1 then
      z <- ZerosLike value ;; Ok (CmpFOp UNE value z)
    else Ok (FPToSIOp dst_ty value)
  else Abort.

(** [Cast] with its two recursive calls unrolled: a bf16 source is first
    extended to f32, a bf16 destination is reached through f32. *)
Definition Cast_from (value : Value) (dst_e : ElementType) : Result Value :=
  match element_of (getType value) with
  | None => Abort
  | Some src_e =>
      let dst_ty := with_element (getType value) dst_e in
      if MlirType_eqb (getType value) dst_ty then Ok value
      else if ElementType_eqb dst_e bf16 && negb (ElementType_eqb src_e i8)
      then
        inner <- (if ElementType_eqb src_e f32 then Ok value
                  else Cast_plain value src_e f32
                         (with_element (getType value) f32)) ;;
        Ok (TruncFOp dst_ty inner)
      else Cast_plain value src_e dst_e dst_ty
  end.

Definition Cast (value : Value) (dst_e : ElementType) : Result Value :=
  match element_of (getType value) with
  | None => Abort
  | Some src_e =>
      let dst_ty := with_element (getType value) dst_e in
      if MlirType_eqb (getType value) dst_ty then Ok value
      else if ElementType_eqb src_e bf16 then
        Cast_from (ExtFOp (with_element (getType value) f32) value) dst_e
      else Cast_from value dst_e
  end.

(** An integer constant of element type [e]: what [CreateConst] yields on
    an integer type, where it cannot fail. *)
Definition IntConst (e : ElementType) (v : Z) : Value :=
  ConstantOp (ScalarType e) (IntegerAttr (CInt.wrap (getIntOrFloatBitWidth e) v)).

(** ** Concatenation multiplexing *)

Fixpoint multi_select_loop (index : Value) (limits rest : list Value)
    (result : Value) : Value :=
  match limits, rest with
  | l :: ls, c :: cs =>
      multi_select_loop index ls cs (SelectOp (CmpIOp slt index l) result c)
  | _, _ => result
  end.

(** [choices.size() - 1] is unsigned arithmetic. *)
Definition size_minus_one (len : nat) : Z := (Z.of_nat len - 1) mod 2 ^ 64.

Definition EmitMultiSelect (index : Value) (limits choices : list Value)
  : Result Value :=
  TF_RET_CHECK (size_minus_one (List.length choices)
                =? Z.of_nat (List.length limits))
    "choices.size() - 1 == limits.size()" ;;;
  match choices with
  | c0 :: cs => Ok (multi_select_loop index limits cs c0)
  | [] => Abort
  end.

Definition UncompilableMatmul (explanation : string) : Status :=
  mkStatus kCancelled (Text explanation)
           [(kUncompilableFusion, Text explanation)].

(** ** Block pointers *)

Record DimProperties := mkDimProperties {
  index : Z;
  pid : Value;
  block_size : Z;
  split_value : Z
}.

Record Side := mkSide {
  scope : Scope;
  tiled_dims : list DimProperties;
  batch_dim_idx : option Z
}.

(** The members of [MatMulEmitterHelper] that address building reads. *)
Record MatMulEmitterHelper := mkHelper {
  index_ty_ : ElementType;
  analysis_ : TritonFusionAnalysis;
  dims_ : MatMulDims;
  launch_config_ : MatMulLaunchConfig
}.

Definition ConvertScalar (h : MatMulEmitterHelper) (value : Value) : Value :=
  if getIntOrFloatBitWidth (index_ty_ h) =? 64
  then ExtSIOp (ScalarType (index_ty_ h)) value
  else value.

Definition Cst (h : MatMulEmitterHelper) (v : Z) : Value :=
  IntConst (index_ty_ h) (int64 v).
Definition Cst32 (v : Z) : Value := IntConst i32 (int32 v).
Definition Cst64 (v : Z) : Value := IntConst i64 (int64 v).

(** The vectors [EmitTensorPointer] fills while it walks the tiled
    dimensions. *)
Record PointerParts := mkParts {
  bounds : list Value;
  strides : list Value;
  tensor_offsets : list Value;
  block_dims : list Z;
  dim_order : list Z;
  block_offsets : list Value;
  boundary_checks : list Z
}.

Definition empty_parts (checks : list Z) : PointerParts :=
  mkParts [] [] [] [] [] [] checks.

(** What the concatenation prologue of [EmitTensorPointer] leaves behind. *)
Record ConcatInfo := mkConcatInfo {
  concat_dim_idx : Z;
  concat_boundaries : list Value;
  concat_dim_pid_offset : Value
}.

(** The search for the concatenated dimension among the tiled ones. *)
Fixpoint find_dim (dims : list DimProperties) (idx : Z)
  : Result DimProperties :=
  match dims with
  | d :: ds => if index d =? idx then Ok d else find_dim ds idx
  | [] => Abort
  end.

(** The loop over all operands but the last: divisibility check and
    boundary constants. *)
Fixpoint concat_boundaries_loop (h : MatMulEmitterHelper) (side : Side)
    (idx : Z) (properties : DimProperties) (ops : list HloInstruction)
    (acc : list Value) : Result (list Value) :=
  match ops with
  | [] | [_] => Ok acc
  | op :: rest =>
      spec <- deref (IterSpec (analysis_ h) (scope side) op idx) ;;
      fragment <- at_ spec 0 ;;
      r <- crem (sliced_count fragment) (block_size properties) ;;
      if negb (r =? 0)
      then Err (UncompilableMatmul "Operand is not divisible by the block size.")
      else concat_boundaries_loop h side idx properties rest
             (acc ++ [Cst32 (add64 (int64 (- slice_start fragment))
                                   (sliced_count fragment))])
  end.

Definition emit_base (h : MatMulEmitterHelper) (hlo : HloInstruction)
    (side : Side) (bases : list Value) : Result (Value * ConcatInfo) :=
  if HloOpcode_eqb (opcode hlo) kConcatenate then
    let idx := if Scope_eqb (scope side) LHS
               then lhs_noncontracting_dim_idx (dims_ h)
               else rhs_noncontracting_dim_idx (dims_ h) in
    properties <- find_dim (tiled_dims side) idx ;;
    TF_RET_CHECK (Z.of_nat (List.length bases) =? operand_count hlo)
      "bases.size() == hlo->operand_count()" ;;;
    boundaries <- concat_boundaries_loop h side idx properties
                    (operands hlo) [] ;;
    let pid_offset := MulIOp (pid properties) (Cst32 (block_size properties)) in
    base <- EmitMultiSelect pid_offset boundaries bases ;;
    Ok (base, mkConcatInfo idx boundaries pid_offset)
  else
    base <- at_ bases 0 ;;
    Ok (base, mkConcatInfo (-1) [] NullValue).

(** The per-input constants gathered by [add_dim]. *)
Fixpoint input_specs (h : MatMulEmitterHelper) (side : Side) (idx : Z)
    (inputs : list HloInstruction) : Result (list DimIterationSpec) :=
  match inputs with
  | [] => Ok []
  | input :: rest =>
      spec <- deref (IterSpec (analysis_ h) (scope side) input idx) ;;
      _ <- at_ spec 0 ;;
      specs <- input_specs h side idx rest ;;
      Ok (spec :: specs)
  end.

Definition first_fragment (spec : DimIterationSpec) : IterationSpecFragment :=
  match spec with f :: _ => f | [] => mkFragment 0 0 0 0 end.

(** The lambda [add_dim] of [EmitTensorPointer]. *)
Definition add_dim (h : MatMulEmitterHelper) (hlo : HloInstruction)
    (side : Side) (ci : ConcatInfo) (properties : DimProperties)
    (st : PointerParts) : Result PointerParts :=
  match IterSpec (analysis_ h) (scope side) hlo (index properties) with
  | None => Ok st
  | Some _ =>
      let pid_offset :=
        if is_null (pid properties) then Cst32 0
        else MulIOp (pid properties) (Cst32 (block_size properties)) in
      let inputs := if HloOpcode_eqb (opcode hlo) kConcatenate
                    then operands hlo else [hlo] in
      specs <- input_specs h side (index properties) inputs ;;
      let input_strides :=
        map (fun s => Cst64 (stride (first_fragment s))) specs in
      let input_offsets :=
        map (fun s => AddIOp pid_offset (Cst32 (slice_start (first_fragment s))))
            specs in
      let input_bounds :=
        map (fun s => Cst64 (count (first_fragment s))) specs in
      stride_value <- EmitMultiSelect (concat_dim_pid_offset ci)
                        (concat_boundaries ci) input_strides ;;
      st1 <-
        (if index properties =? concat_dim_idx ci then
           offset_value <- EmitMultiSelect pid_offset (concat_boundaries ci)
                             input_offsets ;;
           bound_value <- EmitMultiSelect pid_offset (concat_boundaries ci)
                            input_bounds ;;
           Ok (mkParts (bounds st ++ [bound_value])
                       (strides st ++ [stride_value])
                       (tensor_offsets st) (block_dims st) (dim_order st)
                       (block_offsets st ++ [offset_value])
                       (boundary_checks st))
         else
           front <- at_ specs 0 ;;
           f0 <- at_ front 0 ;;
           count_ <-
             (if Scope_eqb (scope side) OUTPUT
                 && (index properties =? out_lhs_noncontracting_dim_idx (dims_ h))
                 && (Z.of_nat (List.length front) =? 1)
                 && has_value (lhs_noncontracting_split (dims_ h))
              then cdiv 64 (count f0)
                     (value_or (lhs_noncontracting_split (dims_ h)) 0)
              else Ok (count f0)) ;;
           r <- crem count_ (mul32 (block_size properties)
                                   (split_value properties)) ;;
           let bounds' := bounds st ++ [Cst64 count_] in
           Ok (mkParts bounds' (strides st ++ [stride_value])
                       (tensor_offsets st) (block_dims st) (dim_order st)
                       (block_offsets st ++ [pid_offset])
                       (if negb (r =? 0)
                        then boundary_checks st
                               ++ [int32 (Z.of_nat (List.length bounds') - 1)]
                        else boundary_checks st))) ;;
      front <- at_ specs 0 ;;
      f0 <- at_ front 0 ;;
      Ok (mkParts (bounds st1) (strides st1)
                  (tensor_offsets st1 ++ [Cst32 (slice_start f0)])
                  (block_dims st1 ++ [block_size properties])
                  (Z.of_nat (List.length (dim_order st1)) :: dim_order st1)
                  (block_offsets st1) (boundary_checks st1))
  end.

(** The loop [for (dim : side.tiled_dims) TF_RETURN_IF_ERROR(add_dim(dim))]. *)
Fixpoint add_dims (h : MatMulEmitterHelper) (hlo : HloInstruction)
    (side : Side) (ci : ConcatInfo) (dims : list DimProperties)
    (st : PointerParts) : Result PointerParts :=
  match dims with
  | [] => Ok st
  | d :: ds => st' <- add_dim h hlo side ci d st ;; add_dims h hlo side ci ds st'
  end.

(** The side effects of the lambda [get_batch_stride]. *)
Record BatchState := mkBatchState {
  offset_batch : Z;
  has_batch_offset : bool
}.

Definition get_batch_stride (h : MatMulEmitterHelper) (side : Side)
    (hlo_param : HloInstruction) (bs : BatchState)
  : Result (Value * BatchState) :=
  r <-
    (if negb (Scope_eqb (scope side) RHS)
        && has_value (lhs_noncontracting_split (dims_ h))
     then
       d0 <- at_ (tiled_dims side) 0 ;;
       match IterSpec (analysis_ h) (scope side) hlo_param (index d0) with
       | Some spec =>
           stride_batch <-
             (if Z.of_nat (List.length spec) >? 1 then
                f1 <- at_ spec 1 ;; Ok (stride f1)
              else
                f0 <- at_ spec 0 ;;
                q <- cdiv 64 (count f0)
                       (value_or (lhs_noncontracting_split (dims_ h)) 0) ;;
                Ok (mul64 (stride f0) q)) ;;
           TF_RET_CHECK (negb (stride_batch =? 0)) "stride_batch != 0" ;;;
           Ok (stride_batch, offset_batch bs)
       | None => Ok (0, offset_batch bs)
       end
     else
       match batch_dim_idx side with
       | Some bidx =>
           match IterSpec (analysis_ h) (scope side) hlo_param bidx with
           | Some spec =>
               f0 <- at_ spec 0 ;;
               TF_RET_CHECK (negb (stride f0 =? 0)) "stride_batch != 0" ;;;
               Ok (stride f0, slice_start f0)
           | None => Ok (0, offset_batch bs)
           end
       | None => Ok (0, offset_batch bs)
       end) ;;
  let '(stride_batch, offset) := r in
  Ok (Cst h stride_batch,
      mkBatchState offset (has_batch_offset bs || negb (stride_batch =? 0))).

Fixpoint batch_strides_loop (h : MatMulEmitterHelper) (side : Side)
    (ops : list HloInstruction) (bs : BatchState)
  : Result (list Value * BatchState) :=
  match ops with
  | [] => Ok ([], bs)
  | op :: rest =>
      r <- get_batch_stride h side op bs ;;
      let '(v, bs1) := r in
      r' <- batch_strides_loop h side rest bs1 ;;
      let '(vs, bs2) := r' in
      Ok (v :: vs, bs2)
  end.

(** [MatMulEmitterHelper::EmitTensorPointer]: the pointer and the boundary
    checks, which the source appends to its last argument. *)
Definition EmitTensorPointer (h : MatMulEmitterHelper) (hlo : HloInstruction)
    (side : Side) (bases : list Value) (pid_k : Value)
    (checks : list Z) : Result (Value * list Z) :=
  bc <- emit_base h hlo side bases ;;
  let '(base0, ci) := bc in
  st <- add_dims h hlo side ci (tiled_dims side) (empty_parts checks) ;;
  sb <-
    (if HloOpcode_eqb (opcode hlo) kConcatenate then
       r <- batch_strides_loop h side (operands hlo) (mkBatchState 0 false) ;;
       let '(batch_strides, bs) := r in
       v <- EmitMultiSelect (concat_dim_pid_offset ci) (concat_boundaries ci)
              batch_strides ;;
       Ok (v, bs)
     else get_batch_stride h side hlo (mkBatchState 0 false)) ;;
  let '(batch_stride, bs) := sb in
  let base1 :=
    if has_batch_offset bs then
      let pid_batch := GetProgramIdOp (batch_program_id_dim (launch_config_ h)) in
      let pid_offset_batch :=
        MulIOp (AddIOp (Cst h (offset_batch bs)) (ConvertScalar h pid_batch))
               batch_stride in
      AddPtr base0 pid_offset_batch
    else base0 in
  base2 <-
    match out_split_k_dim_idx (dims_ h) with
    | Some sidx =>
        match IterSpec (analysis_ h) OUTPUT hlo sidx with
        | Some spec =>
            TF_RET_CHECK (negb (is_null pid_k)) "pid_k != nullptr" ;;;
            f0 <- at_ spec 0 ;;
            Ok (AddPtr base1 (MulIOp (ConvertScalar h pid_k)
                                     (Cst h (stride f0))))
        | None => Ok base1
        end
    | None => Ok base1
    end ;;
  match block_dims st with
  | [] => Ok (base2, boundary_checks st)
  | _ =>
      let tensor_ptr :=
        MakeTensorPtrOp base2 (bounds st) (strides st) (tensor_offsets st)
                        (block_dims st) (dim_order st) in
      Ok (AdvanceOp (getType tensor_ptr) tensor_ptr (block_offsets st),
          boundary_checks st)
  end.

Definition EmitParameterLoad (pointer : Value) (checks : list Z)
  : Result Value :=
  if isTensorPointerType (getType pointer) then
    let padding := match checks with [] => None | _ => Some PAD_ZERO end in
    Ok (LoadOp pointer checks padding)
  else Splat (LoadOp pointer [] None) [].

(** ** Constants and reductions *)

(** Collaborators of the scope emitter: the scalar-constant query, the
    first element of a literal converted to a primitive type, and the
    emission of an instruction list against a memo of emitted values
    (keyed by instruction name). *)
Variable IsScalarConstant : HloInstruction -> bool.
Variable LiteralValue : HloInstruction -> PrimitiveType -> Result CValue.
Variable EmitScope :
  option TritonFusionAnalysis -> Scope -> list DimProperties ->
  list HloInstruction -> list (string * Value) -> Result Value.

Definition ScalarConstantValue (instr : HloInstruction)
    (dst_type : PrimitiveType) : Result CValue :=
  CHECK (IsScalarConstant instr) ;;; value (LiteralValue instr dst_type).

(** [primitive_util::IsIntegralType] on the element types [TritonType]
    accepts. *)
Definition IsInteger (s : Shape) : bool :=
  match element_type s with
  | S64 | S32 | S16 | S8 | U64 => true
  | _ => false
  end.

Definition EmitConstant (constant : HloInstruction) : Result Value :=
  ty <- TritonType (element_type (shape constant)) ;;
  if IsInteger (shape constant) then
    if PrimitiveType_eqb (element_type (shape constant)) U64 then
      v <- ScalarConstantValue constant U64 ;; CreateConst (ScalarType ty) v
    else
      v <- ScalarConstantValue constant S64 ;; CreateConst (ScalarType ty) v
  else
    v <- ScalarConstantValue constant F64 ;; CreateConst (ScalarType ty) v.

(** [mlir::cast<TensorValue>(v).getType().getShape()]. *)
Definition tensor_shape (v : Value) : Result (list Z) :=
  match getType v with
  | RankedTensorType s _ => Ok s
  | _ => Abort
  end.

Definition back (l : list Z) : Result Z :=
  match rev l with x :: _ => Ok x | [] => Abort end.

(** The neutral element of a reduce: a constant, or a bf16 constant
    behind a conversion to f32. *)
Definition reduce_neutral (operand1 : HloInstruction) : Result Value :=
  if HloOpcode_eqb (opcode operand1) kConvert then
    c <- operand operand1 0 ;;
    TF_RET_CHECK (HloOpcode_eqb (opcode c) kConstant)
      "operand->operand(0)->opcode() == HloOpcode::kConstant" ;;;
    TF_RET_CHECK (PrimitiveType_eqb (element_type (shape c)) BF16)
      "operand->operand(0)->shape().element_type() == BF16" ;;;
    let dest_ty := element_type (shape operand1) in
    TF_RET_CHECK (PrimitiveType_eqb dest_ty F32) "dest_ty == F32" ;;;
    neutral <- EmitConstant c ;;
    t <- TritonType dest_ty ;;
    Cast neutral t
  else
    TF_RET_CHECK (HloOpcode_eqb (opcode operand1) kConstant)
      "operand->opcode() == HloOpcode::kConstant" ;;;
    EmitConstant operand1.

(** The masking step of [EmitReduce]. *)
Definition mask_input (input neutral : Value) (input_shape : list Z)
    (block_row row_len : Z) : Result Value :=
  if negb (block_row =? row_len) then
    s <- Splat (IntConst i32 row_len) [block_row] ;;
    let mask := CmpIOp slt (Range block_row) s in
    n <- Splat neutral input_shape ;;
    Ok (SelectOp mask input n)
  else Ok input.

(** The parameters of the reducer are bound to the two block arguments;
    everything else is left to emit. *)
Fixpoint reducer_bindings (instrs : list HloInstruction)
    (region_values : list (string * Value)) (to_emit : list HloInstruction)
  : Result (list (string * Value) * list HloInstruction) :=
  match instrs with
  | [] => Ok (region_values, to_emit)
  | instr :: rest =>
      if HloOpcode_eqb (opcode instr) kParameter then
        TF_RET_CHECK (parameter_number instr <? 2) "parameter_number < 2" ;;;
        TF_RET_CHECK
          (negb (existsb (fun kv => String.eqb (fst kv) (name instr))
                         region_values))
          "region_values.insert({instr, reducer->getArgument(parameter_number)}).second" ;;;
        reducer_bindings rest
          (region_values
             ++ [(name instr,
                  BlockArgument (parameter_number instr) (ScalarType f32))])
          to_emit
      else reducer_bindings rest region_values (to_emit ++ [instr])
  end.

Definition EmitReduce (hlo_reduce : HloInstruction) (input : Value)
  : Result Value :=
  input_shape <- tensor_shape input ;;
  TF_RET_CHECK (operand_count hlo_reduce =? 2)
    "hlo_reduce.operand_count() == 2" ;;;
  TF_RET_CHECK (Z.of_nat (List.length (hlo_dimensions hlo_reduce)) =? 1)
    "hlo_reduce.dimensions().size() == 1" ;;;
  d0 <- at_ (hlo_dimensions hlo_reduce) 0 ;;
  operand0 <- operand hlo_reduce 0 ;;
  TF_RET_CHECK (d0 =? rank (shape operand0) - 1)
    "hlo_reduce.dimensions(0) == hlo_reduce.operand(0)->shape().rank() - 1" ;;;
  last <- back input_shape ;;
  let block_row := int32 last in
  minor <- dimensions_minor (shape operand0) 0 ;;
  let row_len := int32 minor in
  TF_RET_CHECK (block_row >=? row_len) "block_row >= row_len" ;;;
  operand1 <- operand hlo_reduce 1 ;;
  neutral <- reduce_neutral operand1 ;;
  masked <- mask_input input neutral input_shape block_row row_len ;;
  casted_input <- Cast masked f32 ;;
  let axis := int32 (Z.of_nat (List.length input_shape)) - 1 in
  rb <- reducer_bindings (to_apply hlo_reduce) [] [] ;;
  let '(region_values, to_emit) := rb in
  TF_RET_CHECK (negb (Nat.eqb (List.length to_emit) 0)) "!to_emit.empty()" ;;;
  result <- EmitScope None OUTPUT [] to_emit region_values ;;
  let reduction := ReduceOp casted_input axis result in
  result' <- match getType reduction with
             | RankedTensorType _ _ => Ok reduction
             | _ => Splat reduction []
             end ;;
  out_ty <- TritonType (element_type (shape hlo_reduce)) ;;
  Cast result' out_ty.

(** ** Emulated bf16 dots *)

(** [mlir::cast<ShapedType>(v.getType())]. *)
Definition shaped_type (v : Value) : Result (list Z * ElementType) :=
  match getType v with
  | RankedTensorType s e => Ok (s, e)
  | _ => Abort
  end.

Definition TruncateToBF16TowardsZero (input : Value) : Result Value :=
  t <- shaped_type input ;;
  let '(dims, _) := t in
  let input_type_as_i32 := RankedTensorType dims i32 in
  let input_as_i32 := BitcastOp input_type_as_i32 input in
  mask <- CreateConstTensor (ScalarType i32) (CInt 4294901760) dims ;;
  let high_bits := AndIOp input_as_i32 mask in
  Ok (BitcastOp (getType input) high_bits).

Definition SoftMiddleEight (input : Value) : Result Value :=
  high <- TruncateToBF16TowardsZero input ;;
  Ok (SubFOp input high).

Definition SoftLowEight (input : Value) : Result Value :=
  mid <- SoftMiddleEight input ;; SoftMiddleEight mid.

Definition RoundToBF16 (input : Value) : Result Value := Cast input bf16.

Definition positive_infinity : spec_float := S754_infinity false.

Definition CheckFiniteF32 (input : Value) : Result Value :=
  t <- shaped_type input ;;
  let '(dims, _) := t in
  positive_inf <- CreateConstTensor (ScalarType f32)
                    (CFloat positive_infinity) dims ;;
  let abs_input := AbsFOp input in
  Ok (CmpFOp OGT positive_inf abs_input).

Definition bf16_dot (lhs_bf16 rhs_bf16 accumulator : Value) : Value :=
  DotOp lhs_bf16 rhs_bf16 accumulator false 0.

Definition check_f32 (v : Value) (what : string) : Result unit :=
  t <- shaped_type v ;;
  TF_RET_CHECK (ElementType_eqb (snd t) f32) what.

(** The guard shared by both emulations: non-finite lanes of the
    accumulated correction terms become zero. *)
Definition guard_non_finite (result : Value) : Result Value :=
  is_finite <- CheckFiniteF32 result ;;
  zeros <- ZerosLike result ;;
  Ok (SelectOp is_finite result zeros).

Definition Emit6xBfloat16MatMul (lhs rhs acc : Value) : Result Value :=
  check_f32 lhs "mlir::cast<ShapedType>(lhs.getType()).getElementType() == f32" ;;;
  check_f32 rhs "mlir::cast<ShapedType>(rhs.getType()).getElementType() == f32" ;;;
  check_f32 acc "mlir::cast<ShapedType>(acc.getType()).getElementType() == f32" ;;;
  t <- TruncateToBF16TowardsZero lhs ;; lhs_high <- RoundToBF16 t ;;
  s <- SoftMiddleEight lhs ;; t <- TruncateToBF16TowardsZero s ;;
  lhs_middle <- RoundToBF16 t ;;
  s <- SoftLowEight lhs ;; t <- TruncateToBF16TowardsZero s ;;
  lhs_low <- RoundToBF16 t ;;
  t <- TruncateToBF16TowardsZero rhs ;; rhs_high <- RoundToBF16 t ;;
  s <- SoftMiddleEight rhs ;; t <- TruncateToBF16TowardsZero s ;;
  rhs_middle <- RoundToBF16 t ;;
  s <- SoftLowEight rhs ;; t <- TruncateToBF16TowardsZero s ;;
  rhs_low <- RoundToBF16 t ;;
  local_acc <- ZerosLike acc ;;
  let result := bf16_dot lhs_middle rhs_middle local_acc in
  let result := bf16_dot lhs_low rhs_high result in
  let result := bf16_dot lhs_high rhs_low result in
  let result := bf16_dot lhs_middle rhs_high result in
  let result := bf16_dot lhs_high rhs_middle result in
  result <- guard_non_finite result ;;
  let result := bf16_dot lhs_high rhs_high result in
  Ok (AddFOp acc result).

Definition Emit3xBfloat16MatMul (lhs rhs acc : Value) : Result Value :=
  check_f32 lhs "mlir::cast<ShapedType>(lhs.getType()).getElementType() == f32" ;;;
  check_f32 rhs "mlir::cast<ShapedType>(rhs.getType()).getElementType() == f32" ;;;
  check_f32 acc "mlir::cast<ShapedType>(acc.getType()).getElementType() == f32" ;;;
  t <- TruncateToBF16TowardsZero lhs ;; lhs_high <- RoundToBF16 t ;;
  s <- SoftMiddleEight lhs ;; lhs_low <- RoundToBF16 s ;;
  t <- TruncateToBF16TowardsZero rhs ;; rhs_high <- RoundToBF16 t ;;
  s <- SoftMiddleEight rhs ;; rhs_low <- RoundToBF16 s ;;
  local_acc <- ZerosLike acc ;;
  let result := bf16_dot lhs_low rhs_high local_acc in
  let result := bf16_dot lhs_high rhs_low result in
  result <- guard_non_finite result ;;
  let result := bf16_dot lhs_high rhs_high result in
  Ok (AddFOp acc result).

(** ** The prologue of EmitMatMul *)

(** Traversal of the dot's operands through the fusion adaptor. *)
Variable is_8_bit_or_less_dot_with_F32 : HloDotInstruction -> Result bool.

Definition use_64bit_indexing (config : TritonGemmConfig)
    (dot : HloDotInstruction) : Result bool :=
  lhs <- operand (dot_hlo dot) 0 ;;
  if ElementsIn (shape lhs) >? INT_MAX then Ok true
  else
    rhs <- operand (dot_hlo dot) 1 ;;
    if ElementsIn (shape rhs) >? INT_MAX then Ok true
    else Ok (mul64 (ElementsIn (shape (dot_hlo dot))) (split_k config)
             >? INT_MAX).

(** [builder.getIntegerType(use_64bit_indexing ? 64 : 32)]. *)
Definition index_type (use64 : bool) : ElementType :=
  if use64 then i64 else i32.

Definition group_m : Z := 8.

Definition c32 (v : Z) : Value := IntConst i32 v.

(** The program ids, lines 1976-1998. *)
Record ProgramIds := mkProgramIds {
  pid_nc : Value;
  pid_k : Value;
  group_id : Value;
  first_pid_m : Value;
  group_size : Value;
  pid_m : Value;
  pid_n : Value
}.

Definition program_ids (config : TritonGemmConfig)
    (launch_config : MatMulLaunchConfig) : ProgramIds :=
  let width := mul64 group_m (grid_n launch_config) in
  let pid_nc := GetProgramIdOp (noncontracting_program_id_dim launch_config) in
  let pid_k := if split_k config >? 1 then GetProgramIdOp PidZ
               else NullValue in
  let group_id := DivSIOp pid_nc (c32 width) in
  let group_m_op := c32 group_m in
  let first_pid_m := MulIOp group_id group_m_op in
  let sub0 := SubIOp (c32 (grid_m launch_config)) first_pid_m in
  let group_size := SelectOp (CmpIOp slt sub0 group_m_op) sub0 group_m_op in
  let pid_m := AddIOp first_pid_m (RemSIOp pid_nc group_size) in
  let pid_n := DivSIOp (RemSIOp pid_nc (c32 width)) group_size in
  mkProgramIds pid_nc pid_k group_id first_pid_m group_size pid_m pid_n.

(** What [EmitMatMul] has established when it starts building sides and
    pointers. *)
Record Prologue := mkPrologue {
  is_sparse : bool;
  index_ty : ElementType;
  no_tf32_for_8_bit : bool;
  prologue_dims : MatMulDims;
  prologue_launch_config : MatMulLaunchConfig;
  emitter : MatMulEmitterHelper;
  ids : ProgramIds
}.

(** [EmitMatMul] up to line 1998; [body] is the remainder of the function
    (sides, loop, epilogue, stores). *)
Definition EmitMatMul (analysis : TritonFusionAnalysis)
    (dot : HloDotInstruction) (config : TritonGemmConfig)
    (body : Prologue -> Result unit) : Result unit :=
  CheckGemmTilingComplexityHeuristic config ;;;
  let sparse := sparse_operands dot >? 0 in
  use64 <- use_64bit_indexing config dot ;;
  let ity := index_type use64 in
  let root := root_instruction dot in
  TF_RET_CHECK (negb (IsTuple (shape root))) "!root->shape().IsTuple()" ;;;
  narrow <- is_8_bit_or_less_dot_with_F32 dot ;;
  ValidateMatMulConfig config dot ;;;
  dims <- MatMulDims_Create config dot analysis ;;
  launch_config <- MatMulLaunchConfig_init config dot dims ;;
  let helper := mkHelper ity analysis dims launch_config in
  body (mkPrologue sparse ity narrow dims launch_config helper
                   (program_ids config launch_config)).

(** The three sides [EmitMatMul] builds for a dense dot
    (lines 2010-2030). *)
Definition lhs_side (config : TritonGemmConfig) (p : Prologue)
  : Result Side :=
  bk <- cdiv 32 (block_k config) (add32 1 (if is_sparse p then 1 else 0)) ;;
  Ok (mkSide LHS
        [mkDimProperties (lhs_noncontracting_dim_idx (prologue_dims p))
           (pid_m (ids p)) (block_m config) 1;
         mkDimProperties (lhs_contracting_dim_idx (prologue_dims p))
           (pid_k (ids p)) bk (split_k config)]
        (lhs_batch_dim_idx (prologue_dims p))).

Definition rhs_side (config : TritonGemmConfig) (p : Prologue) : Side :=
  mkSide RHS
    [mkDimProperties (rhs_contracting_dim_idx (prologue_dims p))
       (pid_k (ids p)) (block_k config) (split_k config);
     mkDimProperties (rhs_noncontracting_dim_idx (prologue_dims p))
       (pid_n (ids p)) (block_n config) 1]
    (rhs_batch_dim_idx (prologue_dims p)).

Definition out_side (config : TritonGemmConfig) (p : Prologue) : Side :=
  mkSide OUTPUT
    [mkDimProperties (out_lhs_noncontracting_dim_idx (prologue_dims p))
       (pid_m (ids p)) (block_m config) 1;
     mkDimProperties (out_rhs_noncontracting_dim_idx (prologue_dims p))
       (pid_n (ids p)) (block_n config) 1]
    (out_batch_dim_idx (prologue_dims p)).

(** ** Meaning of the emitted integer, comparison and selection ops *)

Inductive Scalar :=
| SInt (width v : Z)
| SBool (b : bool)
| SFloat (x : spec_float)
| SPointer (id : Z).

Inductive Val :=
| VScalar (s : Scalar)
| VTensor (dims : list Z) (elems : list Scalar).

(** What the evaluation of a kernel instance is given: its program ids,
    the values of function and block arguments, and the result of the
    hardware dot on given operands. *)
Record Env := mkEnv {
  program_id : ProgramIDDim -> Z;
  func_argument : Z -> option Val;
  block_argument : Z -> option Val;
  dot_value : Val -> Val -> Val -> option Val
}.

Definition num_elements (dims : list Z) : nat :=
  Z.to_nat (fold_right Z.mul 1 dims).

Definition same_dims (s t : list Z) : bool :=
  if list_eq_dec Z.eq_dec s t then true else false.

Fixpoint zip_with {A B C} (f : A -> B -> option C) (xs : list A) (ys : list B)
  : option (list C) :=
  match xs, ys with
  | [], [] => Some []
  | x :: xs', y :: ys' =>
      match f x y, zip_with f xs' ys' with
      | Some c, Some cs => Some (c :: cs)
      | _, _ => None
      end
  | _, _ => None
  end.

Fixpoint map_opt {A B} (f : A -> option B) (xs : list A) : option (list B) :=
  match xs with
  | [] => Some []
  | x :: xs' =>
      match f x, map_opt f xs' with
      | Some c, Some cs => Some (c :: cs)
      | _, _ => None
      end
  end.

Definition lift1 (f : Scalar -> option Scalar) (a : Val) : option Val :=
  match a with
  | VScalar x => option_map VScalar (f x)
  | VTensor s xs => option_map (VTensor s) (map_opt f xs)
  end.

Definition lift2 (f : Scalar -> Scalar -> option Scalar) (a b : Val)
  : option Val :=
  match a, b with
  | VScalar x, VScalar y => option_map VScalar (f x y)
  | VTensor s xs, VTensor t ys =>
      if same_dims s t then option_map (VTensor s) (zip_with f xs ys)
      else None
  | _, _ => None
  end.

Definition int_binop (f : Z -> Z -> option Z) (x y : Scalar)
  : option Scalar :=
  match x, y with
  | SInt w a, SInt w' b =>
      if w =? w' then option_map (fun r => SInt w (CInt.wrap w r)) (f a b)
      else None
  | _, _ => None
  end.

Definition divsi (a b : Z) : option Z :=
  if b =? 0 then None else Some (Z.quot a b).

Definition remsi (a b : Z) : option Z :=
  if b =? 0 then None else Some (Z.rem a b).

Definition cmpi_slt (x y : Scalar) : option Scalar :=
  match x, y with
  | SInt w a, SInt w' b => if w =? w' then Some (SBool (a <? b)) else None
  | _, _ => None
  end.

(** Ordered greater-than: false when either side is a NaN. *)
Definition cmpf_ogt (x y : Scalar) : option Scalar :=
  match x, y with
  | SFloat a, SFloat b =>
      Some (SBool (match SFcompare a b with Some Gt => true | _ => false end))
  | _, _ => None
  end.

Definition absf (x : Scalar) : option Scalar :=
  match x with SFloat a => Some (SFloat (SFabs a)) | _ => None end.

Definition select_scalar (c : Scalar) (ab : Scalar * Scalar) : option Scalar :=
  match c with
  | SBool true => Some (fst ab)
  | SBool false => Some (snd ab)
  | _ => None
  end.

(** [arith.select]: a scalar condition picks a whole value, a tensor
    condition picks lane by lane. *)
Definition select_val (c a b : Val) : option Val :=
  match c, a, b with
  | VScalar (SBool true), _, _ => Some a
  | VScalar (SBool false), _, _ => Some b
  | VTensor s cs, VTensor t xs, VTensor u ys =>
      if same_dims s t && same_dims t u && Nat.eqb (List.length xs) (List.length ys)
      then option_map (VTensor t) (zip_with select_scalar cs (combine xs ys))
      else None
  | _, _, _ => None
  end.

(** Rounding of a double-precision attribute to a float type. *)
Definition round_to (e : ElementType) (d : spec_float) : spec_float :=
  match d with
  | S754_finite s mant ex =>
      let z := if s then Zneg mant else Zpos mant in
      match e with
      | f64 => binary_normalize 53 1024 z ex s
      | f32 => binary_normalize 24 128 z ex s
      | f16 => binary_normalize 11 16 z ex s
      | _ => binary_normalize 8 128 z ex s
      end
  | _ => d
  end.

Definition const_scalar (e : ElementType) (a : Attr) : option Scalar :=
  match a with
  | IntegerAttr z =>
      if ElementType_eqb e i1 then Some (SBool (negb (z =? 0)))
      else if isInteger e then Some (SInt (getIntOrFloatBitWidth e) z)
      else None
  | FloatAttr d => if isFloat e then Some (SFloat (round_to e d)) else None
  end.

Fixpoint iota (lo : Z) (len : nat) : list Z :=
  match len with
  | O => []
  | S len' => lo :: iota (lo + 1) len'
  end.

(** Precision and maximal exponent of a float type. *)
Definition float_format (e : ElementType) : Z * Z :=
  match e with
  | f64 => (53, 1024)
  | f16 => (11, 16)
  | bf16 => (8, 128)
  | _ => (24, 128)
  end.

(** An arithmetic op on floats of element type [e]. *)
Definition float_binop
    (op : Z -> Z -> spec_float -> spec_float -> spec_float)
    (e : ElementType) (x y : Scalar) : option Scalar :=
  match x, y with
  | SFloat a, SFloat b =>
      Some (SFloat (op (fst (float_format e)) (snd (float_format e)) a b))
  | _, _ => None
  end.

(** [arith.extf] and [arith.truncf]: the value in the format of the
    destination type, rounded to nearest even. *)
Definition convert_float (e : ElementType) (x : Scalar) : option Scalar :=
  match x with
  | SFloat a => Some (SFloat (round_to e a))
  | _ => None
  end.

(** The bit pattern of an f32 (IEEE 754 binary32) as an unsigned
    number; a NaN is the quiet NaN without payload. *)
Definition f32_to_bits (x : spec_float) : Z :=
  match x with
  | S754_zero s => if s then 2 ^ 31 else 0
  | S754_infinity s => (if s then 2 ^ 31 else 0) + 255 * 2 ^ 23
  | S754_nan => 255 * 2 ^ 23 + 2 ^ 22
  | S754_finite s mant e =>
      (if s then 2 ^ 31 else 0)
      + (if Zpos mant <? 2 ^ 23 then Zpos mant
         else (e + 150) * 2 ^ 23 + (Zpos mant - 2 ^ 23))
  end.

(** The f32 with a given bit pattern. *)
Definition bits_to_f32 (bits : Z) : spec_float :=
  let b := bits mod 2 ^ 32 in
  let s := 2 ^ 31 <=? b in
  let ex := (b / 2 ^ 23) mod 256 in
  let mant := b mod 2 ^ 23 in
  if ex =? 255 then (if mant =? 0 then S754_infinity s else S754_nan)
  else if ex =? 0 then
    (if mant =? 0 then S754_zero s
     else S754_finite s (Z.to_pos mant) (- 149))
  else S754_finite s (Z.to_pos (mant + 2 ^ 23)) (ex - 150).

(** [tt.bitcast] between f32 and i32 lanes. *)
Definition bitcast_scalar (dst src : ElementType) (x : Scalar)
  : option Scalar :=
  match dst, src, x with
  | i32, f32, SFloat a => Some (SInt 32 (CInt.wrap 32 (f32_to_bits a)))
  | f32, i32, SInt _ z => Some (SFloat (bits_to_f32 z))
  | _, _, _ => None
  end.

Fixpoint eval (env : Env) (v : Value) : option Val :=
  match v with
  | FuncArgument idx _ => func_argument env idx
  | BlockArgument idx _ => block_argument env idx
  | ConstantOp (ScalarType e) a => option_map VScalar (const_scalar e a)
  | ConstantOp (RankedTensorType dims e) a =>
      option_map (fun s => VTensor dims (repeat s (num_elements dims)))
                 (const_scalar e a)
  | GetProgramIdOp axis => Some (VScalar (SInt 32 (program_id env axis)))
  | AddIOp a b =>
      match eval env a, eval env b with
      | Some x, Some y => lift2 (int_binop (fun p q => Some (p + q))) x y
      | _, _ => None
      end
  | SubIOp a b =>
      match eval env a, eval env b with
      | Some x, Some y => lift2 (int_binop (fun p q => Some (p - q))) x y
      | _, _ => None
      end
  | MulIOp a b =>
      match eval env a, eval env b with
      | Some x, Some y => lift2 (int_binop (fun p q => Some (p * q))) x y
      | _, _ => None
      end
  | DivSIOp a b =>
      match eval env a, eval env b with
      | Some x, Some y => lift2 (int_binop divsi) x y
      | _, _ => None
      end
  | RemSIOp a b =>
      match eval env a, eval env b with
      | Some x, Some y => lift2 (int_binop remsi) x y
      | _, _ => None
      end
  | CmpIOp slt a b =>
      match eval env a, eval env b with
      | Some x, Some y => lift2 cmpi_slt x y
      | _, _ => None
      end
  | CmpFOp OGT a b =>
      match eval env a, eval env b with
      | Some x, Some y => lift2 cmpf_ogt x y
      | _, _ => None
      end
  | AbsFOp a =>
      match eval env a with
      | Some x => lift1 absf x
      | None => None
      end
  | SelectOp c a b =>
      match eval env c, eval env a, eval env b with
      | Some x, Some y, Some z => select_val x y z
      | _, _, _ => None
      end
  | SplatOp (RankedTensorType dims _) a =>
      match eval env a with
      | Some (VScalar s) => Some (VTensor dims (repeat s (num_elements dims)))
      | _ => None
      end
  | MakeRangeOp _ lo hi =>
      Some (VTensor [hi - lo] (map (SInt 32) (iota lo (Z.to_nat (hi - lo)))))
  | DotOp a b acc _ _ =>
      match eval env a, eval env b, eval env acc with
      | Some x, Some y, Some z => dot_value env x y z
      | _, _, _ => None
      end
  | AndIOp a b =>
      match eval env a, eval env b with
      | Some x, Some y => lift2 (int_binop (fun p q => Some (Z.land p q))) x y
      | _, _ => None
      end
  | AddFOp a b =>
      match element_of (getType a), eval env a, eval env b with
      | Some e, Some x, Some y => lift2 (float_binop SFadd e) x y
      | _, _, _ => None
      end
  | SubFOp a b =>
      match element_of (getType a), eval env a, eval env b with
      | Some e, Some x, Some y => lift2 (float_binop SFsub e) x y
      | _, _, _ => None
      end
  | ExtFOp ty a | TruncFOp ty a =>
      match element_of ty, eval env a with
      | Some e, Some x => lift1 (convert_float e) x
      | _, _ => None
      end
  | BitcastOp ty a =>
      match element_of ty, element_of (getType a), eval env a with
      | Some dst, Some src, Some x => lift1 (bitcast_scalar dst src) x
      | _, _, _ => None
      end
  | _ => None
  end.

(** ** Reference definitions the properties are stated against *)

(** Ceiling of [a / b] for a positive [b]. *)
Definition ceil_div (a b : Z) : Z := - ((- a) / b).

(** The tiling-complexity heuristic over unbounded integers. *)
Definition heuristic_value (config : TritonGemmConfig) : Z :=
  (block_m config * block_n config
   + (block_m config + block_n config) * block_k config) / num_warps config.

(** Positive block sizes and warp count, and a numerator that an [int]
    holds. *)
Definition tiling_in_range (config : TritonGemmConfig) : Prop :=
  0 < block_m config /\ 0 < block_n config /\ 0 < block_k config /\
  0 < num_warps config /\
  block_m config * block_n config
  + (block_m config + block_n config) * block_k config <= INT_MAX.

(** The batch size of the launch grid: the split multiplier if present,
    else the output batch extent, else 1. *)
Definition batch_size_of (dot : HloDotInstruction) (dims : MatMulDims)
  : option Z :=
  match lhs_noncontracting_split dims with
  | Some s => Some s
  | None =>
      match out_batch_dim_idx dims with
      | Some i => if i <? 0 then None
                  else nth_error (dimensions (shape (dot_hlo dot))) (Z.to_nat i)
      | None => Some 1
      end
  end.

(** The invariants of a [MatMulDims] value and of the block sizes the
    launch planner divides by, with all quantities small enough for
    64-bit arithmetic. *)
Definition launch_inputs_ok (config : TritonGemmConfig) (dims : MatMulDims)
    (bs : Z) : Prop :=
  1 <= m dims /\ 1 <= n dims /\
  1 <= block_m config /\ 1 <= block_n config /\
  m dims + block_m config < 2 ^ 63 /\ n dims + block_n config < 2 ^ 63 /\
  0 <= bs /\
  ceil_div (m dims) (block_m config) * ceil_div (n dims) (block_n config)
  < 2 ^ 63 /\
  bs * ceil_div (m dims) (block_m config) * ceil_div (n dims) (block_n config)
  < 2 ^ 63 /\
  fits64 (num_warps config * WarpSize) /\
  ~ (has_value (out_batch_dim_idx dims) = true
     /\ has_value (lhs_noncontracting_split dims) = true).

(** The launch configuration the planner is specified to produce. *)
Definition planned_launch (config : TritonGemmConfig) (dims : MatMulDims)
    (bs : Z) : MatMulLaunchConfig :=
  let gm := ceil_div (m dims) (block_m config) in
  let gn := ceil_div (n dims) (block_n config) in
  let threads := BlockDim (num_warps config * WarpSize) 1 1 in
  if 65536 <=? bs then
    mkLaunchConfig gm gn
      (mkLaunchDimensions (BlockDim bs (gm * gn) (split_k config)) threads)
      PidX PidY
  else
    mkLaunchConfig gm gn
      (mkLaunchDimensions (BlockDim (gm * gn) bs (split_k config)) threads)
      PidY PidX.

(** The condition under which addressing needs 64-bit indices. *)
Definition needs_64bit (config : TritonGemmConfig) (lhs rhs out : Shape)
  : Prop :=
  ElementsIn lhs > INT_MAX \/ ElementsIn rhs > INT_MAX \/
  ElementsIn out * split_k config > INT_MAX.

Definition needs_64bitb (config : TritonGemmConfig) (lhs rhs out : Shape)
  : bool :=
  (ElementsIn lhs >? INT_MAX) || (ElementsIn rhs >? INT_MAX)
  || (ElementsIn out * split_k config >? INT_MAX).

(** The pad-then-reshape pattern on the RHS operand chain. *)
Definition pad_pattern (config : TritonGemmConfig) (dot : HloDotInstruction)
  : Prop :=
  split_k config > 1 /\
  exists rhs producer,
    operand (dot_hlo dot) 1 = Ok rhs /\ operand rhs 0 = Ok producer /\
    opcode producer = kPad.

(** The extent just before contracting index [c] in the shape the pad was
    applied to. *)
Definition prepad_extent (dot : HloDotInstruction) (c : Z) : Result Z :=
  rhs <- operand (dot_hlo dot) 1 ;;
  producer <- operand rhs 0 ;;
  unpadded <- operand producer 0 ;;
  dimension (shape unpadded) (c - 1).

(** The extent of the RHS operand along contracting index [c]. *)
Definition rhs_contracting_extent (dot : HloDotInstruction) (c : Z)
  : Result Z :=
  rhs <- operand (dot_hlo dot) 1 ;;
  dimension (shape rhs) c.



Definition i32_val (z : Z) : option Val := Some (VScalar (SInt 32 z)).

(** The position the documented if/else chain selects: the first limit
    that exceeds [i], or the number of limits when none does. *)
Fixpoint first_below (i : Z) (limits : list Z) : nat :=
  match limits with
  | [] => O
  | l :: ls => if i <? l then O else S (first_below i ls)
  end.

(** The value the emitted chain of selects computes, given the values of
    the index, the limits and the choices. *)
Fixpoint cascade {A} (i : Z) (limits : list Z) (rest : list A) (result : A)
  : A :=
  match limits, rest with
  | l :: ls, c :: cs => cascade i ls cs (if i <? l then result else c)
  | _, _ => result
  end.

(** Three distinct base pointers and an environment that tells them
    apart. *)
Definition base_ptr (idx : Z) : Value :=
  FuncArgument idx (PointerType (ScalarType f32)).

Definition pointer_env : Env :=
  mkEnv (fun _ => 0) (fun idx => Some (VScalar (SPointer idx)))
        (fun _ => None) (fun _ _ _ => None).

(** The first fragment of an operand's spec along the concatenated
    dimension, when the table has one. *)
Definition concat_fragment (h : MatMulEmitterHelper) (side : Side) (idx : Z)
    (op : HloInstruction) : option IterationSpecFragment :=
  match IterSpec (analysis_ h) (scope side) op idx with
  | Some (f :: _) => Some f
  | _ => None
  end.

(** The concatenated dimension of a side. *)
Definition concat_dim_of (h : MatMulEmitterHelper) (side : Side) : Z :=
  if Scope_eqb (scope side) LHS
  then lhs_noncontracting_dim_idx (dims_ h)
  else rhs_noncontracting_dim_idx (dims_ h).

(** Whether a status is the distinguished uncompilable-fusion failure. *)
Definition is_uncompilable (s : Status) : Prop :=
  code s = kCancelled /\
  exists explanation, In (kUncompilableFusion, explanation) (payload s).

(** The extent of a tiled dimension as the block pointer sees it: the
    count of the first fragment, divided by the split multiplier for the
    output dimension that a split LHS non-contracting dimension
    produces. *)
Definition axis_extent (h : MatMulEmitterHelper) (side : Side)
    (d : DimProperties) (spec : DimIterationSpec) : Z :=
  let c := count (first_fragment spec) in
  match lhs_noncontracting_split (dims_ h) with
  | Some s =>
      if Scope_eqb (scope side) OUTPUT
         && (index d =? out_lhs_noncontracting_dim_idx (dims_ h))
         && (Z.of_nat (List.length spec) =? 1)
      then c / s else c
  | None => c
  end.

(** Whether the extent is not evenly divisible by
    block_size * split_value. *)
Definition not_divisible (h : MatMulEmitterHelper) (side : Side)
    (ax : DimProperties * DimIterationSpec) : bool :=
  negb (axis_extent h side (fst ax) (snd ax)
          mod (block_size (fst ax) * split_value (fst ax)) =? 0).

(** The instructions whose specs a block pointer reads: the operands of
    a concatenation, else the node itself. *)
Definition inputs_of (hlo : HloInstruction) : list HloInstruction :=
  if HloOpcode_eqb (opcode hlo) kConcatenate then operands hlo else [hlo].

(** The concatenated dimension of a node on a side; -1 when the node is
    not a concatenation. *)
Definition concat_index (h : MatMulEmitterHelper) (hlo : HloInstruction)
    (side : Side) : Z :=
  if HloOpcode_eqb (opcode hlo) kConcatenate then concat_dim_of h side
  else -1.

(** The spec that gives a tiled dimension its extent: that of the first
    input. *)
Definition front_spec (h : MatMulEmitterHelper) (hlo : HloInstruction)
    (side : Side) (d : DimProperties) : DimIterationSpec :=
  match inputs_of hlo with
  | i0 :: _ =>
      match IterSpec (analysis_ h) (scope side) i0 (index d) with
      | Some spec => spec
      | None => []
      end
  | [] => []
  end.

(** The tiled dimensions the node has a spec for, in order: the axes of
    its block pointer, each with the spec its extent is read from. *)
Definition tiled_axes (h : MatMulEmitterHelper) (hlo : HloInstruction)
    (side : Side) (dims : list DimProperties)
  : list (DimProperties * DimIterationSpec) :=
  flat_map (fun d =>
              match IterSpec (analysis_ h) (scope side) hlo (index d) with
              | Some _ => [(d, front_spec h hlo side d)]
              | None => []
              end) dims.

(** Whether an axis is due a boundary check: it is not the concatenated
    dimension and its extent is not divisible. *)
Definition due_check (h : MatMulEmitterHelper) (hlo : HloInstruction)
    (side : Side) (ax : DimProperties * DimIterationSpec) : bool :=
  negb (index (fst ax) =? concat_index h hlo side) && not_divisible h side ax.

(** The axis numbers, counted from [k], that are due a check. *)
Fixpoint checks_from (h : MatMulEmitterHelper) (hlo : HloInstruction)
    (side : Side) (axes : list (DimProperties * DimIterationSpec)) (k : Z)
  : list Z :=
  match axes with
  | [] => []
  | ax :: rest =>
      (if due_check h hlo side ax then [k] else [])
        ++ checks_from h hlo side rest (k + 1)
  end.

(** The padding option of an emitted parameter load. *)
Definition load_padding (v : Value) : option PaddingOption :=
  match v with
  | LoadOp _ _ p => p
  | SplatOp _ (LoadOp _ _ p) => p
  | _ => None
  end.

Definition load_checks (v : Value) : list Z :=
  match v with
  | LoadOp _ c _ => c
  | SplatOp _ (LoadOp _ c _) => c
  | _ => []
  end.

(** Counts that are extents held in an [int64_t], a split multiplier of
    at least 1, and block sizes whose product with the split value is a
    positive [int]. *)
Definition pointer_inputs_ok (h : MatMulEmitterHelper) (hlo : HloInstruction)
    (side : Side) : Prop :=
  Forall (fun d => 0 < block_size d * split_value d < 2 ^ 31)
         (tiled_dims side)
  /\ Forall (fun ax => 0 <= count (first_fragment (snd ax)) < 2 ^ 63)
            (tiled_axes h hlo side (tiled_dims side))
  /\ (forall s, lhs_noncontracting_split (dims_ h) = Some s -> 1 <= s)
  /\ Z.of_nat (List.length (tiled_dims side)) < 2 ^ 31.

(** Finiteness of a float as the emitted test decides it: strictly below
    +infinity in absolute value under an ordered comparison. *)
Definition is_finite_f32 (x : spec_float) : bool :=
  match SFcompare positive_infinity (SFabs x) with
  | Some Gt => true
  | _ => false
  end.

Definition float_zero : spec_float := S754_zero false.

(** The guarded lane: itself when finite, the additive identity
    otherwise. *)
Definition guard_f32 (x : spec_float) : spec_float :=
  if is_finite_f32 x then x else float_zero.

Definition is_finite_class (x : spec_float) : Prop :=
  match x with
  | S754_zero _ | S754_finite _ _ _ => True
  | _ => False
  end.

(** The correction terms each emulation accumulates before the guard,
    given the bf16 parts of the operands and the zero accumulator. *)
Definition correction_terms_3x (lhs_high lhs_low rhs_high rhs_low zeros : Value)
  : Value :=
  bf16_dot lhs_high rhs_low (bf16_dot lhs_low rhs_high zeros).

Definition correction_terms_6x
    (lhs_high lhs_middle lhs_low rhs_high rhs_middle rhs_low zeros : Value)
  : Value :=
  bf16_dot lhs_high rhs_middle
    (bf16_dot lhs_middle rhs_high
       (bf16_dot lhs_high rhs_low
          (bf16_dot lhs_low rhs_high
             (bf16_dot lhs_middle rhs_middle zeros)))).

Definition zeros_f32 (dims : list Z) : Value :=
  ConstantOp (RankedTensorType dims f32) (FloatAttr float_zero).


(** The mask [EmitReduce] emits for a tile of width [block_row]. *)
Definition reduce_mask (block_row row_len : Z) : Value :=
  CmpIOp slt (Range block_row)
         (SplatOp (RankedTensorType [block_row] i32) (IntConst i32 row_len)).


(** ** Worked examples *)

(** A non-batched f32 dot of (64,64) by (64,64) with blocks (32,32,32),
    split factor 1 and one warp. *)
Definition ex_config : TritonGemmConfig := mkConfig 32 32 32 1 1 1 1.

Definition f32_matrix (rows cols : Z) : Shape :=
  mkShape F32 [rows; cols] [1; 0] false.

Definition ex_lhs : HloInstruction :=
  mkHlo "lhs" kParameter (f32_matrix 64 64) [] 0 [] [].
Definition ex_rhs : HloInstruction :=
  mkHlo "rhs" kParameter (f32_matrix 64 64) [] 1 [] [].
Definition ex_dot_hlo : HloInstruction :=
  mkHlo "dot" kDot (f32_matrix 64 64) [ex_lhs; ex_rhs] 0 [] [].
Definition ex_dot : HloDotInstruction :=
  mkDot ex_dot_hlo (mkDnums [1] [0] [] []) 0 ex_dot_hlo.

(** A dot whose contracting dimension of size 100 was padded to 128 and
    reshaped for a split factor of 2. *)
Definition ex_split_config : TritonGemmConfig := mkConfig 32 32 32 2 1 1 1.

Definition ex_unpadded_rhs : HloInstruction :=
  mkHlo "rhs" kParameter (f32_matrix 100 64) [] 1 [] [].
Definition ex_padded_rhs : HloInstruction :=
  mkHlo "pad" kPad (f32_matrix 128 64) [ex_unpadded_rhs] 0 [] [].
Definition ex_bitcast_rhs : HloInstruction :=
  mkHlo "bitcast" kBitcast (mkShape F32 [2; 64; 64] [2; 1; 0] false)
        [ex_padded_rhs] 0 [] [].
Definition ex_split_lhs : HloInstruction :=
  mkHlo "lhs" kParameter (mkShape F32 [64; 2; 64] [2; 1; 0] false) [] 0 [] [].
Definition ex_split_dot_hlo : HloInstruction :=
  mkHlo "dot" kDot (mkShape F32 [2; 64; 64] [2; 1; 0] false)
        [ex_split_lhs; ex_bitcast_rhs] 0 [] [].
Definition ex_split_dot : HloDotInstruction :=
  mkDot ex_split_dot_hlo (mkDnums [2] [1] [1] [0]) 0 ex_split_dot_hlo.

(** Operands of a concatenation along dimension 0: 64 rows, then 100. *)
Definition ex_p0 : HloInstruction :=
  mkHlo "p0" kParameter (f32_matrix 64 32) [] 0 [] [].
Definition ex_p1 : HloInstruction :=
  mkHlo "p1" kParameter (f32_matrix 100 32) [] 1 [] [].
Definition ex_concat : HloInstruction :=
  mkHlo "concat" kConcatenate (f32_matrix 164 32) [ex_p0; ex_p1] 0 [0] [].
Definition ex_concat_swapped : HloInstruction :=
  mkHlo "concat" kConcatenate (f32_matrix 164 32) [ex_p1; ex_p0] 0 [0] [].

(** A parameter of 70 rows by 64 columns. *)
Definition ex_tall : HloInstruction :=
  mkHlo "tall" kParameter (f32_matrix 70 64) [] 0 [] [].

Definition row_major (rows cols start : Z) (d : Z)
  : option DimIterationSpec :=
  if d =? 0 then Some [mkFragment cols rows start rows]
  else if d =? 1 then Some [mkFragment 1 cols 0 cols]
  else None.

(** An iteration-spec table for the examples, keyed by instruction
    name. *)
Definition ex_IterSpec (s : Scope) (hlo : HloInstruction) (d : Z)
  : option DimIterationSpec :=
  if String.eqb (name hlo) "p0" then row_major 64 32 0 d
  else if String.eqb (name hlo) "p1" then row_major 100 32 (-64) d
  else if String.eqb (name hlo) "concat" then row_major 164 32 0 d
  else if String.eqb (name hlo) "tall" then row_major 70 64 0 d
  else if String.eqb (name hlo) "lhs" then row_major 64 64 0 d
  else if String.eqb (name hlo) "rhs" then row_major 64 64 0 d
  else if String.eqb (name hlo) "dot" then
    match s with
    | OUTPUT => row_major 64 64 0 d
    | _ => None
    end
  else None.

Definition ex_analysis : TritonFusionAnalysis :=
  mkAnalysis ex_IterSpec
    (fun s => match s with
              | LHS => [ex_lhs]
              | RHS => [ex_rhs]
              | _ => []
              end).

(** The table of the split example: the output is (split, m, n). *)
Definition ex_split_analysis : TritonFusionAnalysis :=
  mkAnalysis
    (fun s hlo d =>
       match s with
       | OUTPUT =>
           if d =? 1 then Some [mkFragment 64 64 0 64]
           else if d =? 2 then Some [mkFragment 1 64 0 64]
           else if d =? 0 then Some [mkFragment 4096 2 0 2]
           else None
       | _ => None
       end)
    (fun s => match s with
              | LHS => [ex_split_lhs]
              | RHS => [ex_unpadded_rhs]
              | _ => []
              end).

(** The dimensions that are neither batch nor contracting. *)
Definition ex_GetNonContractingDims (s : Shape) (batch contracting : list Z)
  : Result (list Z) :=
  Ok (filter (fun d => negb (existsb (Z.eqb d) batch
                             || existsb (Z.eqb d) contracting))
             (iota 0 (List.length (dimensions s)))).

Definition ex_ElementsIn (s : Shape) : Z := fold_right Z.mul 1 (dimensions s).

Definition ex_dims : MatMulDims :=
  mkDims None None None None None 1 0 0 1 0 1 64 64 64.

Definition ex_split_dims : MatMulDims :=
  mkDims (Some 0) None None None None 2 0 1 2 1 2 64 64 100.

Definition ex_launch_config : MatMulLaunchConfig :=
  mkLaunchConfig 2 2
    (mkLaunchDimensions (BlockDim 4 1 1) (BlockDim 32 1 1)) PidY PidX.

Definition ex_helper : MatMulEmitterHelper :=
  mkHelper i32 ex_analysis ex_dims ex_launch_config.

Definition ex_lhs_side : Side :=
  mkSide LHS
    [mkDimProperties 0 (GetProgramIdOp PidX) 32 1;
     mkDimProperties 1 NullValue 32 1]
    None.



(** A row reduction of 100 elements over a tile of width 128, with a
    constant neutral element and an addition as reducer. *)
Definition ex_row : HloInstruction :=
  mkHlo "row" kParameter (mkShape F32 [100] [0] false) [] 0 [] [].
Definition ex_zero : HloInstruction :=
  mkHlo "zero" kConstant (mkShape F32 [] [] false) [] 0 [] [].
Definition ex_reduce : HloInstruction :=
  mkHlo "reduce" kReduce (mkShape F32 [] [] false) [ex_row; ex_zero] 0 [0]
    [mkHlo "a" kParameter (mkShape F32 [] [] false) [] 0 [] [];
     mkHlo "b" kParameter (mkShape F32 [] [] false) [] 1 [] [];
     mkHlo "add" (kOtherOpcode "add") (mkShape F32 [] [] false) [] 0 [] []].

Definition ex_row_tile : Value := FuncArgument 0 (RankedTensorType [128] f32).

Definition ex_EmitScope (a : option TritonFusionAnalysis) (s : Scope)
    (dims : list DimProperties) (to_emit : list HloInstruction)
    (values : list (string * Value)) : Result Value :=
  Ok (AddFOp (BlockArgument 0 (ScalarType f32))
             (BlockArgument 1 (ScalarType f32))).

(** Tiles of 16 by 16 f32 values for the emulated dots. *)
Definition ex_tile (idx : Z) : Value :=
  BlockArgument idx (RankedTensorType [16; 16] f32).

(** The same reduction over a row of exactly 128 elements. *)
Definition ex_row_exact : HloInstruction :=
  mkHlo "row" kParameter (mkShape F32 [128] [0] false) [] 0 [] [].
Definition ex_reduce_exact : HloInstruction :=
  mkHlo "reduce" kReduce (mkShape F32 [] [] false) [ex_row_exact; ex_zero] 0
    [0] (to_apply ex_reduce).

(** ** Reference definitions for the further properties *)

(** A parameter whose spec along a dimension has more than one
    fragment. *)
Definition has_split_spec (analysis : TritonFusionAnalysis) (idx : Z)
    (q : HloInstruction) (s : DimIterationSpec) : Prop :=
  IterSpec analysis LHS q idx = Some s /\ (1 < List.length s)%nat.

(** Two specs of two fragments each with the same counts. *)
Definition same_split_counts (s t : DimIterationSpec) : Prop :=
  exists a b a' b',
    s = [a; b] /\ t = [a'; b']
    /\ count a = count a' /\ count b = count b'.

(** The extent of a grid along one of its axes. *)
Definition dim3_extent (d : Dim3) (axis : ProgramIDDim) : Z :=
  let '(BlockDim x y z) := d in
  match axis with PidX => x | PidY => y | PidZ => z end.

(** ** Storage types and the loads of the loop body *)

(** [StorageType]: predicates are stored as bytes. *)
Definition StorageType (t : ElementType) : ElementType :=
  if ElementType_eqb t i1 then i8 else t.

(** [HloDotInstruction::kOperands]. *)
Definition kLhsMetaOperandIdx : Z := 2.

(** The load of one loop-carried argument (lines 2059-2069). *)
Definition iter_arg_load (scope_idx : Z) (param_hlo : HloInstruction)
    (iter_arg : Value) (checks : list Z) : Result Value :=
  param_ty <- (if scope_idx =? kLhsMetaOperandIdx then Ok i16
               else TritonType (element_type (shape param_hlo))) ;;
  let param_storage_ty := StorageType param_ty in
  param_value <- EmitParameterLoad iter_arg checks ;;
  if negb (ElementType_eqb param_ty param_storage_ty)
  then Cast param_value param_ty
  else Ok param_value.

(** The advance of one loop-carried argument (lines 2072-2093): only the
    contracting dimension moves. *)
Fixpoint iter_arg_increments (analysis : TritonFusionAnalysis) (side : Side)
    (input : HloInstruction) (scope_idx : Z) (dims : MatMulDims) (split_k : Z)
    (tiled : list DimProperties) : Result (list Value) :=
  match tiled with
  | [] => Ok []
  | dim :: rest =>
      skip <- match IterSpec analysis (scope side) input (index dim) with
              | None => Ok true
              | Some spec => f0 <- at_ spec 0 ;; Ok (stride f0 =? 0)
              end ;;
      if (skip : bool) then
        iter_arg_increments analysis side input scope_idx dims split_k rest
      else
        let contracting :=
          if (scope_idx =? 0) || (scope_idx =? kLhsMetaOperandIdx)
          then lhs_contracting_dim_idx dims
          else rhs_contracting_dim_idx dims in
        let increment :=
          if index dim =? contracting
          then c32 (mul32 (block_size dim) split_k)
          else c32 0 in
        more <- iter_arg_increments analysis side input scope_idx dims split_k
                  rest ;;
        Ok (increment :: more)
  end.

Definition iter_arg_next (analysis : TritonFusionAnalysis) (side : Side)
    (input : HloInstruction) (scope_idx : Z) (dims : MatMulDims) (split_k : Z)
    (iter_arg : Value) : Result Value :=
  increments <- iter_arg_increments analysis side input scope_idx dims split_k
                  (tiled_dims side) ;;
  match increments with
  | [] => Ok iter_arg
  | _ => Ok (AdvanceOp (getType iter_arg) iter_arg increments)
  end.

(** ** Kernel arguments *)

(** [fn.getArgument(i)] on a function with the given argument types. *)
Definition getArgument (fn : list MlirType) (i : Z) : Result Value :=
  ty <- at_ fn i ;; Ok (FuncArgument i ty).

Fixpoint operand_arguments (fn : list MlirType) (ops : list HloInstruction)
  : Result (list Value) :=
  match ops with
  | [] => Ok []
  | op :: rest =>
      a <- getArgument fn (parameter_number op) ;;
      more <- operand_arguments fn rest ;;
      Ok (a :: more)
  end.

Definition GetArguments (fn : list MlirType) (input : HloInstruction)
  : Result (list Value) :=
  if HloOpcode_eqb (opcode input) kParameter then
    a <- getArgument fn (parameter_number input) ;; Ok [a]
  else if HloOpcode_eqb (opcode input) kConcatenate then
    operand_arguments fn (operands input)
  else Abort.

(** ** Precision of the dot *)

Inductive Algorithm :=
| ALG_UNSET
| ALG_DOT_BF16_BF16_F32_X3
| ALG_DOT_BF16_BF16_F32_X6
| OtherAlgorithm (id : Z).

Inductive Precision := DEFAULT | HIGH | HIGHEST | PACKED_NIBBLE.

Definition Precision_eqb (a b : Precision) : bool :=
  match a, b with
  | DEFAULT, DEFAULT | HIGH, HIGH | HIGHEST, HIGHEST
  | PACKED_NIBBLE, PACKED_NIBBLE => true
  | _, _ => false
  end.

Record PrecisionConfig := mkPrecisionConfig {
  algorithm : Algorithm;
  operand_precision : list Precision
}.

(** The two debug options the emitter reads. *)
Record DebugOptions := mkDebugOptions {
  xla_gpu_enable_bf16_3way_gemm : bool;
  xla_gpu_enable_bf16_6way_gemm : bool
}.

(** Collaborators: the process-wide TF32 switch and the tables of
    [algorithm_util]. *)
Variable tensor_float_32_execution_enabled : bool.
Variable HasTf32InputType : Algorithm -> bool.
Variable AlgorithmAccumulatorType : Algorithm -> Result PrimitiveType.

Definition IsTf32Allowed (pc : PrecisionConfig) : bool :=
  match algorithm pc with
  | ALG_UNSET =>
      tensor_float_32_execution_enabled
      && negb (existsb (fun precision => negb (Precision_eqb precision DEFAULT))
                       (operand_precision pc))
  | alg => HasTf32InputType alg
  end.

(** Whether both dot inputs are tensors of f32; the second is looked at
    only when the first is. *)
Definition both_f32 (dot_input_lhs dot_input_rhs : Value) : Result bool :=
  l <- shaped_type dot_input_lhs ;;
  if ElementType_eqb (snd l) f32 then
    r <- shaped_type dot_input_rhs ;; Ok (ElementType_eqb (snd r) f32)
  else Ok false.

Definition Is6xBfloat16MatMul (pc : PrecisionConfig) (options : DebugOptions)
    (dot_input_lhs dot_input_rhs : Value) : Result bool :=
  match algorithm pc with
  | ALG_UNSET =>
      if xla_gpu_enable_bf16_6way_gemm options
      then both_f32 dot_input_lhs dot_input_rhs
      else Ok false
  | ALG_DOT_BF16_BF16_F32_X6 => Ok true
  | _ => Ok false
  end.

Definition Is3xBfloat16MatMul (pc : PrecisionConfig) (options : DebugOptions)
    (dot_input_lhs dot_input_rhs : Value) : Result bool :=
  match algorithm pc with
  | ALG_UNSET =>
      if xla_gpu_enable_bf16_3way_gemm options
      then both_f32 dot_input_lhs dot_input_rhs
      else Ok false
  | ALG_DOT_BF16_BF16_F32_X3 => Ok true
  | _ => Ok false
  end.

(** The accumulator of the next iteration for a dense dot
    (lines 2147-2171). *)
Definition accumulator_next (pc : PrecisionConfig) (options : DebugOptions)
    (is_8_bit_or_less : bool) (dot_input_lhs dot_input_rhs acc : Value)
  : Result Value :=
  six <- Is6xBfloat16MatMul pc options dot_input_lhs dot_input_rhs ;;
  if (six : bool) then
    value (Emit6xBfloat16MatMul dot_input_lhs dot_input_rhs acc)
  else
    three <- Is3xBfloat16MatMul pc options dot_input_lhs dot_input_rhs ;;
    if (three : bool) then
      value (Emit3xBfloat16MatMul dot_input_lhs dot_input_rhs acc)
    else
      Ok (DotOp dot_input_lhs dot_input_rhs acc
                (IsTf32Allowed pc && negb is_8_bit_or_less) 0).

(** [MatMulEmitterHelper::GetDotAccumulatorType]. *)
Definition GetDotAccumulatorType (pc : PrecisionConfig)
    (dot : HloDotInstruction) : Result ElementType :=
  match algorithm pc with
  | ALG_UNSET =>
      dot_output_ty <- TritonType (element_type (shape (dot_hlo dot))) ;;
      lhs <- operand (dot_hlo dot) 0 ;;
      lhs_ty <- TritonType (element_type (shape lhs)) ;;
      rhs <- operand (dot_hlo dot) 1 ;;
      rhs_ty <- TritonType (element_type (shape rhs)) ;;
      CHECK (ElementType_eqb lhs_ty rhs_ty) ;;;
      Ok (if ElementType_eqb dot_output_ty f64 && ElementType_eqb lhs_ty f64
          then f64 else f32)
  | alg =>
      accum_type <- value (AlgorithmAccumulatorType alg) ;;
      mlir_accum_type <- TritonType accum_type ;;
      if isFloat mlir_accum_type then Ok mlir_accum_type else Abort
  end.

(** The initial accumulator (lines 2000-2003). *)
Definition accumulator_init (pc : PrecisionConfig) (dot : HloDotInstruction)
    (config : TritonGemmConfig) : Result Value :=
  acc_ty <- GetDotAccumulatorType pc dot ;;
  CreateConstTensor (ScalarType acc_ty) (CInt 0)
    [block_m config; block_n config].

(** The shape of the tile a pointer of the given pointee type loads:
    rank 0 for a pointer to a scalar. *)
Definition pointee_dims (pointee : MlirType) : list Z :=
  match pointee with
  | RankedTensorType dims _ => dims
  | _ => []
  end.

(** The dimension an iteration of the loop advances on the side with the
    given scope index. *)
Definition advancing_dim (scope_idx : Z) (dims : MatMulDims) : Z :=
  if (scope_idx =? 0) || (scope_idx =? kLhsMetaOperandIdx)
  then lhs_contracting_dim_idx dims
  else rhs_contracting_dim_idx dims.

(** ** Broadcasts of tiles *)

(** Values built on top of emitted values with the two ops that change
    the shape of a tile. *)
Inductive TileValue :=
| Plain (v : Value)
| ExpandDimsOp (src : TileValue) (axis : Z)
| BroadcastOp (ty : MlirType) (src : TileValue).

(** The shape with a dimension of size 1 inserted at [axis]. *)
Definition insert_axis (s : list Z) (axis : Z) : list Z :=
  firstn (Z.to_nat axis) s ++ 1 :: skipn (Z.to_nat axis) s.

Fixpoint tileType (t : TileValue) : MlirType :=
  match t with
  | Plain v => getType v
  | ExpandDimsOp src axis =>
      match tileType src with
      | RankedTensorType s e => RankedTensorType (insert_axis s axis) e
      | ty => ty
      end
  | BroadcastOp ty _ => ty
  end.

(** [Broadcast]: the value has to be a ranked tensor. *)
Definition Broadcast (value : TileValue) (dims : list Z) : Result TileValue :=
  match tileType value with
  | RankedTensorType _ e => Ok (BroadcastOp (RankedTensorType dims e) value)
  | _ => Abort
  end.

(** The state of the loop of [EmitTiledBroadcast]. *)
Record TiledBroadcastState := mkTiledBroadcastState {
  expanded_input : TileValue;
  input_dim_id : Z;
  expanded_input_dim_id : Z
}.

(** [is_broadcasted_dim]: the output dimension is not one of the
    broadcast's [dimensions()]. *)
Definition is_broadcasted_dim (dimensions : list Z) (dim_id : Z) : bool :=
  negb (existsb (Z.eqb dim_id) dimensions).

(** The loop over the output dimensions, from [output_dim_id] on. *)
Fixpoint tiled_broadcast_loop (dimensions input_tile_shape : list Z)
    (output_tiles : list Z) (output_dim_id : Z) (st : TiledBroadcastState)
  : Result TiledBroadcastState :=
  match output_tiles with
  | [] => Ok st
  | tile :: rest =>
      if is_broadcasted_dim dimensions output_dim_id then
        if tile =? 1 then
          tiled_broadcast_loop dimensions input_tile_shape rest
            (output_dim_id + 1) st
        else
          tiled_broadcast_loop dimensions input_tile_shape rest
            (output_dim_id + 1)
            (mkTiledBroadcastState
               (ExpandDimsOp (expanded_input st) (expanded_input_dim_id st))
               (input_dim_id st) (expanded_input_dim_id st + 1))
      else
        input_tile <- at_ input_tile_shape (input_dim_id st) ;;
        CHECK (input_tile =? tile) ;;;
        tiled_broadcast_loop dimensions input_tile_shape rest
          (output_dim_id + 1)
          (mkTiledBroadcastState (expanded_input st) (input_dim_id st + 1)
             (if negb (tile =? 1) then expanded_input_dim_id st + 1
              else expanded_input_dim_id st))
  end.

(** [llvm::PowerOf2Ceil]. *)
Variable PowerOf2Ceil : Z -> Z.

(** The shape of the value that holds a tile: dimensions of size 1 are
    left out, the others are rounded up to a power of two. *)
Definition padded_tile_shape (tile_shape : list Z) : list Z :=
  map PowerOf2Ceil (filter (fun tile_dim => negb (tile_dim =? 1)) tile_shape).

(** [EmitTiledBroadcast], given the tile sizes of the operand and of the
    broadcast, the broadcast's [dimensions()] and the value emitted for
    the operand. *)
Definition EmitTiledBroadcast (input_tile_shape output_tile_shape : list Z)
    (dimensions : list Z) (input : Value) : Result TileValue :=
  st <- tiled_broadcast_loop dimensions input_tile_shape output_tile_shape 0
          (mkTiledBroadcastState (Plain input) 0 0) ;;
  Broadcast (expanded_input st) (padded_tile_shape output_tile_shape).

(** Whether every dimension of a source shape is 1 or the matching
    dimension of the broadcast shape. *)
Definition broadcastable (src dst : list Z) : Prop :=
  Forall2 (fun s d => s = 1 \/ s = d) src dst.

(** The output dimensions, numbered from [dim_id], that the broadcast
    takes from its operand. *)
Fixpoint kept_dims (dimensions : list Z) (output_tiles : list Z) (dim_id : Z)
  : list Z :=
  match output_tiles with
  | [] => []
  | tile :: rest =>
      (if is_broadcasted_dim dimensions dim_id then [] else [tile])
        ++ kept_dims dimensions rest (dim_id + 1)
  end.

(** Whether the node's spec along a tiled dimension starts with a
    fragment of positive stride: [spec != nullptr && spec->at(0).stride > 0]. *)
Definition positive_stride (analysis : TritonFusionAnalysis) (scope_ : Scope)
    (hlo : HloInstruction) (dim : DimProperties) : Result bool :=
  match IterSpec analysis scope_ hlo (index dim) with
  | Some spec => f0 <- at_ spec 0 ;; Ok (stride f0 >? 0)
  | None => Ok false
  end.

(** The first loop of [EmitBroadcast]: the shape of the result. *)
Fixpoint broadcast_out_shape (analysis : TritonFusionAnalysis)
    (scope_ : Scope) (broadcast : HloInstruction)
    (tiled_dimensions : list DimProperties) : Result (list Z) :=
  match tiled_dimensions with
  | [] => Ok []
  | dim :: rest =>
      p <- positive_stride analysis scope_ broadcast dim ;;
      more <- broadcast_out_shape analysis scope_ broadcast rest ;;
      Ok (if (p : bool) then block_size dim :: more else more)
  end.

(** The second loop: one [ExpandDimsOp] per dimension the operand has no
    spec for. *)
Fixpoint broadcast_expand (analysis : TritonFusionAnalysis) (scope_ : Scope)
    (broadcast : HloInstruction) (tiled_dimensions : list DimProperties)
    (expanded : TileValue) (dim_idx : Z) : Result TileValue :=
  match tiled_dimensions with
  | [] => Ok expanded
  | dim :: rest =>
      p <- positive_stride analysis scope_ broadcast dim ;;
      if (p : bool) then
        operand0 <- operand broadcast 0 ;;
        let expanded' :=
          match IterSpec analysis scope_ operand0 (index dim) with
          | None => ExpandDimsOp expanded dim_idx
          | Some _ => expanded
          end in
        broadcast_expand analysis scope_ broadcast rest expanded'
          (add32 dim_idx 1)
      else
        broadcast_expand analysis scope_ broadcast rest expanded dim_idx
  end.

Definition EmitBroadcast (analysis : option TritonFusionAnalysis)
    (scope_ : Scope) (tiled_dimensions : list DimProperties)
    (broadcast : HloInstruction) (input : Value) : Result TileValue :=
  match analysis with
  | None => Err (InternalError "analysis != nullptr")
  | Some a =>
      out_shape <- broadcast_out_shape a scope_ broadcast tiled_dimensions ;;
      match getType input with
      | RankedTensorType s _ =>
          if Z.of_nat (List.length s) =? Z.of_nat (List.length out_shape)
          then Ok (Plain input)
          else
            expanded <- broadcast_expand a scope_ broadcast tiled_dimensions
                          (Plain input) 0 ;;
            Broadcast expanded out_shape
      | _ => v <- Splat input out_shape ;; Ok (Plain v)
      end
  end.

(** The tiled dimensions along which the broadcast has a first fragment
    of positive stride, and among them those the operand has a spec
    for. *)
Definition has_positive_stride (analysis : TritonFusionAnalysis)
    (scope_ : Scope) (hlo : HloInstruction) (dim : DimProperties) : bool :=
  match IterSpec analysis scope_ hlo (index dim) with
  | Some (f0 :: _) => stride f0 >? 0
  | _ => false
  end.

Definition broadcast_result_shape (analysis : TritonFusionAnalysis)
    (scope_ : Scope) (broadcast : HloInstruction)
    (tiled_dimensions : list DimProperties) : list Z :=
  map block_size
      (filter (has_positive_stride analysis scope_ broadcast)
              tiled_dimensions).

Definition broadcast_operand_shape (analysis : TritonFusionAnalysis)
    (scope_ : Scope) (broadcast operand0 : HloInstruction)
    (tiled_dimensions : list DimProperties) : list Z :=
  map block_size
      (filter (fun dim =>
                 has_positive_stride analysis scope_ broadcast dim
                 && has_value (IterSpec analysis scope_ operand0 (index dim)))
              tiled_dimensions).

(** ** The instructions of the epilogue *)

(** Instructions are compared as pointers; an instruction's name, unique
    in its module, stands for the pointer. *)
Definition same_instruction (a b : HloInstruction) : bool :=
  String.eqb (name a) (name b).

(** [set.contains(hlo)]. *)
Definition contains (set : list HloInstruction) (hlo : HloInstruction)
  : bool :=
  existsb (same_instruction hlo) set.

(** The operands of [current] the queue loop pushes (lines 1342-1348):
    those that are neither in [to_order] nor the dot. *)
Definition epilogue_pushed (dot_instr : HloInstruction)
    (to_order : list HloInstruction) (current : HloInstruction)
  : list HloInstruction :=
  filter (fun operand =>
            negb (contains to_order operand)
            && negb (same_instruction operand dot_instr))
         (operands current).

(** The number of instructions of the operand tree of an instruction. *)
Fixpoint hlo_size (h : HloInstruction) : nat :=
  match h with
  | mkHlo _ _ _ ops _ _ _ => S (list_sum (map hlo_size ops))
  end.

Definition queue_size (to_add : list HloInstruction) : nat :=
  list_sum (map hlo_size to_add).

(** The queue loop of [EpiloguePostOrderTransitiveOperands]
    (lines 1340-1351), for at most [fuel] iterations: [None] when they do
    not suffice. *)
Fixpoint epilogue_collect (fuel : nat) (dot_instr : HloInstruction)
    (to_add to_order : list HloInstruction)
  : option (Result (list HloInstruction)) :=
  match to_add with
  | [] => Some (Ok to_order)
  | current :: rest =>
      match fuel with
      | O => None
      | S fuel' =>
          let pushed := epilogue_pushed dot_instr to_order current in
          if contains to_order current then Some Abort
          else epilogue_collect fuel' dot_instr (rest ++ pushed)
                 (current :: to_order)
      end
  end.

(** [MatMulEmitterHelper::EpiloguePostOrderTransitiveOperands], given the
    post order of the computation of the dot. *)
Definition EpiloguePostOrderTransitiveOperands (fuel : nat)
    (dot_instr root : HloInstruction)
    (MakeInstructionPostOrder : list HloInstruction)
  : option (Result (list HloInstruction)) :=
  let to_add := if same_instruction root dot_instr then [] else [root] in
  match epilogue_collect fuel dot_instr to_add [] with
  | Some r =>
      Some (to_order <- r ;;
            Ok (filter (contains to_order) MakeInstructionPostOrder))
  | None => None
  end.

(** What the loop keeps: collected instructions have distinct names,
    nothing collected or queued is the dot, and an operand of a collected
    instruction, other than the dot, is collected or queued. *)
Definition epilogue_inv (dot_instr : HloInstruction)
    (to_add to_order : list HloInstruction) : Prop :=
  NoDup (map name to_order)
  /\ contains to_order dot_instr = false
  /\ contains to_add dot_instr = false
  /\ forall c operand,
       In c to_order -> In operand (operands c) ->
       same_instruction operand dot_instr = false ->
       contains to_order operand = true \/ contains to_add operand = true.

(** ** Launch dimensions for the runtime *)

(** [GetMatMulLaunchDimensions], given the dot the search through the
    fusion finds, if it finds one. *)
Definition GetMatMulLaunchDimensions (analysis : TritonFusionAnalysis)
    (dot : option HloDotInstruction) (config : TritonGemmConfig)
  : Result LaunchDimensions :=
  match dot with
  | None => Err (InternalError "dot != std::nullopt")
  | Some dot_instr =>
      dims <- MatMulDims_Create config dot_instr analysis ;;
      launch_config <- MatMulLaunchConfig_init config dot_instr dims ;;
      Ok (launch_dims launch_config)
  end.

(** ** The end of the compilation *)

(** [mlir::triton::nvidia_gpu::ClusterInfo]. *)
Record ClusterInfo := mkClusterInfo {
  clusterDimX : Z;
  clusterDimY : Z;
  clusterDimZ : Z
}.

Inductive ClusterDim := mkClusterDim (x y z : Z).

Record TritonWrapperResult := mkTritonWrapperResult {
  shmem_bytes : Z;
  cluster_dim : option ClusterDim
}.

(** The shared-memory check of [CompileTritonToLLVM] (lines 2760-2769):
    the attribute is narrowed to an [int]. *)
Definition shared_memory_check (is_cuda : bool) (triton_gpu_shared : Z)
    (shared_memory_per_block_optin : Z) : Result Z :=
  let shared_mem_bytes := int32 triton_gpu_shared in
  if is_cuda && (shared_mem_bytes >? shared_memory_per_block_optin) then
    Err (ResourceExhausted
           "Shared memory size limit exceeded: requested %d, available: %d"
           [shared_mem_bytes; shared_memory_per_block_optin])
  else Ok shared_mem_bytes.

(** The cluster dimensions of the result (lines 2794-2811). *)
Definition result_cluster_dim (config : TritonGemmConfig)
    (cluster_info : ClusterInfo) : Result (option ClusterDim) :=
  if num_ctas config >? 1 then
    if (clusterDimX cluster_info >? 1) || (clusterDimY cluster_info >? 1)
       || (clusterDimZ cluster_info >? 1)
    then Ok (Some (mkClusterDim (clusterDimX cluster_info)
                                (clusterDimY cluster_info)
                                (clusterDimZ cluster_info)))
    else Ok None
  else
    TF_RET_CHECK ((clusterDimX cluster_info =? 1)
                  && (clusterDimY cluster_info =? 1)
                  && (clusterDimZ cluster_info =? 1))
      "cluster_info.clusterDimX == 1 && cluster_info.clusterDimY == 1 && cluster_info.clusterDimZ == 1" ;;;
    Ok None.

(** [CompileTritonToLLVM] from the shared-memory check on; the
    translation to LLVM IR and the linking into the module are given by
    their outcome. *)
Definition CompileTritonToLLVM_result (is_cuda : bool)
    (triton_gpu_shared shared_memory_per_block_optin : Z)
    (translate_and_link : Result unit) (config : TritonGemmConfig)
    (cluster_info : ClusterInfo) : Result TritonWrapperResult :=
  shared_mem_bytes <- shared_memory_check is_cuda triton_gpu_shared
                        shared_memory_per_block_optin ;;
  translate_and_link ;;;
  cluster_dim <- result_cluster_dim config cluster_info ;;
  Ok (mkTritonWrapperResult shared_mem_bytes cluster_dim).

(** ** Further worked examples *)

(** A tile of bf16 values. *)
Definition ex_bf16_tile : Value :=
  BlockArgument 0 (RankedTensorType [16; 16] bf16).

(** Two LHS parameters whose dimension 0 is split into 8 by 4. *)
Definition ex_row_split_analysis : TritonFusionAnalysis :=
  mkAnalysis
    (fun s hlo d =>
       match s with
       | LHS => if d =? 0 then Some [mkFragment 1 8 0 8; mkFragment 8 4 0 4]
                else None
       | _ => None
       end)
    (fun s => match s with
              | LHS => [ex_lhs; ex_tall]
              | _ => []
              end).

(** Narrower blocks and twice the warps. *)
Definition ex_small_config : TritonGemmConfig := mkConfig 16 16 16 1 1 2 1.

(** A predicate parameter and the kernel argument that holds its
    bytes. *)
Definition ex_mask : HloInstruction :=
  mkHlo "mask" kParameter (mkShape PRED [32; 32] [1; 0] false) [] 0 [] [].

Definition ex_mask_arg : Value :=
  FuncArgument 0 (PointerType (RankedTensorType [32; 32] i8)).

(** A kernel with two pointers to f32. *)
Definition ex_fn : list MlirType :=
  [PointerType (ScalarType f32); PointerType (ScalarType f32)].

(** No algorithm set, default precision, and both emulation flags on. *)
Definition ex_precision : PrecisionConfig :=
  mkPrecisionConfig ALG_UNSET [DEFAULT; DEFAULT].

Definition ex_options : DebugOptions := mkDebugOptions true true.

(** A row of 8 values broadcast to tiles of 4 by 8 along dimension 0. *)
Definition ex_row8 : Value := FuncArgument 0 (RankedTensorType [8] f32).

Definition ex_PowerOf2Ceil (z : Z) : Z := 2 ^ Z.log2_up z.

(** A vector of 64 values broadcast to a 64 by 64 matrix along
    dimension 0, tiled in blocks of 32 by 64. *)
Definition ex_vec : HloInstruction :=
  mkHlo "vec" kParameter (mkShape F32 [64] [0] false) [] 0 [] [].

Definition ex_bcast : HloInstruction :=
  mkHlo "bcast" kBroadcast (f32_matrix 64 64) [ex_vec] 0 [1] [].

Definition ex_bcast_analysis : TritonFusionAnalysis :=
  mkAnalysis
    (fun s hlo d =>
       if String.eqb (name hlo) "bcast" then row_major 64 64 0 d
       else if String.eqb (name hlo) "vec" then
         if d =? 1 then Some [mkFragment 1 64 0 64] else None
       else None)
    (fun _ => []).

Definition ex_bcast_dims : list DimProperties :=
  [mkDimProperties 0 (GetProgramIdOp PidX) 32 1;
   mkDimProperties 1 (GetProgramIdOp PidY) 64 1].

Definition ex_vec_tile : Value := FuncArgument 0 (RankedTensorType [64] f32).

(** An epilogue that multiplies the result of the dot by a parameter, and
    one that squares a parameter next to the dot. *)
Definition ex_scale : HloInstruction :=
  mkHlo "scale" kParameter (f32_matrix 64 64) [] 2 [] [].

Definition ex_epilogue : HloInstruction :=
  mkHlo "mul" (kOtherOpcode "multiply") (f32_matrix 64 64)
        [ex_dot_hlo; ex_scale] 0 [] [].

Definition ex_square_epilogue : HloInstruction :=
  mkHlo "mul" (kOtherOpcode "multiply") (f32_matrix 64 64)
        [ex_scale; ex_scale] 0 [] [].

(** ** The inputs of a scope and the loop-carried pointers *)

(** [HloInstruction::users()]. *)
Variable users : HloInstruction -> list HloInstruction.

(** Whether some user of the parameter is a concatenation. *)
Definition has_concatenate_user (parameter : HloInstruction) : bool :=
  existsb (fun user => HloOpcode_eqb (opcode user) kConcatenate)
          (users parameter).

(** The CHECK on every operand of the concatenation. *)
Fixpoint check_operands_are_parameters (ops : list HloInstruction)
  : Result unit :=
  match ops with
  | [] => Ok tt
  | operand :: rest =>
      CHECK (HloOpcode_eqb (opcode operand) kParameter) ;;;
      check_operands_are_parameters rest
  end.

(** [set.insert(hlo)] on a set held as a list of distinct instructions.
    The list keeps the order of insertion; the order in which the
    source traverses the set is not modelled. *)
Definition set_insert (set : list HloInstruction) (hlo : HloInstruction)
  : list HloInstruction :=
  if contains set hlo then set else set ++ [hlo].

Fixpoint scope_inputs_loop (parameters result : list HloInstruction)
  : Result (list HloInstruction) :=
  match parameters with
  | [] => Ok result
  | parameter :: rest =>
      if has_concatenate_user parameter then
        CHECK (Z.of_nat (List.length (users parameter)) =? 1) ;;;
        user0 <- at_ (users parameter) 0 ;;
        check_operands_are_parameters (operands user0) ;;;
        scope_inputs_loop rest (set_insert result user0)
      else scope_inputs_loop rest (set_insert result parameter)
  end.

(** [ScopeInputs]: the standalone parameters of a scope and the
    concatenations of its other parameters. *)
Definition ScopeInputs (analysis : TritonFusionAnalysis) (scope_ : Scope)
  : Result (list HloInstruction) :=
  scope_inputs_loop (ScopeParameters analysis scope_) [].

(** A hash map with [int] keys, as a list of its entries. *)
Definition map_find {A} (key : Z) (m : list (Z * A)) : option A :=
  match find (fun kv => fst kv =? key) m with
  | Some kv => Some (snd kv)
  | None => None
  end.

(** [m[key] = v]. *)
Definition map_set {A} (key : Z) (v : A) (m : list (Z * A)) : list (Z * A) :=
  match map_find key m with
  | Some _ => map (fun kv => if fst kv =? key then (key, v) else kv) m
  | None => m ++ [(key, v)]
  end.

(** The loop-carried pointers and the two maps that tell, for the
    position of a pointer, its input and its boundary checks. *)
Record IterArgs := mkIterArgs {
  iter_args : list Value;
  iter_args_to_inputs : list (Z * HloInstruction);
  iter_args_to_boundary_checks : list (Z * list Z)
}.

(** The pointers of the inputs of one side (lines 2183-2191). *)
Fixpoint side_iter_args (h : MatMulEmitterHelper) (fn : list MlirType)
    (pid_k : Value) (side : Side) (inputs : list HloInstruction)
    (st : IterArgs) : Result IterArgs :=
  match inputs with
  | [] => Ok st
  | input :: rest =>
      let key := int32 (Z.of_nat (List.length (iter_args st))) in
      TF_RET_CHECK (negb (has_value (map_find key (iter_args_to_inputs st))))
        "iter_args_to_inputs.insert({iter_args.size(), input}).second" ;;;
      let to_inputs := iter_args_to_inputs st ++ [(key, input)] in
      bases <- GetArguments fn input ;;
      let boundary_checks :=
        match map_find key (iter_args_to_boundary_checks st) with
        | Some checks => checks
        | None => []
        end in
      r <- EmitTensorPointer h input side bases pid_k boundary_checks ;;
      side_iter_args h fn pid_k side rest
        (mkIterArgs (iter_args st ++ [fst r]) to_inputs
           (map_set key (snd r) (iter_args_to_boundary_checks st)))
  end.

(** The loop over the sides (lines 2182-2192). *)
Fixpoint scopes_iter_args (h : MatMulEmitterHelper) (fn : list MlirType)
    (pid_k : Value) (analysis : TritonFusionAnalysis) (scopes : list Side)
    (st : IterArgs) : Result IterArgs :=
  match scopes with
  | [] => Ok st
  | side :: rest =>
      inputs <- ScopeInputs analysis (scope side) ;;
      st' <- side_iter_args h fn pid_k side inputs st ;;
      scopes_iter_args h fn pid_k analysis rest st'
  end.

(** The side the loop body takes for the pointer at position [i]
    (line 2056): 0 for LHS, 1 for RHS, 2 for the sparsity metadata. *)
Definition iter_arg_scope_index (lsize rsize i : Z) : Z :=
  if i <? lsize then 0 else if i <? lsize + rsize then 1 else 2.

(** The pointer at a position was built for the input the map gives for
    the position, on the given side, and the other map holds its
    boundary checks. *)
Definition iter_arg_built (h : MatMulEmitterHelper) (fn : list MlirType)
    (pid_k : Value) (st : IterArgs) (i : nat) (side : Side)
    (input : HloInstruction) : Prop :=
  exists ptr bases checks,
    nth_error (iter_args st) i = Some ptr
    /\ map_find (Z.of_nat i) (iter_args_to_inputs st) = Some input
    /\ map_find (Z.of_nat i) (iter_args_to_boundary_checks st) = Some checks
    /\ GetArguments fn input = Ok bases
    /\ EmitTensorPointer h input side bases pid_k [] = Ok (ptr, checks).

(** What the loops keep: positions from the number of pointers on are
    free in both maps, and every pointer was built for its tag. *)
Definition iter_args_inv (h : MatMulEmitterHelper) (fn : list MlirType)
    (pid_k : Value) (st : IterArgs) (tags : list (Side * HloInstruction))
  : Prop :=
  List.length (iter_args st) = List.length tags
  /\ (forall k, (List.length tags <= k)%nat ->
        map_find (Z.of_nat k) (iter_args_to_inputs st) = None
        /\ map_find (Z.of_nat k) (iter_args_to_boundary_checks st) = None)
  /\ forall i side input,
       nth_error tags i = Some (side, input) ->
       iter_arg_built h fn pid_k st i side input.

(** A parameter read on its own and two parameters read through a
    concatenation. *)
Definition ex_users (hlo : HloInstruction) : list HloInstruction :=
  if String.eqb (name hlo) "p0" then [ex_concat]
  else if String.eqb (name hlo) "p1" then [ex_concat]
  else [].

Definition ex_inputs_analysis : TritonFusionAnalysis :=
  mkAnalysis ex_IterSpec
    (fun s => match s with
              | LHS => [ex_p0; ex_p1]
              | RHS => [ex_rhs]
              | _ => []
              end).

Definition ex_rhs_side : Side :=
  mkSide RHS
    [mkDimProperties 0 NullValue 32 1;
     mkDimProperties 1 (GetProgramIdOp PidX) 32 1]
    None.

Definition ex_inputs_helper : MatMulEmitterHelper :=
  mkHelper i32 ex_inputs_analysis ex_dims ex_launch_config.

(** ** Reference definitions for the pre-flight check and the index width *)

(** [EmitMatMul] from its second statement on (lines 1924-1998, then
    [body]): what the function does once the complexity check has
    passed. *)
Definition EmitMatMul_after_preflight (analysis : TritonFusionAnalysis)
    (dot : HloDotInstruction) (config : TritonGemmConfig)
    (body : Prologue -> Result unit) : Result unit :=
  let sparse := sparse_operands dot >? 0 in
  use64 <- use_64bit_indexing config dot ;;
  let ity := index_type use64 in
  let root := root_instruction dot in
  TF_RET_CHECK (negb (IsTuple (shape root))) "!root->shape().IsTuple()" ;;;
  narrow <- is_8_bit_or_less_dot_with_F32 dot ;;
  ValidateMatMulConfig config dot ;;;
  dims <- MatMulDims_Create config dot analysis ;;
  launch_config <- MatMulLaunchConfig_init config dot dims ;;
  let helper := mkHelper ity analysis dims launch_config in
  body (mkPrologue sparse ity narrow dims launch_config helper
                   (program_ids config launch_config)).

(** What the loop over the tiled dimensions keeps: 64-bit bounds and
    strides, 32-bit tensor offsets. *)
Definition extents_64bit (st : PointerParts) : Prop :=
  Forall (fun v => getType v = ScalarType i64) (bounds st)
  /\ Forall (fun v => getType v = ScalarType i64) (strides st)
  /\ Forall (fun v => getType v = ScalarType i32) (tensor_offsets st).

(** Blocks of 256 on one warp: a heuristic value of 196608. *)
Definition ex_big_config : TritonGemmConfig := mkConfig 256 256 256 1 1 1 1.

(** ** Reference definitions for the non-finite guard *)

(** The guard as an expression: a lane of [partial] where +infinity is
    greater than its absolute value, zero elsewhere. *)
Definition finite_or_zero (dims : list Z) (partial : Value) : Value :=
  SelectOp (CmpFOp OGT
              (ConstantOp (RankedTensorType dims f32)
                          (FloatAttr positive_infinity))
              (AbsFOp partial))
           partial (zeros_f32 dims).

(** The bf16 parts the emulations take of an f32 operand. *)
Definition high_part (x high : Value) : Prop :=
  exists t, TruncateToBF16TowardsZero x = Ok t /\ RoundToBF16 t = Ok high.

Definition low_part_3x (x low : Value) : Prop :=
  exists s, SoftMiddleEight x = Ok s /\ RoundToBF16 s = Ok low.

Definition middle_part (x middle : Value) : Prop :=
  exists s t,
    SoftMiddleEight x = Ok s /\ TruncateToBF16TowardsZero s = Ok t
    /\ RoundToBF16 t = Ok middle.

Definition low_part_6x (x low : Value) : Prop :=
  exists s t,
    SoftLowEight x = Ok s /\ TruncateToBF16TowardsZero s = Ok t
    /\ RoundToBF16 t = Ok low.

(** The value of the accumulator after the high-by-high dot on a given
    tile of guarded correction terms. *)
Definition accumulate_high (env : Env) (lhs_high rhs_high acc : Value)
    (guarded : Val) : option Val :=
  match eval env lhs_high, eval env rhs_high, eval env acc with
  | Some x, Some y, Some a =>
      match dot_value env x y guarded with
      | Some d => lift2 (float_binop SFadd f32) a d
      | None => None
      end
  | _, _, _ => None
  end.

(** Single-lane tiles for the emulated dots: +infinity on the left, 1 on
    the right and a zero accumulator, with a hardware dot that is
    acc + a * b in f32 on such tiles. *)
Definition ex_lane (idx : Z) : Value :=
  BlockArgument idx (RankedTensorType [1; 1] f32).

Definition ex_one : spec_float := S754_finite false 8388608 (-23).

Definition ex_lane_dot (a b c : Val) : option Val :=
  match a, b, c with
  | VTensor _ [SFloat x], VTensor _ [SFloat y], VTensor dims [SFloat z] =>
      Some (VTensor dims [SFloat (SFadd 24 128 z (SFmul 24 128 x y))])
  | _, _, _ => None
  end.

Definition ex_guard_env : Env :=
  mkEnv (fun _ => 0) (fun _ => None)
        (fun idx =>
           if idx =? 0 then Some (VTensor [1; 1] [SFloat positive_infinity])
           else if idx =? 1 then Some (VTensor [1; 1] [SFloat ex_one])
           else Some (VTensor [1; 1] [SFloat float_zero]))
        ex_lane_dot.

(** ** Examples for the masked reduction *)





(** The block pointer of the left operand of the plain example. *)
Definition ex_lhs_pointer : Value :=
  AdvanceOp (PointerType (RankedTensorType [32; 32] f32))
    (MakeTensorPtrOp (base_ptr 0)
       [ConstantOp (ScalarType i64) (IntegerAttr 64);
        ConstantOp (ScalarType i64) (IntegerAttr 64)]
       [ConstantOp (ScalarType i64) (IntegerAttr 64);
        ConstantOp (ScalarType i64) (IntegerAttr 1)]
       [ConstantOp (ScalarType i32) (IntegerAttr 0);
        ConstantOp (ScalarType i32) (IntegerAttr 0)]
       [32; 32] [1; 0])
    [MulIOp (GetProgramIdOp PidX)
            (ConstantOp (ScalarType i32) (IntegerAttr 32));
     ConstantOp (ScalarType i32) (IntegerAttr 0)].

(** * Properties *)

(** ** Arithmetic of fixed-width integers *)

Lemma pow2_double w : 0 < w -> 2 ^ w = 2 * 2 ^ (w - 1).
Proof.
  intros Hw. replace w with (Z.succ (w - 1)) at 1 by lia.
  apply Z.pow_succ_r. lia.
Qed.

Lemma wrap_fits w z : 0 < w -> CInt.fits w z -> CInt.wrap w z = z.
Proof.
  unfold CInt.wrap, CInt.fits. intros Hw Hz.
  pose proof (pow2_double w Hw). rewrite Z.mod_small; lia.
Qed.


Lemma int32_fits z : - 2 ^ 31 <= z < 2 ^ 31 -> int32 z = z.
Proof. intros H. apply wrap_fits; [lia | exact H]. Qed.

Lemma int64_fits z : - 2 ^ 63 <= z < 2 ^ 63 -> int64 z = z.
Proof. intros H. apply wrap_fits; [lia | exact H]. Qed.

(** The rounding-up quotient of the launch planner is the ceiling. *)
Lemma quot_ceil a b : 1 <= a -> 1 <= b -> Z.quot (a + b - 1) b = ceil_div a b.
Proof.
  intros Ha Hb. unfold ceil_div.
  rewrite Z.quot_div_nonneg by lia.
  pose proof (Z.div_mod (a + b - 1) b ltac:(lia)).
  pose proof (Z.mod_pos_bound (a + b - 1) b ltac:(lia)).
  pose proof (Z.div_mod (- a) b ltac:(lia)).
  pose proof (Z.mod_pos_bound (- a) b ltac:(lia)).
  nia.
Qed.

Lemma ceil_div_bounds a b : 1 <= a -> 1 <= b -> 1 <= ceil_div a b <= a.
Proof.
  intros Ha Hb. unfold ceil_div.
  pose proof (Z.div_mod (- a) b ltac:(lia)).
  pose proof (Z.mod_pos_bound (- a) b ltac:(lia)).
  nia.
Qed.

Lemma ceil_div_spec a b :
  1 <= b -> b * (ceil_div a b - 1) < a <= b * ceil_div a b.
Proof.
  intros Hb. unfold ceil_div.
  pose proof (Z.div_mod (- a) b ltac:(lia)).
  pose proof (Z.mod_pos_bound (- a) b ltac:(lia)).
  nia.
Qed.

(** ** Launch planner *)

Lemma at_nth_error {A} (l : list A) i a :
  0 <= i -> nth_error l (Z.to_nat i) = Some a -> at_ l i = Ok a.
Proof.
  intros Hi Hnth. unfold at_.
  destruct (Z.ltb_spec i 0); [lia |]. now rewrite Hnth.
Qed.

Lemma at_Ok_inv {A} (l : list A) i a :
  at_ l i = Ok a -> 0 <= i /\ nth_error l (Z.to_nat i) = Some a.
Proof.
  unfold at_. destruct (Z.ltb_spec i 0); [discriminate |].
  destruct (nth_error l (Z.to_nat i)) eqn:E; [| discriminate].
  intros Hok; inversion Hok; subst. split; [lia | reflexivity].
Qed.

Lemma grid_extent a b :
  1 <= a -> 1 <= b -> a + b < 2 ^ 63 ->
  cdiv 64 (sub64 (add64 a b) 1) b = Ok (ceil_div a b).
Proof.
  intros Ha Hb Hs. unfold cdiv, sub64, add64.
  destruct (Z.eqb_spec b 0); [lia |].
  rewrite (int64_fits (a + b)) by lia.
  rewrite (int64_fits (a + b - 1)) by lia.
  rewrite quot_ceil by lia.
  pose proof (ceil_div_bounds a b Ha Hb).
  fold int64. rewrite int64_fits by lia. reflexivity.
Qed.

(** The launch planner computes [planned_launch], or dies when the grid
    is too large. *)
Lemma launch_config_value config dot dims bs :
  batch_size_of dot dims = Some bs ->
  launch_inputs_ok config dims bs ->
  MatMulLaunchConfig_init config dot dims =
  if 65536 * 65536
     <=? bs * ceil_div (m dims) (block_m config)
            * ceil_div (n dims) (block_n config)
  then Abort
  else Ok (planned_launch config dims bs).
Proof.
  intros Hbs (Hm & Hn & Hbm & Hbn & Hsm & Hsn & Hb0 & Hg & Hp & Hw & Hex).
  unfold MatMulLaunchConfig_init.
  rewrite (grid_extent _ _ Hm Hbm Hsm), (grid_extent _ _ Hn Hbn Hsn).
  cbn [bind].
  set (gm := ceil_div (m dims) (block_m config)) in *.
  set (gn := ceil_div (n dims) (block_n config)) in *.
  assert (Hgm : 1 <= gm) by (apply ceil_div_bounds; lia).
  assert (Hgn : 1 <= gn) by (apply ceil_div_bounds; lia).
  assert (Hdflt :
    exists d,
      match out_batch_dim_idx dims with
      | Some i => dimension (shape (dot_hlo dot)) i
      | None => Ok 1
      end = Ok d
      /\ value_or (lhs_noncontracting_split dims) d = bs).
  { unfold batch_size_of in Hbs.
    destruct (lhs_noncontracting_split dims) as [s |] eqn:Es.
    - inversion Hbs; subst s.
      destruct (out_batch_dim_idx dims) as [i |] eqn:Eo.
      + exfalso. apply Hex. split; reflexivity.
      + exists 1. split; reflexivity.
    - destruct (out_batch_dim_idx dims) as [i |] eqn:Eo.
      + destruct (Z.ltb_spec i 0); [discriminate |].
        exists bs. split; [| reflexivity].
        unfold dimension. apply at_nth_error; [lia | exact Hbs].
      + inversion Hbs; subst. exists 1. split; reflexivity. }
  destruct Hdflt as (d & -> & Hd). cbn [bind]. rewrite Hd.
  assert (Hbg : 0 <= bs * gm <= bs * gm * gn) by nia.
  unfold mul64 at 1 2 3. unfold kBlockCountYZLimit.
  rewrite (int64_fits (bs * gm)) by lia.
  rewrite (int64_fits (bs * gm * gn)) by lia.
  rewrite (int64_fits (65536 * 65536)) by lia.
  unfold CHECK.
  destruct (Z.leb_spec (65536 * 65536) (bs * gm * gn)) as [Hge | Hlt].
  - destruct (Z.ltb_spec (bs * gm * gn) (65536 * 65536)); [lia |].
    reflexivity.
  - destruct (Z.ltb_spec (bs * gm * gn) (65536 * 65536)); [| lia].
    cbn [bind]. unfold planned_launch. fold gm gn.
    unfold mul64. rewrite (int64_fits (gm * gn)) by nia.
    rewrite (int64_fits (num_warps config * WarpSize)) by exact Hw.
    rewrite Z.geb_leb.
    destruct (Z.leb_spec 65536 bs); reflexivity.
Qed.

(** C1.  For a [MatMulDims] value with m, n >= 1, positive block sizes and
    quantities that 64-bit arithmetic holds, with batch_size the split
    multiplier if present, else the output batch extent, else 1: the
    constructor of [MatMulLaunchConfig] dies whenever
    batch_size * grid_m * grid_n >= 65536^2, and otherwise yields
    grid_m = ceil(m / block_m) and grid_n = ceil(n / block_n), with the
    batch on axis X and grid_m * grid_n on axis Y when
    batch_size >= 65536, the two exchanged otherwise, and the split
    factor on axis Z in both cases. *)
Theorem launch_config_plan config dot dims bs :
  batch_size_of dot dims = Some bs ->
  launch_inputs_ok config dims bs ->
  let gm := ceil_div (m dims) (block_m config) in
  let gn := ceil_div (n dims) (block_n config) in
  block_m config * (gm - 1) < m dims <= block_m config * gm
  /\ block_n config * (gn - 1) < n dims <= block_n config * gn
  /\ (65536 * 65536 <= bs * gm * gn ->
      MatMulLaunchConfig_init config dot dims = Abort)
  /\ (bs * gm * gn < 65536 * 65536 ->
      exists lc,
        MatMulLaunchConfig_init config dot dims = Ok lc
        /\ grid_m lc = gm /\ grid_n lc = gn
        /\ (65536 <= bs ->
            batch_program_id_dim lc = PidX
            /\ noncontracting_program_id_dim lc = PidY
            /\ block_counts (launch_dims lc)
               = BlockDim bs (gm * gn) (split_k config))
        /\ (bs < 65536 ->
            batch_program_id_dim lc = PidY
            /\ noncontracting_program_id_dim lc = PidX
            /\ block_counts (launch_dims lc)
               = BlockDim (gm * gn) bs (split_k config))).
Proof.
  intros Hbs Hok gm gn.
  pose proof (launch_config_value config dot dims bs Hbs Hok) as Hv.
  fold gm gn in Hv.
  destruct Hok as (Hm & Hn & Hbm & Hbn & _).
  split; [apply ceil_div_spec; assumption |].
  split; [apply ceil_div_spec; assumption |].
  split.
  - intros Hge. rewrite Hv.
    destruct (Z.leb_spec (65536 * 65536) (bs * gm * gn)); [reflexivity | lia].
  - intros Hlt. rewrite Hv.
    destruct (Z.leb_spec (65536 * 65536) (bs * gm * gn)); [lia |].
    eexists. split; [reflexivity |].
    unfold planned_launch. fold gm gn.
    destruct (Z.leb_spec 65536 bs); cbn;
      repeat split; try reflexivity; intros; lia.
Qed.

(** ** Pre-flight checks of EmitMatMul *)

Lemma complexity_heuristic_value_spec config :
  tiling_in_range config ->
  complexity_heuristic_value config = Ok (heuristic_value config).
Proof.
  intros (Hm & Hn & Hk & Hw & Hsum).
  unfold complexity_heuristic_value, heuristic_value, cdiv, INT_MAX in *.
  destruct (Z.eqb_spec (num_warps config) 0); [lia |].
  set (bm := block_m config) in *. set (bn := block_n config) in *.
  set (bk := block_k config) in *. set (nw := num_warps config) in *.
  assert (0 < bm * bn) by nia.
  assert (0 < (bm + bn) * bk) by nia.
  assert (bm + bn <= (bm + bn) * bk) by nia.
  unfold add32, mul32.
  rewrite (int32_fits (bm * bn)) by lia.
  rewrite (int32_fits (bm + bn)) by lia.
  rewrite (int32_fits ((bm + bn) * bk)) by lia.
  rewrite (int32_fits (bm * bn + (bm + bn) * bk)) by lia.
  rewrite Z.quot_div_nonneg by lia.
  assert (0 <= (bm * bn + (bm + bn) * bk) / nw <= bm * bn + (bm + bn) * bk).
  { split; [apply Z.div_pos; lia |].
    apply Z.div_le_upper_bound; [lia | nia]. }
  fold int32. rewrite int32_fits by lia. reflexivity.
Qed.


(** ** Index width *)

Lemma use_64bit_indexing_spec config dot lhs rhs :
  operand (dot_hlo dot) 0 = Ok lhs ->
  operand (dot_hlo dot) 1 = Ok rhs ->
  fits64 (ElementsIn (shape (dot_hlo dot)) * split_k config) ->
  use_64bit_indexing config dot =
  Ok (needs_64bitb config (shape lhs) (shape rhs) (shape (dot_hlo dot))).
Proof.
  intros Hl Hr Hf. unfold use_64bit_indexing, needs_64bitb.
  rewrite Hl, Hr. cbn [bind]. unfold mul64. rewrite int64_fits by exact Hf.
  destruct (ElementsIn (shape lhs) >? INT_MAX); [reflexivity |].
  destruct (ElementsIn (shape rhs) >? INT_MAX); reflexivity.
Qed.

Lemma needs_64bitb_iff config lhs rhs out :
  needs_64bitb config lhs rhs out = true <-> needs_64bit config lhs rhs out.
Proof.
  unfold needs_64bitb, needs_64bit.
  rewrite !orb_true_iff, !Z.gtb_ltb, !Z.ltb_lt. lia.
Qed.


(** ** Dimension analysis *)

Lemma bind_Ok_inv {A B} (r : Result A) (f : A -> Result B) b :
  bind r f = Ok b -> exists a, r = Ok a /\ f a = Ok b.
Proof. destruct r; cbn; intros H; try discriminate. eauto. Qed.

Ltac bind_inv H :=
  let a := fresh "a" in
  let E := fresh "E" in
  apply bind_Ok_inv in H; destruct H as (a & E & H).

Lemma HloOpcode_eqb_eq a b : HloOpcode_eqb a b = true <-> a = b.
Proof.
  split.
  - destruct a, b; cbn; intros H; try discriminate; try reflexivity.
    apply String.eqb_eq in H. now subst.
  - intros ->. destruct b; cbn; try reflexivity. apply String.eqb_refl.
Qed.

Lemma TF_RET_CHECK_Ok_inv c what u : TF_RET_CHECK c what = Ok u -> c = true.
Proof. unfold TF_RET_CHECK. destruct c; [reflexivity | discriminate]. Qed.

Ltac create_step H :=
  match type of H with
  | bind _ _ = Ok _ => bind_inv H
  | (let '(_, _) := ?p in _) = Ok _ => destruct p
  | match ?o with Some _ => _ | None => _ end = Ok _ =>
      destruct o; [| discriminate]
  end.

Lemma Create_k_of_Create config dot analysis md :
  MatMulDims_Create config dot analysis = Ok md ->
  Create_k config dot = Ok (k md).
Proof.
  unfold MatMulDims_Create. intros H.
  repeat create_step H.
  inversion H; subst md. cbn [k]. assumption.
Qed.

(** C2.  When [MatMulDims::Create] succeeds, with [c] the RHS contracting
    index (a non-negative 64-bit number): if split_k > 1 and the producer
    of the RHS operand is a pad, k is the extent just before index [c] in
    the shape the pad was applied to; otherwise k is the RHS operand's
    extent along [c] times split_k (reduced to 64 bits, hence the product
    itself whenever that fits). *)
Theorem Create_contracting_extent config dot analysis md c :
  MatMulDims_Create config dot analysis = Ok md ->
  at_ (rhs_contracting_dimensions (dot_dimension_numbers dot)) 0 = Ok c ->
  0 <= c < 2 ^ 63 ->
  (pad_pattern config dot -> prepad_extent dot c = Ok (k md))
  /\ (~ pad_pattern config dot ->
      exists e, rhs_contracting_extent dot c = Ok e
                /\ k md = int64 (e * split_k config)
                /\ (fits64 (e * split_k config) -> k md = e * split_k config)).
Proof.
  intros Hc Hat Hr. apply Create_k_of_Create in Hc.
  unfold Create_k in Hc.
  apply bind_Ok_inv in Hc. destruct Hc as (is_pad & Hpadb & Hk).
  assert (Hsub : 1 <= c -> sub64 c 1 = c - 1).
  { intros ?. unfold sub64. apply int64_fits. lia. }
  split.
  - intros (Hs & rhs & producer & Hrhs & Hprod & Hpad).
    unfold prepad_extent. rewrite Hrhs. cbn [bind]. rewrite Hprod. cbn [bind].
    destruct (Z.gtb_spec (split_k config) 1) as [_ | ?]; [| lia].
    rewrite Hrhs in Hpadb. cbn [bind] in Hpadb.
    rewrite Hprod in Hpadb. cbn [bind] in Hpadb.
    rewrite (proj2 (HloOpcode_eqb_eq _ _) Hpad) in Hpadb.
    inversion Hpadb; subst is_pad.
    rewrite Hrhs in Hk. cbn [bind] in Hk.
    apply bind_Ok_inv in Hk. destruct Hk as (u & _ & Hk).
    rewrite Hprod in Hk. cbn [bind] in Hk.
    apply bind_Ok_inv in Hk. destruct Hk as (unpadded & Hun & Hk).
    rewrite Hun. cbn [bind].
    rewrite Hat in Hk. cbn [bind] in Hk.
    assert (1 <= c).
    { destruct (Z.eq_dec c 0) as [-> |]; [| lia].
      exfalso. unfold dimension, at_, sub64 in Hk.
      rewrite int64_fits in Hk by lia. cbn in Hk. discriminate. }
    rewrite Hsub in Hk by lia. exact Hk.
  - intros Hnp.
    assert (is_pad = false) as ->.
    { destruct is_pad; [| reflexivity]. exfalso. apply Hnp.
      destruct (Z.gtb_spec (split_k config) 1) as [Hs | ?];
        [| discriminate].
      apply bind_Ok_inv in Hpadb. destruct Hpadb as (rhs & Hrhs & Hpadb).
      apply bind_Ok_inv in Hpadb. destruct Hpadb as (producer & Hprod & Hpadb).
      inversion Hpadb as [Hop].
      split; [lia |]. exists rhs, producer. repeat split; try assumption.
      now apply HloOpcode_eqb_eq. }
    apply bind_Ok_inv in Hk. destruct Hk as (rhs & Hrhs & Hk).
    rewrite Hat in Hk. cbn [bind] in Hk.
    apply bind_Ok_inv in Hk. destruct Hk as (e & He & Hk).
    inversion Hk as [Hkmd].
    exists e. unfold rhs_contracting_extent. rewrite Hrhs. cbn [bind].
    split; [assumption |]. split; [reflexivity |].
    intros Hf. unfold mul64. apply int64_fits. exact Hf.
Qed.

(** ** Program-id remap *)

Section ScalarEval.

Variable env : Env.









End ScalarEval.






(** ** Cascading selection *)

Section Cascade.

Variable env : Env.
Variable index : Value.
Variable i : Z.
Hypothesis index_value : eval env index = i32_val i.

Lemma eval_multi_select_loop limits ls rest vs result r :
  Forall2 (fun v z => eval env v = i32_val z) limits ls ->
  Forall2 (fun v x => eval env v = Some x) rest vs ->
  eval env result = Some r ->
  eval env (multi_select_loop index limits rest result)
  = Some (cascade i ls vs r).
Proof.
  intros Hl. revert rest vs result r.
  induction Hl as [| l z limits ls Hlz Hl IH]; intros rest vs result r Hr Hres.
  - destruct rest; cbn; assumption.
  - destruct Hr as [| c x rest vs Hcx Hr]; [cbn; assumption |].
    cbn [multi_select_loop cascade]. apply IH; [assumption |].
    cbn [eval]. rewrite index_value, Hlz, Hres, Hcx. cbn.
    destruct (i <? z); reflexivity.
Qed.

End Cascade.

Lemma cascade_above {A} i ls (vs : list A) r :
  Forall (fun l => i < l) ls -> cascade i ls vs r = r.
Proof.
  intros H. revert vs r. induction H as [| l ls Hl H IH]; intros vs r.
  - reflexivity.
  - destruct vs as [| c cs]; [reflexivity |]. cbn [cascade].
    destruct (Z.ltb_spec i l); [apply IH | lia].
Qed.

Lemma first_below_le i ls : (first_below i ls <= List.length ls)%nat.
Proof.
  induction ls as [| l ls IH]; cbn; [lia |].
  destruct (i <? l); lia.
Qed.

(** On non-decreasing limits the chain of selects picks the choice of the
    first limit that exceeds the index, and the last choice when none
    does. *)
Lemma cascade_sorted {A} i ls (vs : list A) r d :
  StronglySorted Z.le ls -> List.length vs = List.length ls ->
  cascade i ls vs r = nth (first_below i ls) (r :: vs) d.
Proof.
  intros Hs. revert vs r. induction Hs as [| l ls Hs IH Hall]; intros vs r Hlen.
  - reflexivity.
  - destruct vs as [| c cs]; [discriminate |].
    cbn [cascade first_below].
    destruct (Z.ltb_spec i l) as [Hlt | Hge].
    + cbn [nth]. apply cascade_above.
      eapply Forall_impl; [| exact Hall]. cbn. intros; lia.
    + cbn [nth]. apply IH. cbn in Hlen. lia.
Qed.

Lemma size_minus_one_S len :
  Z.of_nat len < 2 ^ 64 -> size_minus_one (S len) = Z.of_nat len.
Proof.
  intros H. unfold size_minus_one.
  replace (Z.of_nat (S len) - 1) with (Z.of_nat len) by lia.
  apply Z.mod_small. lia.
Qed.

Lemma EmitMultiSelect_loop index limits c0 cs :
  List.length cs = List.length limits ->
  Z.of_nat (List.length limits) < 2 ^ 64 ->
  EmitMultiSelect index limits (c0 :: cs)
  = Ok (multi_select_loop index limits cs c0).
Proof.
  intros Hlen Hsmall. unfold EmitMultiSelect.
  cbn [List.length]. rewrite Hlen, size_minus_one_S by assumption.
  rewrite Z.eqb_refl. reflexivity.
Qed.

(** X28.  With |choices| = |limits| + 1 and limits in
    non-decreasing order, as cumulative boundaries are, the value
    [EmitMultiSelect] emits evaluates, for every index value, to
    choices[j] for the smallest j such that index < limits[j], and to the
    last choice when no limit exceeds the index. *)
Theorem multi_select_first_limit env index i limits ls choices vs :
  eval env index = i32_val i ->
  Forall2 (fun v z => eval env v = i32_val z) limits ls ->
  Forall2 (fun v x => eval env v = Some x) choices vs ->
  List.length choices = S (List.length limits) ->
  Z.of_nat (List.length limits) < 2 ^ 64 ->
  StronglySorted Z.le ls ->
  exists v, EmitMultiSelect index limits choices = Ok v
            /\ eval env v = nth_error vs (first_below i ls)
            /\ (Forall (fun l => l <= i) ls -> eval env v = nth_error vs
                                                 (List.length ls)).
Proof.
  intros Hi Hl Hc Hlen Hsmall Hs.
  destruct Hc as [| c0 x0 cs xs Hc0 Hcs]; [discriminate |].
  cbn in Hlen. injection Hlen as Hlen.
  exists (multi_select_loop index limits cs c0).
  split; [apply EmitMultiSelect_loop; assumption |].
  rewrite (eval_multi_select_loop env index i Hi limits ls cs xs c0 x0)
    by assumption.
  pose proof (Forall2_length Hl) as Hll.
  pose proof (Forall2_length Hcs) as Hcl.
  rewrite (cascade_sorted i ls xs x0 x0) by (assumption || lia).
  assert (Hnth : forall k, (k <= List.length ls)%nat ->
                   Some (nth k (x0 :: xs) x0) = nth_error (x0 :: xs) k).
  { intros k Hk. symmetry. apply nth_error_nth'. cbn. lia. }
  split.
  - apply Hnth, first_below_le.
  - intros Hall. rewrite <- (Hnth (List.length ls)) by lia.
    do 2 f_equal. clear - Hall.
    induction Hall as [| l ls' Hl Hall IH]; [reflexivity |].
    cbn. destruct (Z.ltb_spec i l); [lia | now rewrite IH].
Qed.

(** ** Concatenation: operands that the block size does not divide *)

Lemma crem_divide a b :
  b <> 0 -> crem a b = Ok (Z.rem a b) /\ (Z.rem a b = 0 <-> (b | a)).
Proof.
  intros Hb. unfold crem. destruct (Z.eqb_spec b 0); [contradiction |].
  split; [reflexivity | apply Z.rem_divide; assumption].
Qed.

Lemma concat_boundaries_loop_cons h side idx properties op op' rest acc :
  concat_boundaries_loop h side idx properties (op :: op' :: rest) acc =
  (spec <- deref (IterSpec (analysis_ h) (scope side) op idx) ;;
   fragment <- at_ spec 0 ;;
   r <- crem (sliced_count fragment) (block_size properties) ;;
   if negb (r =? 0)
   then Err (UncompilableMatmul "Operand is not divisible by the block size.")
   else concat_boundaries_loop h side idx properties (op' :: rest)
          (acc ++ [Cst32 (add64 (int64 (- slice_start fragment))
                                (sliced_count fragment))])).
Proof. reflexivity. Qed.

Lemma concat_boundaries_loop_not_divisible h side idx properties ops acc :
  block_size properties <> 0 ->
  Forall (fun op => concat_fragment h side idx op <> None) (removelast ops) ->
  Exists (fun op => exists f, concat_fragment h side idx op = Some f
                              /\ ~ (block_size properties | sliced_count f))
         (removelast ops) ->
  concat_boundaries_loop h side idx properties ops acc
  = Err (UncompilableMatmul
           "Operand is not divisible by the block size.").
Proof.
  intros Hb. revert acc.
  induction ops as [| op rest IH]; intros acc Hall Hex.
  - inversion Hex.
  - destruct rest as [| op' rest'].
    + inversion Hex.
    + change (removelast (op :: op' :: rest'))
        with (op :: removelast (op' :: rest')) in Hall, Hex.
      inversion Hall as [| ? ? Hop Hall']; subst.
      rewrite concat_boundaries_loop_cons.
      unfold concat_fragment in Hop.
      destruct (IterSpec (analysis_ h) (scope side) op idx) as [[| f fs] |] eqn:Es;
        try contradiction.
      cbn [deref bind]. change (at_ (f :: fs) 0) with (Ok f). cbn [bind].
      destruct (crem_divide (sliced_count f) (block_size properties) Hb)
        as (-> & Hdiv).
      cbn [bind].
      destruct (Z.eqb_spec (Z.rem (sliced_count f) (block_size properties)) 0)
        as [Hz | Hnz]; cbn [negb].
      * apply IH; [assumption |].
        inversion Hex as [? ? (f' & Hf' & Hnd) | ? ? Hex']; subst;
          [| assumption].
        exfalso. unfold concat_fragment in Hf'. rewrite Es in Hf'.
        inversion Hf'; subst f'. apply Hnd, Hdiv, Hz.
      * reflexivity.
Qed.

(** C6 (amended).  For a concatenation node whose concatenated dimension
    is among the side's tiled dimensions, with one base pointer per
    operand, a non-zero block size and a spec along the concatenated
    dimension for every operand but the last: if the sliced count of some
    operand other than the last is not divisible by the block size,
    [EmitTensorPointer] returns the uncompilable-fusion failure, a
    cancelled status that carries the kUncompilableFusion payload. *)
Theorem concat_operand_not_divisible h hlo side bases pk checks properties :
  opcode hlo = kConcatenate ->
  find_dim (tiled_dims side) (concat_dim_of h side) = Ok properties ->
  Z.of_nat (List.length bases) = operand_count hlo ->
  block_size properties <> 0 ->
  Forall (fun op => concat_fragment h side (concat_dim_of h side) op <> None)
         (removelast (operands hlo)) ->
  Exists (fun op => exists f,
            concat_fragment h side (concat_dim_of h side) op = Some f
            /\ ~ (block_size properties | sliced_count f))
         (removelast (operands hlo)) ->
  EmitTensorPointer h hlo side bases pk checks
  = Err (UncompilableMatmul
           "Operand is not divisible by the block size.")
  /\ is_uncompilable
       (UncompilableMatmul
          "Operand is not divisible by the block size.").
Proof.
  intros Hop Hfind Hlen Hb Hall Hex. split.
  - unfold EmitTensorPointer, emit_base.
    rewrite Hop. cbn [HloOpcode_eqb].
    fold (concat_dim_of h side). rewrite Hfind. cbn [bind].
    rewrite Hlen, Z.eqb_refl. cbn [TF_RET_CHECK bind].
    rewrite (concat_boundaries_loop_not_divisible h side _ properties
               (operands hlo) [] Hb Hall Hex).
    reflexivity.
  - split; [reflexivity |]. eexists. cbn. left. reflexivity.
Qed.

(** ** Boundary checks *)

Lemma axis_extent_code h side d f0 fs :
  0 <= count f0 < 2 ^ 63 ->
  (forall s, lhs_noncontracting_split (dims_ h) = Some s -> 1 <= s) ->
  (if Scope_eqb (scope side) OUTPUT
      && (index d =? out_lhs_noncontracting_dim_idx (dims_ h))
      && (Z.of_nat (List.length (f0 :: fs)) =? 1)
      && has_value (lhs_noncontracting_split (dims_ h))
   then cdiv 64 (count f0) (value_or (lhs_noncontracting_split (dims_ h)) 0)
   else Ok (count f0))
  = Ok (axis_extent h side d (f0 :: fs))
  /\ 0 <= axis_extent h side d (f0 :: fs) < 2 ^ 63.
Proof.
  intros Hc Hs. unfold axis_extent. cbn [first_fragment].
  destruct (lhs_noncontracting_split (dims_ h)) as [s |] eqn:Es;
    cbn [has_value value_or].
  - specialize (Hs s eq_refl).
    rewrite andb_true_r.
    destruct (Scope_eqb (scope side) OUTPUT
              && (index d =? out_lhs_noncontracting_dim_idx (dims_ h))
              && (Z.of_nat (List.length (f0 :: fs)) =? 1)).
    + unfold cdiv. destruct (Z.eqb_spec s 0); [lia |].
      rewrite Z.quot_div_nonneg by lia.
      assert (0 <= count f0 / s <= count f0).
      { split; [apply Z.div_pos; lia |].
        apply Z.div_le_upper_bound; [lia | nia]. }
      fold int64. rewrite int64_fits by lia. split; [reflexivity | lia].
    + split; [reflexivity | lia].
  - rewrite andb_false_r. split; [reflexivity | lia].
Qed.

Lemma input_specs_front h side idx inputs specs front :
  input_specs h side idx inputs = Ok specs ->
  at_ specs 0 = Ok front ->
  exists i0 rest f0 fs,
    inputs = i0 :: rest
    /\ IterSpec (analysis_ h) (scope side) i0 idx = Some front
    /\ front = f0 :: fs.
Proof.
  intros Hs Hat. destruct inputs as [| i0 rest].
  - cbn in Hs. inversion Hs; subst. discriminate Hat.
  - cbn [input_specs] in Hs.
    apply bind_Ok_inv in Hs. destruct Hs as (spec & Hspec & Hs).
    apply bind_Ok_inv in Hs. destruct Hs as (f0 & Hf0 & Hs).
    apply bind_Ok_inv in Hs. destruct Hs as (specs' & _ & Hs).
    inversion Hs; subst specs. cbn in Hat. inversion Hat; subst front.
    destruct (IterSpec (analysis_ h) (scope side) i0 idx) as [sp |] eqn:E;
      [| discriminate Hspec].
    cbn in Hspec. inversion Hspec; subst sp.
    destruct spec as [| g0 gs]; [discriminate Hf0 |].
    exists i0, rest, g0, gs.
    split; [reflexivity |]. split; [exact E | reflexivity].
Qed.

Lemma add_dim_checks h hlo side ci d st st' :
  0 < block_size d * split_value d < 2 ^ 31 ->
  0 <= count (first_fragment (front_spec h hlo side d)) < 2 ^ 63 ->
  (forall s, lhs_noncontracting_split (dims_ h) = Some s -> 1 <= s) ->
  Z.of_nat (List.length (bounds st)) < 2 ^ 31 ->
  add_dim h hlo side ci d st = Ok st' ->
  match IterSpec (analysis_ h) (scope side) hlo (index d) with
  | None => st' = st
  | Some _ =>
      List.length (bounds st') = S (List.length (bounds st))
      /\ block_dims st' = block_dims st ++ [block_size d]
      /\ (index d <> concat_dim_idx ci ->
          bounds st' =
          bounds st ++ [Cst64 (axis_extent h side d (front_spec h hlo side d))])
      /\ boundary_checks st' =
         boundary_checks st
           ++ (if negb (index d =? concat_dim_idx ci)
                  && not_divisible h side (d, front_spec h hlo side d)
               then [Z.of_nat (List.length (bounds st))] else [])
  end.
Proof.
  intros Hbs Hcount Hsplit Hlen. unfold add_dim.
  destruct (IterSpec (analysis_ h) (scope side) hlo (index d))
    as [own |] eqn:Eown; [| intros H; now inversion H].
  fold (inputs_of hlo). intros H.
  apply bind_Ok_inv in H. destruct H as (specs & Hspecs & H).
  apply bind_Ok_inv in H. destruct H as (stride_value & _ & H).
  apply bind_Ok_inv in H. destruct H as (st1 & Hst1 & H).
  apply bind_Ok_inv in H. destruct H as (front & Hfront & H).
  destruct (input_specs_front h side (index d) (inputs_of hlo) specs front
              Hspecs Hfront) as (i0 & rest & f0 & fs & Hin & Hi0 & Hf).
  assert (Hfs : front_spec h hlo side d = f0 :: fs).
  { unfold front_spec. rewrite Hin, Hi0. exact Hf. }
  rewrite Hfs in *. subst front. cbn [first_fragment] in Hcount.
  change (at_ (f0 :: fs) 0) with (Ok f0) in H. cbn [bind] in H.
  inversion H; subst st'. clear H.
  cbn [bounds block_dims boundary_checks].
  destruct (Z.eqb_spec (index d) (concat_dim_idx ci)) as [Heq | Hneq];
    cbn [negb andb].
  - apply bind_Ok_inv in Hst1. destruct Hst1 as (offset_value & _ & Hst1).
    apply bind_Ok_inv in Hst1. destruct Hst1 as (bound_value & _ & Hst1).
    inversion Hst1; subst st1. cbn [bounds block_dims boundary_checks].
    rewrite length_app, app_nil_r. cbn [List.length].
    repeat split; try reflexivity; try lia; try (intros Hc; contradiction).
  - rewrite Hfront in Hst1. cbn [bind] in Hst1.
    change (at_ (f0 :: fs) 0) with (Ok f0) in Hst1. cbn [bind] in Hst1.
    destruct (axis_extent_code h side d f0 fs Hcount Hsplit) as (Hax & Hext).
    rewrite Hax in Hst1. cbn [bind] in Hst1.
    unfold mul32 in Hst1. rewrite int32_fits in Hst1 by lia.
    unfold crem in Hst1.
    destruct (Z.eqb_spec (block_size d * split_value d) 0); [lia |].
    cbn [bind] in Hst1. inversion Hst1; subst st1. clear Hst1.
    cbn [bounds block_dims boundary_checks].
    rewrite length_app. cbn [List.length].
    split; [lia |]. split; [reflexivity |]. split; [reflexivity |].
    unfold not_divisible. cbn [fst snd].
    rewrite Z.rem_mod_nonneg by lia.
    destruct (negb _); [| now rewrite app_nil_r].
    replace (Z.of_nat (List.length (bounds st) + 1) - 1)
      with (Z.of_nat (List.length (bounds st))) by lia.
    rewrite int32_fits by lia. reflexivity.
Qed.

Lemma add_dims_checks h hlo side ci dims : forall st st',
  concat_dim_idx ci = concat_index h hlo side ->
  Forall (fun d => 0 < block_size d * split_value d < 2 ^ 31) dims ->
  Forall (fun ax => 0 <= count (first_fragment (snd ax)) < 2 ^ 63)
         (tiled_axes h hlo side dims) ->
  (forall s, lhs_noncontracting_split (dims_ h) = Some s -> 1 <= s) ->
  Z.of_nat (List.length (bounds st)) + Z.of_nat (List.length dims) < 2 ^ 31 ->
  add_dims h hlo side ci dims st = Ok st' ->
  List.length (bounds st')
  = (List.length (bounds st)
     + List.length (tiled_axes h hlo side dims))%nat
  /\ block_dims st' =
     block_dims st ++ map (fun ax => block_size (fst ax))
                          (tiled_axes h hlo side dims)
  /\ boundary_checks st' =
     boundary_checks st
       ++ checks_from h hlo side (tiled_axes h hlo side dims)
            (Z.of_nat (List.length (bounds st))).
Proof.
  induction dims as [| d ds IH]; intros st st' Hci Hdims Haxes Hsplit Hlen H.
  - cbn in H. inversion H; subst. cbn. rewrite !app_nil_r.
    repeat split; lia.
  - cbn [add_dims] in H. apply bind_Ok_inv in H.
    destruct H as (st1 & Hd & Hds).
    inversion Hdims as [| ? ? Hbs Hdims']; subst.
    cbn [List.length] in Hlen.
    cbn [tiled_axes flat_map] in Haxes |- *.
    fold (tiled_axes h hlo side ds) in Haxes |- *.
    apply Forall_app in Haxes. destruct Haxes as (Hax1 & Hax2).
    destruct (IterSpec (analysis_ h) (scope side) hlo (index d))
      as [own |] eqn:Eown.
    + assert (Hcount :
        0 <= count (first_fragment (front_spec h hlo side d)) < 2 ^ 63).
      { inversion Hax1; subst. assumption. }
      pose proof (add_dim_checks h hlo side ci d st st1 Hbs Hcount Hsplit
                    ltac:(lia) Hd) as Hstep.
      rewrite Eown in Hstep.
      destruct Hstep as (Hl & Hbd & _ & Hbc).
      destruct (IH st1 st' Hci Hdims' Hax2 Hsplit ltac:(lia) Hds)
        as (Hl' & Hbd' & Hbc').
      rewrite Hl', Hbd', Hbc', Hl, Hbd, Hbc.
      cbn [app map checks_from fst snd List.length].
      unfold due_check at 1. cbn [fst snd]. rewrite <- Hci.
      rewrite <- !app_assoc. cbn [app].
      replace (Z.of_nat (S (List.length (bounds st))))
        with (Z.of_nat (List.length (bounds st)) + 1) by lia.
      repeat split; try reflexivity. lia.
    + assert (Hskip : st1 = st).
      { unfold add_dim in Hd. rewrite Eown in Hd. now inversion Hd. }
      subst st1. cbn [app].
      apply (IH st st' Hci Hdims' Hax2 Hsplit ltac:(lia) Hds).
Qed.

Lemma checks_from_range h hlo side axes : forall k z,
  In z (checks_from h hlo side axes k) ->
  k <= z < k + Z.of_nat (List.length axes).
Proof.
  induction axes as [| ax rest IH]; intros k z Hin; [inversion Hin |].
  cbn [checks_from List.length] in *. apply in_app_or in Hin.
  destruct Hin as [Hin | Hin].
  - destruct (due_check h hlo side ax); [| inversion Hin].
    destruct Hin as [<- | []]. lia.
  - specialize (IH _ _ Hin). lia.
Qed.

Lemma checks_from_count h hlo side axes : forall k j ax,
  nth_error axes j = Some ax ->
  count_occ Z.eq_dec (checks_from h hlo side axes k) (k + Z.of_nat j)
  = if due_check h hlo side ax then 1%nat else 0%nat.
Proof.
  induction axes as [| a rest IH]; intros k j ax Hnth.
  - destruct j; discriminate.
  - cbn [checks_from]. rewrite count_occ_app. destruct j as [| j].
    + cbn in Hnth. inversion Hnth; subst a.
      replace (k + Z.of_nat 0) with k by lia.
      assert (Hrest :
        count_occ Z.eq_dec (checks_from h hlo side rest (k + 1)) k = 0%nat).
      { apply count_occ_not_In. intros Hin.
        apply checks_from_range in Hin. lia. }
      rewrite Hrest. destruct (due_check h hlo side ax); cbn; [| reflexivity].
      destruct (Z.eq_dec k k); [reflexivity | contradiction].
    + cbn in Hnth.
      replace (k + Z.of_nat (S j)) with (k + 1 + Z.of_nat j) by lia.
      rewrite (IH (k + 1) j ax Hnth).
      assert (Hhead : count_occ Z.eq_dec
                        (if due_check h hlo side a then [k] else [])
                        (k + 1 + Z.of_nat j) = 0%nat).
      { destruct (due_check h hlo side a); cbn; [| reflexivity].
        destruct (Z.eq_dec k (k + 1 + Z.of_nat j)); [lia | reflexivity]. }
      rewrite Hhead. reflexivity.
Qed.

Lemma multi_select_loop_type index limits : forall rest result,
  getType (multi_select_loop index limits rest result) = getType result.
Proof.
  induction limits as [| l ls IH]; intros rest result; [reflexivity |].
  destruct rest as [| c cs]; [reflexivity |].
  cbn [multi_select_loop]. now rewrite IH.
Qed.

Lemma emit_base_inv h hlo side bases base0 ci :
  emit_base h hlo side bases = Ok (base0, ci) ->
  concat_dim_idx ci = concat_index h hlo side
  /\ exists b0 rest, bases = b0 :: rest /\ getType base0 = getType b0.
Proof.
  unfold emit_base, concat_index, concat_dim_of.
  destruct (HloOpcode_eqb (opcode hlo) kConcatenate); intros H.
  - apply bind_Ok_inv in H. destruct H as (properties & _ & H).
    apply bind_Ok_inv in H. destruct H as (? & _ & H).
    apply bind_Ok_inv in H. destruct H as (boundaries & _ & H).
    apply bind_Ok_inv in H. destruct H as (base & Hsel & H).
    inversion H; subst base0 ci. cbn [concat_dim_idx].
    split; [reflexivity |].
    unfold EmitMultiSelect in Hsel.
    apply bind_Ok_inv in Hsel. destruct Hsel as (? & _ & Hsel).
    destruct bases as [| b0 rest]; [discriminate Hsel |].
    inversion Hsel; subst base.
    exists b0, rest. split; [reflexivity | apply multi_select_loop_type].
  - apply bind_Ok_inv in H. destruct H as (base & Hat & H).
    inversion H; subst base0 ci. cbn [concat_dim_idx].
    split; [reflexivity |].
    destruct bases as [| b0 rest]; [discriminate Hat |].
    cbn in Hat. inversion Hat; subst base.
    exists b0, rest. split; reflexivity.
Qed.

Lemma EmitTensorPointer_inv h hlo side bases pk checks0 ptr checks :
  EmitTensorPointer h hlo side bases pk checks0 = Ok (ptr, checks) ->
  exists base0 ci st base2,
    emit_base h hlo side bases = Ok (base0, ci)
    /\ add_dims h hlo side ci (tiled_dims side) (empty_parts checks0) = Ok st
    /\ getType base2 = getType base0
    /\ checks = boundary_checks st
    /\ ptr = match block_dims st with
             | [] => base2
             | _ =>
                 let tensor_ptr :=
                   MakeTensorPtrOp base2 (bounds st) (strides st)
                     (tensor_offsets st) (block_dims st) (dim_order st) in
                 AdvanceOp (getType tensor_ptr) tensor_ptr (block_offsets st)
             end.
Proof.
  intros H. unfold EmitTensorPointer in H.
  apply bind_Ok_inv in H. destruct H as ([base0 ci] & Hbase & H).
  apply bind_Ok_inv in H. destruct H as (st & Hst & H).
  apply bind_Ok_inv in H. destruct H as ([batch_stride bs] & _ & H).
  apply bind_Ok_inv in H. destruct H as (base2 & Hbase2 & H).
  exists base0, ci, st, base2.
  split; [exact Hbase |]. split; [exact Hst |].
  split.
  - set (base1 := if has_batch_offset bs then _ else base0) in Hbase2.
    assert (Hb1 : getType base1 = getType base0).
    { unfold base1. destruct (has_batch_offset bs); reflexivity. }
    destruct (out_split_k_dim_idx (dims_ h)) as [sidx |].
    + destruct (IterSpec (analysis_ h) OUTPUT hlo sidx).
      * apply bind_Ok_inv in Hbase2. destruct Hbase2 as (? & _ & Hbase2).
        apply bind_Ok_inv in Hbase2. destruct Hbase2 as (? & _ & Hbase2).
        inversion Hbase2. cbn. exact Hb1.
      * inversion Hbase2; subst. exact Hb1.
    + inversion Hbase2; subst. exact Hb1.
  - destruct (block_dims st); inversion H; subst; split; reflexivity.
Qed.

(** C4.  When [EmitTensorPointer] succeeds from an empty list of boundary
    checks (under the invariants of [pointer_inputs_ok]), the list it
    returns holds the axis number of a tiled dimension exactly once if the
    dimension is not the concatenated one and its extent is not evenly
    divisible by block_size * split_value, and not at all otherwise, and
    nothing else; the extent is the bound the block pointer gets for the
    axis.  [EmitParameterLoad] on the returned pointer (built from base
    pointers to scalars) with that list emits a load that carries exactly
    these checks and has zero-fill padding if and only if the list is
    non-empty. *)
Theorem boundary_checks_registered h hlo side bases pk ptr checks :
  pointer_inputs_ok h hlo side ->
  EmitTensorPointer h hlo side bases pk [] = Ok (ptr, checks) ->
  let axes := tiled_axes h hlo side (tiled_dims side) in
  checks = checks_from h hlo side axes 0
  /\ (forall j ax, nth_error axes j = Some ax ->
        count_occ Z.eq_dec checks (Z.of_nat j)
        = if negb (index (fst ax) =? concat_index h hlo side)
             && negb (axis_extent h side (fst ax) (snd ax)
                        mod (block_size (fst ax) * split_value (fst ax)) =? 0)
          then 1%nat else 0%nat)
  /\ (forall z, In z checks -> 0 <= z < Z.of_nat (List.length axes))
  /\ (forall b0 rest e,
        bases = b0 :: rest -> getType b0 = PointerType (ScalarType e) ->
        exists load,
          EmitParameterLoad ptr checks = Ok load
          /\ load_checks load = checks
          /\ (load_padding load = Some PAD_ZERO <-> checks <> [])
          /\ (load_padding load = None <-> checks = [])).
Proof.
  intros (Hdims & Haxes & Hsplit & Hlen) H axes.
  destruct (EmitTensorPointer_inv h hlo side bases pk [] ptr checks H)
    as (base0 & ci & st & base2 & Hbase & Hst & Hty & Hchecks & Hptr).
  destruct (emit_base_inv h hlo side bases base0 ci Hbase)
    as (Hci & b0' & rest' & Hbases' & Hty0).
  destruct (add_dims_checks h hlo side ci (tiled_dims side) (empty_parts []) st
              Hci Hdims Haxes Hsplit ltac:(cbn; lia) Hst)
    as (Hb & Hbd & Hbc).
  cbn [empty_parts bounds block_dims boundary_checks app List.length] in Hb, Hbd, Hbc.
  fold axes in Hb, Hbd, Hbc.
  assert (Hc : checks = checks_from h hlo side axes 0).
  { rewrite Hchecks, Hbc. reflexivity. }
  split; [exact Hc |].
  split; [| split].
  - intros j ax Hnth. rewrite Hc.
    apply (checks_from_count h hlo side axes 0 j ax Hnth).
  - intros z Hin. rewrite Hc in Hin.
    apply checks_from_range in Hin. lia.
  - intros b0 rest e Hbases Hb0.
    assert (b0' = b0) as -> by congruence.
    rewrite Hty0, Hb0 in Hty. unfold EmitParameterLoad.
    destruct (block_dims st) as [| bd bds] eqn:Ebd.
    + subst ptr. rewrite Hty. cbn [isTensorPointerType].
      assert (axes = []) as Hnil.
      { destruct axes; [reflexivity | discriminate Hbd]. }
      rewrite Hnil in Hc. cbn in Hc. rewrite Hc.
      unfold Splat. cbn [getType]. rewrite Hty.
      eexists. split; [reflexivity |]. cbn.
      repeat split; congruence.
    + subst ptr. cbn [getType]. rewrite Hty. cbn [isTensorPointerType].
      eexists. split; [reflexivity |]. cbn.
      destruct checks; repeat split; congruence.
Qed.

(** On a pointer that is not a block pointer the load carries neither
    checks nor padding, whatever list it is given. *)
Lemma EmitParameterLoad_scalar pointer e checks :
  getType pointer = PointerType (ScalarType e) ->
  EmitParameterLoad pointer checks
  = Ok (SplatOp (RankedTensorType [] e) (LoadOp pointer [] None)).
Proof.
  intros Hty. unfold EmitParameterLoad, Splat. rewrite Hty. cbn.
  rewrite Hty. reflexivity.
Qed.

(** ** Non-finite guard of the emulated dots *)

Lemma is_finite_f32_class x : is_finite_f32 x = true <-> is_finite_class x.
Proof.
  unfold is_finite_f32, positive_infinity.
  destruct x as [s | s | | s mant e]; cbn; try (destruct s; cbn);
    split; intros H; try discriminate; try contradiction; auto.
Qed.

Lemma guard_f32_finite x : is_finite_class (guard_f32 x).
Proof.
  unfold guard_f32. destruct (is_finite_f32 x) eqn:E.
  - now apply is_finite_f32_class.
  - exact I.
Qed.

Lemma guard_f32_id x : is_finite_class x -> guard_f32 x = x.
Proof.
  intros H. unfold guard_f32.
  now rewrite (proj2 (is_finite_f32_class x) H).
Qed.

Lemma abs_lanes xs :
  map_opt absf (map SFloat xs) = Some (map (fun x => SFloat (SFabs x)) xs).
Proof. induction xs as [| x xs IH]; cbn; [| rewrite IH]; reflexivity. Qed.

Lemma cmp_lanes xs :
  zip_with cmpf_ogt (repeat (SFloat positive_infinity) (List.length xs))
           (map (fun x => SFloat (SFabs x)) xs)
  = Some (map (fun x => SBool (is_finite_f32 x)) xs).
Proof.
  induction xs as [| x xs IH]; [reflexivity |].
  cbn [List.length repeat map zip_with]. rewrite IH. reflexivity.
Qed.

Lemma guard_lanes xs :
  zip_with select_scalar (map (fun x => SBool (is_finite_f32 x)) xs)
           (combine (map SFloat xs)
                    (repeat (SFloat float_zero) (List.length xs)))
  = Some (map (fun x => SFloat (guard_f32 x)) xs).
Proof.
  induction xs as [| x xs IH]; [reflexivity |].
  cbn [List.length repeat map combine zip_with]. rewrite IH.
  unfold guard_f32. destruct (is_finite_f32 x); reflexivity.
Qed.

Lemma same_dims_refl s : same_dims s s = true.
Proof. unfold same_dims. destruct (list_eq_dec Z.eq_dec s s); congruence. Qed.

Lemma guard_non_finite_Ok partial dims :
  getType partial = RankedTensorType dims f32 ->
  guard_non_finite partial =
  Ok (SelectOp (CmpFOp OGT (ConstantOp (RankedTensorType dims f32)
                                       (FloatAttr positive_infinity))
                       (AbsFOp partial))
               partial (zeros_f32 dims)).
Proof.
  intros Hty. unfold guard_non_finite, CheckFiniteF32, shaped_type, ZerosLike.
  rewrite Hty. reflexivity.
Qed.

Lemma guard_non_finite_eval env partial dims guarded xs :
  getType partial = RankedTensorType dims f32 ->
  guard_non_finite partial = Ok guarded ->
  eval env partial = Some (VTensor dims (map SFloat xs)) ->
  List.length xs = num_elements dims ->
  eval env guarded
  = Some (VTensor dims (map (fun x => SFloat (guard_f32 x)) xs)).
Proof.
  intros Hty Hg He Hlen.
  rewrite (guard_non_finite_Ok partial dims Hty) in Hg.
  inversion Hg; subst guarded. clear Hg.
  cbn [eval zeros_f32]. rewrite He.
  cbn [const_scalar isFloat ElementType_eqb isInteger negb option_map
         round_to float_zero positive_infinity lift1].
  rewrite abs_lanes. cbn [option_map lift2]. rewrite same_dims_refl.
  rewrite <- Hlen.
  fold positive_infinity. rewrite cmp_lanes. cbn [option_map select_val].
  rewrite !same_dims_refl. cbn [andb].
  rewrite length_map, repeat_length, Nat.eqb_refl.
  fold float_zero. rewrite guard_lanes. reflexivity.
Qed.

Ltac inv_binds H :=
  repeat (apply bind_Ok_inv in H;
          let a := fresh "v" in
          let E := fresh "E" in
          destruct H as (a & E & H)).

Lemma check_f32_inv v what u :
  check_f32 v what = Ok u -> exists dims, getType v = RankedTensorType dims f32.
Proof.
  unfold check_f32, shaped_type. intros H.
  destruct (getType v) as [| dims e |]; cbn in H; try discriminate.
  apply TF_RET_CHECK_Ok_inv in H. cbn in H.
  destruct e; try discriminate. now exists dims.
Qed.

Lemma ZerosLike_f32 v dims :
  getType v = RankedTensorType dims f32 -> ZerosLike v = Ok (zeros_f32 dims).
Proof. intros H. unfold ZerosLike. rewrite H. reflexivity. Qed.

Lemma Emit3x_structure lhs rhs acc v :
  Emit3xBfloat16MatMul lhs rhs acc = Ok v ->
  exists dims lhs_high lhs_low rhs_high rhs_low guarded,
    getType acc = RankedTensorType dims f32
    /\ guard_non_finite
         (correction_terms_3x lhs_high lhs_low rhs_high rhs_low
            (zeros_f32 dims)) = Ok guarded
    /\ v = AddFOp acc (bf16_dot lhs_high rhs_high guarded).
Proof.
  unfold Emit3xBfloat16MatMul. intros H.
  apply bind_Ok_inv in H. destruct H as (? & _ & H).
  apply bind_Ok_inv in H. destruct H as (? & _ & H).
  apply bind_Ok_inv in H. destruct H as (? & Hacc & H).
  apply check_f32_inv in Hacc. destruct Hacc as (dims & Hacc).
  rewrite (ZerosLike_f32 acc dims Hacc) in H.
  inv_binds H. inversion H; subst v.
  match goal with
  | Hz : Ok (zeros_f32 dims) = Ok _ |- _ => inversion Hz; subst
  end.
  eexists dims, _, _, _, _, _. split; [exact Hacc |].
  split; [eassumption | reflexivity].
Qed.

Lemma Emit6x_structure lhs rhs acc v :
  Emit6xBfloat16MatMul lhs rhs acc = Ok v ->
  exists dims lhs_high lhs_middle lhs_low rhs_high rhs_middle rhs_low guarded,
    getType acc = RankedTensorType dims f32
    /\ guard_non_finite
         (correction_terms_6x lhs_high lhs_middle lhs_low
            rhs_high rhs_middle rhs_low (zeros_f32 dims)) = Ok guarded
    /\ v = AddFOp acc (bf16_dot lhs_high rhs_high guarded).
Proof.
  unfold Emit6xBfloat16MatMul. intros H.
  apply bind_Ok_inv in H. destruct H as (? & _ & H).
  apply bind_Ok_inv in H. destruct H as (? & _ & H).
  apply bind_Ok_inv in H. destruct H as (? & Hacc & H).
  apply check_f32_inv in Hacc. destruct Hacc as (dims & Hacc).
  rewrite (ZerosLike_f32 acc dims Hacc) in H.
  inv_binds H. inversion H; subst v.
  match goal with
  | Hz : Ok (zeros_f32 dims) = Ok _ |- _ => inversion Hz; subst
  end.
  eexists dims, _, _, _, _, _, _, _. split; [exact Hacc |].
  split; [eassumption | reflexivity].
Qed.


(** ** Reduction masking *)



Lemma iota_length lo len : List.length (iota lo len) = len.
Proof. revert lo. induction len; intros; cbn; [| rewrite IHlen]; reflexivity. Qed.





Lemma mask_input_spec input neutral input_shape block_row row_len masked e :
  getType neutral = ScalarType e ->
  mask_input input neutral input_shape block_row row_len = Ok masked ->
  masked = if block_row =? row_len then input
           else SelectOp (reduce_mask block_row row_len) input
                         (SplatOp (RankedTensorType input_shape e) neutral).
Proof.
  intros Hty. unfold mask_input, Splat, reduce_mask.
  cbn [getType IntConst]. rewrite Hty. cbn [bind].
  destruct (block_row =? row_len); cbn [negb]; intros H; now inversion H.
Qed.


(** * Further properties of the emitter *)

(** ** Type conversions *)

Lemma ElementType_eqb_eq a b : ElementType_eqb a b = true <-> a = b.
Proof.
  destruct a, b; cbn; split; intros H; try discriminate; reflexivity.
Qed.


Lemma MlirType_eqb_with_element t src dst :
  element_of t = Some src ->
  MlirType_eqb t (with_element t dst) = ElementType_eqb src dst.
Proof.
  destruct t as [e | s e | p]; cbn; intros H; inversion H; subst;
    [reflexivity |].
  destruct (list_eq_dec Z.eq_dec s s); [reflexivity | contradiction].
Qed.

Lemma element_of_with_element t src dst :
  element_of t = Some src -> element_of (with_element t dst) = Some dst.
Proof. destruct t; cbn; intros H; inversion H; reflexivity. Qed.

Lemma with_element_twice t src a b :
  element_of t = Some src ->
  with_element (with_element t a) b = with_element t b.
Proof. destruct t; cbn; intros H; inversion H; reflexivity. Qed.

(** [ZerosLike] cannot fail on a scalar or tensor value, and keeps the
    type. *)
Lemma ZerosLike_typed v e :
  element_of (getType v) = Some e ->
  exists z, ZerosLike v = Ok z /\ getType z = getType v.
Proof.
  unfold ZerosLike. destruct (getType v) as [e' | s e' | p]; cbn;
    intros H; inversion H; subst.
  - unfold const_attr. destruct (isInteger e); cbn; eauto.
  - unfold const_attr. destruct (isInteger e); cbn; eauto.
Qed.

Lemma Cast_plain_typed value src_e dst_e :
  element_of (getType value) = Some src_e ->
  exists v',
    Cast_plain value src_e dst_e (with_element (getType value) dst_e) = Ok v'
    /\ getType v' = with_element (getType value) dst_e.
Proof.
  intros Hty.
  destruct (ZerosLike_typed value src_e Hty) as (z & Hz & _).
  unfold Cast_plain. rewrite Hz.
  destruct src_e, dst_e; cbn; eexists; split; reflexivity.
Qed.

Lemma Cast_from_typed value src_e dst_e :
  element_of (getType value) = Some src_e ->
  exists v',
    Cast_from value dst_e = Ok v'
    /\ getType v' = with_element (getType value) dst_e.
Proof.
  intros Hty. unfold Cast_from. rewrite Hty.
  rewrite (MlirType_eqb_with_element _ _ dst_e Hty).
  destruct (ElementType_eqb src_e dst_e) eqn:E.
  - apply ElementType_eqb_eq in E. subst dst_e.
    exists value. split; [reflexivity |].
    destruct (getType value); cbn in *; inversion Hty; reflexivity.
  - destruct (ElementType_eqb dst_e bf16 && negb (ElementType_eqb src_e i8)).
    + destruct (ElementType_eqb src_e f32).
      * cbn. eexists. split; reflexivity.
      * destruct (Cast_plain_typed value src_e f32 Hty) as (inner & -> & _).
        cbn. eexists. split; reflexivity.
    + apply Cast_plain_typed. exact Hty.
Qed.

Lemma Cast_typed v src dst :
  element_of (getType v) = Some src ->
  exists v',
    Cast v dst = Ok v' /\ getType v' = with_element (getType v) dst.
Proof.
  intros Hty. unfold Cast. rewrite Hty.
  rewrite (MlirType_eqb_with_element _ _ dst Hty).
  destruct (ElementType_eqb src dst) eqn:E.
  - apply ElementType_eqb_eq in E. subst dst.
    exists v. split; [reflexivity |].
    destruct (getType v); cbn in *; inversion Hty; reflexivity.
  - destruct (ElementType_eqb src bf16).
    + set (ext := ExtFOp (with_element (getType v) f32) v).
      assert (Hext : element_of (getType ext) = Some f32).
      { cbn. eapply element_of_with_element; eassumption. }
      destruct (Cast_from_typed ext f32 dst Hext) as (v' & Hv' & Ht).
      exists v'. split; [exact Hv' |].
      rewrite Ht. cbn. eapply with_element_twice; eassumption.
    + apply (Cast_from_typed v src dst Hty).
Qed.

Lemma Cast_Ok_type v dst v' :
  Cast v dst = Ok v' -> getType v' = with_element (getType v) dst.
Proof.
  intros H. destruct (element_of (getType v)) as [src |] eqn:E.
  - destruct (Cast_typed v src dst E) as (v'' & Hv & Ht). congruence.
  - unfold Cast in H. rewrite E in H. discriminate H.
Qed.

Lemma Cast_same v e : element_of (getType v) = Some e -> Cast v e = Ok v.
Proof.
  intros Hty. unfold Cast.
  rewrite Hty, (MlirType_eqb_with_element _ _ e Hty).
  assert (ElementType_eqb e e = true) as -> by now apply ElementType_eqb_eq.
  reflexivity.
Qed.

(** X1.  [Cast] never dies on a scalar or tensor value: it returns a value of
    the same shape with the requested element type, the value itself when
    it has that element type already, and converting the result again to
    the same element type emits nothing. *)
Theorem Cast_result_type v src dst :
  element_of (getType v) = Some src ->
  exists v',
    Cast v dst = Ok v'
    /\ getType v' = with_element (getType v) dst
    /\ (src = dst -> v' = v)
    /\ Cast v' dst = Ok v'.
Proof.
  intros Hty.
  destruct (Cast_typed v src dst Hty) as (v' & Hv' & Ht).
  exists v'. split; [exact Hv' |]. split; [exact Ht |]. split.
  - intros <-. rewrite (Cast_same v src Hty) in Hv'. now inversion Hv'.
  - apply Cast_same. rewrite Ht.
    eapply element_of_with_element; eassumption.
Qed.

(** X2.  Every conversion from or to bf16 goes through f32, except that an
    8-bit integer is converted to bf16 directly: the equations of the
    recursive calls of [Cast]. *)
Theorem Cast_bf16_through_f32 v src dst :
  element_of (getType v) = Some src ->
  let f32_ty := with_element (getType v) f32 in
  let bf16_ty := with_element (getType v) bf16 in
  (src = bf16 -> dst <> bf16 ->
   Cast v dst = Cast (ExtFOp f32_ty v) dst
   /\ Cast v f32 = Ok (ExtFOp f32_ty v))
  /\ (dst = bf16 -> src <> bf16 -> src <> i8 ->
      exists inner,
        Cast v f32 = Ok inner /\ Cast v dst = Ok (TruncFOp bf16_ty inner))
  /\ (dst = bf16 -> src = i8 -> Cast v dst = Ok (SIToFPOp bf16_ty v)).
Proof.
  intros Hty f32_ty bf16_ty.
  assert (Hext : element_of (getType (ExtFOp f32_ty v)) = Some f32).
  { cbn. eapply element_of_with_element; eassumption. }
  split; [| split].
  - intros -> Hdst.
    assert (Hf : Cast v f32 = Ok (ExtFOp f32_ty v)).
    { unfold Cast. rewrite Hty, (MlirType_eqb_with_element _ _ f32 Hty).
      cbn [ElementType_eqb]. fold f32_ty. unfold Cast_from. rewrite Hext.
      rewrite (MlirType_eqb_with_element _ _ f32 Hext). reflexivity. }
    split; [| exact Hf].
    unfold Cast at 1. rewrite Hty, (MlirType_eqb_with_element _ _ dst Hty).
    assert (ElementType_eqb bf16 dst = false) as ->.
    { destruct dst; try reflexivity. contradiction. }
    cbn [ElementType_eqb]. fold f32_ty.
    unfold Cast. rewrite Hext, (MlirType_eqb_with_element _ _ dst Hext).
    destruct (ElementType_eqb f32 dst) eqn:E; cbn [ElementType_eqb];
      [| reflexivity].
    unfold Cast_from.
    rewrite Hext, (MlirType_eqb_with_element _ _ dst Hext), E. reflexivity.
  - intros -> Hsrc Hi8.
    unfold Cast. rewrite Hty.
    rewrite !(MlirType_eqb_with_element _ _ _ Hty).
    unfold Cast_from. rewrite Hty.
    rewrite !(MlirType_eqb_with_element _ _ _ Hty).
    fold f32_ty bf16_ty.
    destruct (Cast_plain_typed v src f32 Hty) as (inner & Hin & _).
    fold f32_ty in Hin.
    destruct src; try contradiction; cbn [ElementType_eqb andb negb];
      try (rewrite Hin; cbn [bind]; eexists; split; reflexivity).
    eexists; split; reflexivity.
  - intros -> ->.
    unfold Cast. rewrite Hty, (MlirType_eqb_with_element _ _ bf16 Hty).
    cbn [ElementType_eqb]. unfold Cast_from.
    rewrite Hty, (MlirType_eqb_with_element _ _ bf16 Hty).
    reflexivity.
Qed.

(** ** Configuration checks *)

Lemma TF_RET_CHECK_inv {B} c what (k : Result B) u :
  (TF_RET_CHECK c what ;;; k) = Ok u -> c = true /\ k = Ok u.
Proof.
  unfold TF_RET_CHECK. destruct c; cbn; intros H; [auto | discriminate].
Qed.

Lemma singleton_length {A} (l : list A) :
  Z.of_nat (List.length l) = 1 -> exists x, l = [x].
Proof.
  destruct l as [| x [| y l]]; cbn [List.length]; intros H; try lia.
  now exists x.
Qed.

(** X3.  A configuration that [ValidateMatMulConfig] accepts has a split
    factor of at least 1 and block sizes of at least 16; the dot has one
    contracting dimension per side, at most one batch dimension besides
    the split one, and an LHS operand with exactly one dimension that is
    neither batch nor contracting.  With a split factor above 1 the first
    batch dimension of either side sits just before the contracting one
    and has the split factor as its extent. *)
Theorem ValidateMatMulConfig_accepts config dot :
  Z.of_nat (List.length (lhs_batch_dimensions (dot_dimension_numbers dot)))
  < 2 ^ 31 ->
  ValidateMatMulConfig config dot = Ok tt ->
  let dims := dot_dimension_numbers dot in
  let split := if split_k config >? 1 then 1 else 0 in
  1 <= split_k config /\ 16 <= block_m config /\ 16 <= block_k config
  /\ 16 <= block_n config
  /\ Z.of_nat (List.length (lhs_batch_dimensions dims)) <= 1 + split
  /\ exists lc rc lhs_operand,
       lhs_contracting_dimensions dims = [lc]
       /\ rhs_contracting_dimensions dims = [rc]
       /\ operand (dot_hlo dot) 0 = Ok lhs_operand
       /\ rank (shape lhs_operand)
          = 2 + Z.of_nat (List.length (lhs_batch_dimensions dims))
       /\ (1 < split_k config ->
           exists rhs_operand,
             operand (dot_hlo dot) 1 = Ok rhs_operand
             /\ at_ (lhs_batch_dimensions dims) 0 = Ok (int32 (sub64 lc 1))
             /\ at_ (rhs_batch_dimensions dims) 0 = Ok (int32 (sub64 rc 1))
             /\ dimension (shape lhs_operand) (int32 (sub64 lc 1))
                = Ok (split_k config)
             /\ dimension (shape rhs_operand) (int32 (sub64 rc 1))
                = Ok (split_k config)).
Proof.
  intros Hlen H dims split. unfold ValidateMatMulConfig in H.
  fold dims in H.
  apply TF_RET_CHECK_inv in H. destruct H as [Hs H].
  apply TF_RET_CHECK_inv in H. destruct H as [Hm H].
  apply TF_RET_CHECK_inv in H. destruct H as [Hk H].
  apply TF_RET_CHECK_inv in H. destruct H as [Hn H].
  apply TF_RET_CHECK_inv in H. destruct H as [Hb H].
  apply bind_Ok_inv in H. destruct H as ([] & Hsplit & H).
  apply TF_RET_CHECK_inv in H. destruct H as [Hlc H].
  apply TF_RET_CHECK_inv in H. destruct H as [Hrc H].
  apply bind_Ok_inv in H. destruct H as (lhs_operand & Hop & H).
  apply TF_RET_CHECK_Ok_inv in H.
  fold dims in Hlen. fold split in Hb, H.
  assert (Hsp : 0 <= split <= 1).
  { unfold split. destruct (split_k config >? 1); lia. }
  assert (Hnb : sub32 (Z.of_nat (List.length (lhs_batch_dimensions dims))) split
                = Z.of_nat (List.length (lhs_batch_dimensions dims)) - split).
  { unfold sub32. apply int32_fits. lia. }
  rewrite Hnb in Hb, H.
  apply Z.eqb_eq in Hlc, Hrc, H.
  destruct (singleton_length _ Hlc) as (lc & Elc).
  destruct (singleton_length _ Hrc) as (rc & Erc).
  repeat (split; [lia |]).
  exists lc, rc, lhs_operand.
  split; [exact Elc |]. split; [exact Erc |]. split; [exact Hop |].
  split; [lia |].
  intros Hgt.
  assert (Egt : (split_k config >? 1) = true) by lia.
  rewrite Egt in Hsplit. rewrite Elc, Erc in Hsplit.
  change (at_ [lc] 0) with (Ok lc) in Hsplit.
  change (at_ [rc] 0) with (Ok rc) in Hsplit.
  cbn [bind] in Hsplit.
  apply bind_Ok_inv in Hsplit. destruct Hsplit as (lb0 & Hlb0 & Hsplit).
  apply TF_RET_CHECK_inv in Hsplit. destruct Hsplit as [Elb Hsplit].
  apply bind_Ok_inv in Hsplit. destruct Hsplit as (rb0 & Hrb0 & Hsplit).
  apply TF_RET_CHECK_inv in Hsplit. destruct Hsplit as [Erb Hsplit].
  rewrite Hop in Hsplit. cbn [bind] in Hsplit.
  apply bind_Ok_inv in Hsplit. destruct Hsplit as (ld & Hld & Hsplit).
  apply TF_RET_CHECK_inv in Hsplit. destruct Hsplit as [Eld Hsplit].
  apply bind_Ok_inv in Hsplit. destruct Hsplit as (rhs_operand & Hrop & Hsplit).
  apply bind_Ok_inv in Hsplit. destruct Hsplit as (rd & Hrd & Hsplit).
  apply TF_RET_CHECK_Ok_inv in Hsplit.
  apply Z.eqb_eq in Elb, Erb, Eld, Hsplit. subst lb0 rb0 ld rd.
  exists rhs_operand. repeat split; assumption.
Qed.

(** ** The split of the LHS non-contracting dimension *)

Lemma split_spec_fold_not_Ok analysis idx params :
  forall acc, (forall r, acc <> Ok r) ->
  forall r, fold_left (split_spec_step analysis idx) params acc <> Ok r.
Proof.
  induction params as [| p ps IH]; intros acc Hacc r; cbn [fold_left].
  - apply Hacc.
  - apply IH. intros r'. unfold split_spec_step.
    destruct acc; cbn [bind]; try discriminate.
    exfalso. eapply Hacc. reflexivity.
Qed.

Lemma same_split_counts_trans s t u :
  same_split_counts s t -> same_split_counts t u -> same_split_counts s u.
Proof.
  intros (a & b & a' & b' & -> & -> & Ha & Hb)
         (c & d & c' & d' & E & -> & Hc & Hd).
  inversion E; subst c d.
  exists a, b, c', d'. repeat split; congruence.
Qed.

Lemma split_spec_fold analysis idx params :
  forall seen r0 r,
    match r0 with
    | None => forall q s, In q seen -> ~ has_split_spec analysis idx q s
    | Some spec =>
        (exists q, In q seen /\ has_split_spec analysis idx q spec)
        /\ forall q s, In q seen -> has_split_spec analysis idx q s ->
                       same_split_counts s spec
    end ->
    fold_left (split_spec_step analysis idx) params (Ok r0) = Ok r ->
    match r with
    | None =>
        forall q s, In q (seen ++ params) -> ~ has_split_spec analysis idx q s
    | Some spec =>
        (exists q, In q (seen ++ params) /\ has_split_spec analysis idx q spec)
        /\ forall q s, In q (seen ++ params) ->
                       has_split_spec analysis idx q s ->
                       same_split_counts s spec
    end.
Proof.
  induction params as [| p ps IH]; intros seen r0 r Hinv H.
  - cbn in H. inversion H; subst r. rewrite app_nil_r. exact Hinv.
  - cbn [fold_left] in H.
    replace (seen ++ p :: ps) with ((seen ++ [p]) ++ ps)
      by (rewrite <- app_assoc; reflexivity).
    assert (Hkeep :
      (forall s, ~ has_split_spec analysis idx p s) ->
      match r0 with
      | None =>
          forall q s, In q (seen ++ [p]) -> ~ has_split_spec analysis idx q s
      | Some spec =>
          (exists q, In q (seen ++ [p]) /\ has_split_spec analysis idx q spec)
          /\ forall q s, In q (seen ++ [p]) ->
                         has_split_spec analysis idx q s ->
                         same_split_counts s spec
      end).
    { intros Hp. destruct r0 as [spec0 |].
      - destruct Hinv as ((q & Hq & Hs) & Hall). split.
        + exists q. split; [apply in_or_app; now left | exact Hs].
        + intros q' s' Hin Hs'. apply in_app_or in Hin.
          destruct Hin as [Hin | [<- | []]]; [exact (Hall _ _ Hin Hs') |].
          exfalso. exact (Hp _ Hs').
      - intros q s Hin Hs. apply in_app_or in Hin.
        destruct Hin as [Hin | [<- | []]]; [exact (Hinv _ _ Hin Hs) |].
        exact (Hp _ Hs). }
    unfold split_spec_step at 2 in H. cbn [bind] in H.
    destruct (IterSpec analysis LHS p idx) as [spec |] eqn:Espec.
    2:{ apply (IH _ _ _ (Hkeep ltac:(intros s [Hs _]; congruence)) H). }
    destruct (Z.of_nat (List.length spec) >? 1) eqn:Elen.
    2:{ refine (IH _ _ _ (Hkeep _) H).
        intros s [Hs Hl]. assert (s = spec) by congruence. subst s. lia. }
    destruct (Z.of_nat (List.length spec) =? 2) eqn:E2.
    2:{ exfalso. cbn in H.
        exact (split_spec_fold_not_Ok analysis idx ps Abort
                 ltac:(discriminate) r H). }
    cbn [CHECK bind] in H. apply Z.eqb_eq in E2.
    destruct spec as [| a [| b [| c spec]]]; cbn [List.length] in E2; try lia.
    assert (Hsplit : has_split_spec analysis idx p [a; b]).
    { split; [exact Espec | cbn; lia]. }
    assert (Hself : same_split_counts [a; b] [a; b]).
    { exists a, b, a, b. repeat split. }
    destruct r0 as [spec0 |].
    + destruct Hinv as ((q0 & Hq0 & Hs0) & Hall).
      destruct (Hall _ _ Hq0 Hs0) as (a' & b' & ? & ? & -> & _ & _ & _).
      change (at_ [a'; b'] 0) with (Ok a') in H.
      change (at_ [a'; b'] 1) with (Ok b') in H.
      change (at_ [a; b] 0) with (Ok a) in H.
      change (at_ [a; b] 1) with (Ok b) in H.
      cbn [bind] in H.
      destruct (count a' =? count a) eqn:Ea.
      2:{ exfalso. cbn in H.
          exact (split_spec_fold_not_Ok analysis idx ps Abort
                   ltac:(discriminate) r H). }
      destruct (count b' =? count b) eqn:Eb.
      2:{ exfalso. cbn in H.
          exact (split_spec_fold_not_Ok analysis idx ps Abort
                   ltac:(discriminate) r H). }
      cbn [CHECK bind] in H.
      apply Z.eqb_eq in Ea, Eb.
      assert (Hold : same_split_counts [a'; b'] [a; b]).
      { exists a', b', a, b. repeat split; assumption. }
      refine (IH (seen ++ [p]) (Some [a; b]) r _ H). split.
      * exists p. split; [apply in_or_app; right; now left | exact Hsplit].
      * intros q s Hin Hs. apply in_app_or in Hin.
        destruct Hin as [Hin | [<- | []]].
        -- eapply same_split_counts_trans; [apply (Hall _ _ Hin Hs) | exact Hold].
        -- destruct Hs as [Hs _]. assert (s = [a; b]) by congruence.
           subst s. exact Hself.
    + cbn [bind] in H.
      refine (IH (seen ++ [p]) (Some [a; b]) r _ H). split.
      * exists p. split; [apply in_or_app; right; now left | exact Hsplit].
      * intros q s Hin Hs. apply in_app_or in Hin.
        destruct Hin as [Hin | [<- | []]].
        -- exfalso. exact (Hinv _ _ Hin Hs).
        -- destruct Hs as [Hs _]. assert (s = [a; b]) by congruence.
           subst s. exact Hself.
Qed.

(** X4.  When [GetLhsNoncontractingSplitSpec] returns, every LHS parameter
    whose spec along the dimension has more than one fragment has exactly
    two, with the same two counts as the spec returned, which is the spec
    of one of these parameters; and it returns no spec only if no LHS
    parameter has a spec of more than one fragment. *)
Theorem split_spec_agreement analysis idx r :
  GetLhsNoncontractingSplitSpec analysis idx = Ok r ->
  match r with
  | None =>
      forall q s, In q (ScopeParameters analysis LHS) ->
                  ~ has_split_spec analysis idx q s
  | Some spec =>
      (exists q, In q (ScopeParameters analysis LHS)
                 /\ has_split_spec analysis idx q spec)
      /\ forall q s, In q (ScopeParameters analysis LHS) ->
                     has_split_spec analysis idx q s ->
                     same_split_counts s spec
  end.
Proof.
  intros H.
  apply (split_spec_fold analysis idx (ScopeParameters analysis LHS) [] None r);
    [| exact H].
  intros q s [].
Qed.

(** ** Invariants of MatMulDims *)

(** X5.  A [MatMulDims] value that [MatMulDims::Create] returns has m and n of
    at least 1 and never both an output batch dimension and a split of
    the LHS non-contracting dimension.  Its output dimensions are ordered
    split-K (index 0, present iff the split factor exceeds 1), batch
    (right after it, present iff the dot has more batch dimensions than
    split-K ones), LHS non-contracting (rank - 2) and RHS non-contracting
    (rank - 1).  n is the count of the root's first fragment along the
    last output dimension; m and the split multiplier are the two counts
    of the LHS split spec when there is one, and otherwise m is the count
    of the root's first fragment along dimension rank - 2. *)
Theorem Create_invariants config dot analysis md :
  MatMulDims_Create config dot analysis = Ok md ->
  let dims := dot_dimension_numbers dot in
  let split := if split_k config >? 1 then 1 else 0 in
  let out_rank := rank (shape (dot_hlo dot)) in
  let root := root_instruction dot in
  1 <= m md /\ 1 <= n md
  /\ ~ (has_value (out_batch_dim_idx md) = true
        /\ has_value (lhs_noncontracting_split md) = true)
  /\ out_split_k_dim_idx md = (if split_k config >? 1 then Some 0 else None)
  /\ out_batch_dim_idx md
     = (if Z.of_nat (List.length (lhs_batch_dimensions dims)) >? split
        then Some split else None)
  /\ has_value (lhs_batch_dim_idx md) = has_value (out_batch_dim_idx md)
  /\ has_value (rhs_batch_dim_idx md) = has_value (out_batch_dim_idx md)
  /\ out_lhs_noncontracting_dim_idx md = out_rank - 2
  /\ out_rhs_noncontracting_dim_idx md = out_rank - 1
  /\ (exists f0 rest,
        IterSpec analysis OUTPUT root (out_rank - 1) = Some (f0 :: rest)
        /\ n md = count f0)
  /\ match lhs_noncontracting_split md with
     | Some s =>
         exists a b rest,
           GetLhsNoncontractingSplitSpec analysis
             (lhs_noncontracting_dim_idx md) = Ok (Some (a :: b :: rest))
           /\ m md = count a /\ s = count b
     | None =>
         GetLhsNoncontractingSplitSpec analysis
           (lhs_noncontracting_dim_idx md) = Ok None
         /\ exists f0 rest,
              IterSpec analysis OUTPUT root (out_rank - 2) = Some (f0 :: rest)
              /\ m md = count f0
     end.
Proof.
  intros H dims split out_rank root. unfold MatMulDims_Create in H.
  fold dims split out_rank root in H.
  apply bind_Ok_inv in H. destruct H as (lhs_c & _ & H).
  apply bind_Ok_inv in H. destruct H as (lhs_operand & _ & H).
  apply bind_Ok_inv in H. destruct H as (lhs_ncs & _ & H).
  apply bind_Ok_inv in H. destruct H as (lhs_nc & _ & H).
  apply bind_Ok_inv in H. destruct H as (rhs_c & _ & H).
  apply bind_Ok_inv in H. destruct H as (rhs_operand & _ & H).
  apply bind_Ok_inv in H. destruct H as (rhs_ncs & _ & H).
  apply bind_Ok_inv in H. destruct H as (rhs_nc & _ & H).
  apply bind_Ok_inv in H. destruct H as ([[lhs_b rhs_b] out_b] & Hbatch & H).
  destruct (IterSpec analysis OUTPUT root (out_rank - 1)) as [iter_spec |]
    eqn:Espec; [| discriminate H].
  apply bind_Ok_inv in H. destruct H as (f0 & Hf0 & H).
  apply bind_Ok_inv in H. destruct H as (k_ & _ & H).
  apply bind_Ok_inv in H. destruct H as (split_spec & Hss & H).
  apply bind_Ok_inv in H. destruct H as ([m_ lsplit] & Hm & H).
  apply TF_RET_CHECK_inv in H. destruct H as [Hex H].
  apply TF_RET_CHECK_inv in H. destruct H as [Hm1 H].
  apply TF_RET_CHECK_inv in H. destruct H as [Hn1 H].
  inversion H; subst md; clear H. cbn.
  assert (Hb : out_b = (if Z.of_nat (List.length (lhs_batch_dimensions dims))
                           >? split then Some split else None)
               /\ has_value lhs_b = has_value out_b
               /\ has_value rhs_b = has_value out_b).
  { destruct (Z.of_nat (List.length (lhs_batch_dimensions dims)) >? split).
    - apply bind_Ok_inv in Hbatch. destruct Hbatch as (lb & _ & Hbatch).
      apply bind_Ok_inv in Hbatch. destruct Hbatch as (rb & _ & Hbatch).
      inversion Hbatch; subst. repeat split.
    - inversion Hbatch; subst. repeat split. }
  destruct Hb as (Hb1 & Hb2 & Hb3).
  split; [lia |]. split; [lia |].
  split.
  { intros [H1 H2]. rewrite H1, H2 in Hex. discriminate Hex. }
  split; [reflexivity |]. split; [exact Hb1 |].
  split; [exact Hb2 |]. split; [exact Hb3 |].
  split; [reflexivity |]. split; [reflexivity |].
  split.
  { destruct iter_spec as [| g0 rest]; [discriminate Hf0 |].
    cbn in Hf0. inversion Hf0; subst g0. exists f0, rest. split; reflexivity. }
  destruct split_spec as [spec |].
  - apply bind_Ok_inv in Hm. destruct Hm as (s0 & Hs0 & Hm).
    apply bind_Ok_inv in Hm. destruct Hm as (s1 & Hs1 & Hm).
    inversion Hm; subst m_ lsplit.
    destruct spec as [| a [| b rest]]; try discriminate.
    cbn in Hs0, Hs1. inversion Hs0; inversion Hs1; subst.
    exists s0, s1, rest. repeat split. exact Hss.
  - apply bind_Ok_inv in Hm. destruct Hm as (spec & Hspec & Hm).
    apply bind_Ok_inv in Hm. destruct Hm as (s0 & Hs0 & Hm).
    inversion Hm; subst m_ lsplit.
    split; [exact Hss |].
    destruct (IterSpec analysis OUTPUT root (out_rank - 2)) as [sp |];
      [| discriminate Hspec].
    cbn in Hspec. inversion Hspec; subst sp.
    destruct spec as [| g0 rest]; [discriminate Hs0 |].
    cbn in Hs0. inversion Hs0; subst g0. exists s0, rest. split; reflexivity.
Qed.

(** ** The launch grid *)

(** X6.  Whenever the constructor of [MatMulLaunchConfig] returns (under the
    invariants of [launch_inputs_ok]), the axis the kernel reads the
    batch index from has extent batch_size, the axis it reads the flat
    tile index from has extent grid_m * grid_n, axis Z has the split
    factor as extent, the two axes differ, and the Y extent is below
    65536. *)
Theorem launch_grid_axes config dot dims bs lc :
  batch_size_of dot dims = Some bs ->
  launch_inputs_ok config dims bs ->
  MatMulLaunchConfig_init config dot dims = Ok lc ->
  let grid := block_counts (launch_dims lc) in
  dim3_extent grid (batch_program_id_dim lc) = bs
  /\ dim3_extent grid (noncontracting_program_id_dim lc)
     = grid_m lc * grid_n lc
  /\ dim3_extent grid PidZ = split_k config
  /\ batch_program_id_dim lc <> noncontracting_program_id_dim lc
  /\ batch_program_id_dim lc <> PidZ
  /\ noncontracting_program_id_dim lc <> PidZ
  /\ 0 <= dim3_extent grid PidY < 65536
  /\ thread_counts_per_block (launch_dims lc)
     = BlockDim (num_warps config * WarpSize) 1 1.
Proof.
  intros Hbs Hok H grid.
  rewrite (launch_config_value config dot dims bs Hbs Hok) in H.
  destruct Hok as (Hm & Hn & Hbm & Hbn & _ & _ & Hb0 & _).
  pose proof (ceil_div_bounds _ _ Hm Hbm) as Hgm.
  pose proof (ceil_div_bounds _ _ Hn Hbn) as Hgn.
  destruct (Z.leb_spec (65536 * 65536)
              (bs * ceil_div (m dims) (block_m config)
               * ceil_div (n dims) (block_n config))) as [| Hlt];
    [discriminate H |].
  inversion H; subst lc; clear H. subst grid. unfold planned_launch.
  set (gm := ceil_div (m dims) (block_m config)) in *.
  set (gn := ceil_div (n dims) (block_n config)) in *.
  destruct (Z.leb_spec 65536 bs); cbn;
    repeat split; try reflexivity; try discriminate; try nia.
Qed.

(** ** The tiling-complexity heuristic *)

Lemma heuristic_value_monotone config config' :
  tiling_in_range config ->
  0 < block_m config' <= block_m config ->
  0 < block_n config' <= block_n config ->
  0 < block_k config' <= block_k config ->
  num_warps config <= num_warps config' ->
  tiling_in_range config'
  /\ heuristic_value config' <= heuristic_value config.
Proof.
  intros (Hm & Hn & Hk & Hw & Hsum) Hm' Hn' Hk' Hw'.
  unfold tiling_in_range, heuristic_value, INT_MAX in *.
  set (t := block_m config * block_n config
            + (block_m config + block_n config) * block_k config) in *.
  set (t' := block_m config' * block_n config'
             + (block_m config' + block_n config') * block_k config') in *.
  assert (Ht : 0 <= t' <= t) by (unfold t, t'; nia).
  split; [repeat split; lia |].
  transitivity (t / num_warps config').
  - apply Z.div_le_mono; lia.
  - apply Z.div_le_compat_l; lia.
Qed.

(** X7.  A tiling that passes the complexity check still passes it after any
    block size is made smaller or the number of warps larger. *)
Theorem complexity_heuristic_monotone config config' :
  tiling_in_range config ->
  0 < block_m config' <= block_m config ->
  0 < block_n config' <= block_n config ->
  0 < block_k config' <= block_k config ->
  num_warps config <= num_warps config' ->
  CheckGemmTilingComplexityHeuristic config = Ok tt ->
  CheckGemmTilingComplexityHeuristic config' = Ok tt.
Proof.
  intros Hr Hm Hn Hk Hw.
  destruct (heuristic_value_monotone config config' Hr Hm Hn Hk Hw)
    as [Hr' Hle].
  unfold CheckGemmTilingComplexityHeuristic.
  rewrite (complexity_heuristic_value_spec config Hr).
  rewrite (complexity_heuristic_value_spec config' Hr').
  cbn [bind].
  destruct (Z.gtb_spec (heuristic_value config) kComplexityHeuristicLimit);
    [discriminate |].
  destruct (Z.gtb_spec (heuristic_value config') kComplexityHeuristicLimit);
    [lia | reflexivity].
Qed.

(** ** Arity of the cascading select *)

(** X8.  [EmitMultiSelect] returns a value exactly when there is one choice
    more than there are limits; the value has the type of the first
    choice.  In every other case, an empty list of choices included, it
    returns an internal error and reads no choice. *)
Theorem EmitMultiSelect_arity index limits choices :
  Z.of_nat (List.length choices) < 2 ^ 64 ->
  Z.of_nat (List.length limits) < 2 ^ 64 - 1 ->
  (List.length choices = S (List.length limits) ->
   exists c0 v,
     nth_error choices 0 = Some c0
     /\ EmitMultiSelect index limits choices = Ok v
     /\ getType v = getType c0)
  /\ (List.length choices <> S (List.length limits) ->
      EmitMultiSelect index limits choices
      = Err (InternalError "choices.size() - 1 == limits.size()")).
Proof.
  intros Hc Hl. unfold EmitMultiSelect, size_minus_one. split.
  - intros Hlen. destruct choices as [| c0 cs]; [discriminate Hlen |].
    exists c0, (multi_select_loop index limits cs c0).
    split; [reflexivity |].
    rewrite Hlen.
    replace (Z.of_nat (S (List.length limits)) - 1)
      with (Z.of_nat (List.length limits)) by lia.
    rewrite Z.mod_small by lia. rewrite Z.eqb_refl. cbn [TF_RET_CHECK bind].
    split; [reflexivity | apply multi_select_loop_type].
  - intros Hlen.
    assert (E : ((Z.of_nat (List.length choices) - 1) mod 2 ^ 64
                 =? Z.of_nat (List.length limits)) = false).
    { apply Z.eqb_neq. destruct choices as [| c0 cs].
      - cbn [List.length]. change (Z.of_nat 0 - 1) with (-1).
        change (-1 mod 2 ^ 64) with (2 ^ 64 - 1). lia.
      - cbn [List.length] in *. rewrite Z.mod_small by lia. lia. }
    rewrite E. reflexivity.
Qed.

(** ** Shape of the block pointer *)

Lemma add_dim_parts h hlo side ci d st st' :
  add_dim h hlo side ci d st = Ok st' ->
  match IterSpec (analysis_ h) (scope side) hlo (index d) with
  | None => st' = st
  | Some _ =>
      exists bound stride offset advance,
        bounds st' = bounds st ++ [bound]
        /\ strides st' = strides st ++ [stride]
        /\ tensor_offsets st' = tensor_offsets st ++ [offset]
        /\ block_dims st' = block_dims st ++ [block_size d]
        /\ dim_order st'
           = Z.of_nat (List.length (dim_order st)) :: dim_order st
        /\ block_offsets st' = block_offsets st ++ [advance]
  end.
Proof.
  unfold add_dim. intros H.
  destruct (IterSpec (analysis_ h) (scope side) hlo (index d));
    [| now inversion H].
  apply bind_Ok_inv in H. destruct H as (specs & _ & H).
  apply bind_Ok_inv in H. destruct H as (stride_value & _ & H).
  apply bind_Ok_inv in H. destruct H as (st1 & Hst1 & H).
  apply bind_Ok_inv in H. destruct H as (front & _ & H).
  apply bind_Ok_inv in H. destruct H as (f0 & _ & H).
  inversion H; subst st'; clear H. cbn.
  destruct (index d =? concat_dim_idx ci).
  - apply bind_Ok_inv in Hst1. destruct Hst1 as (offset_value & _ & Hst1).
    apply bind_Ok_inv in Hst1. destruct Hst1 as (bound_value & _ & Hst1).
    inversion Hst1; subst st1; cbn.
    eexists _, _, _, _. repeat split.
  - apply bind_Ok_inv in Hst1. destruct Hst1 as (front' & _ & Hst1).
    apply bind_Ok_inv in Hst1. destruct Hst1 as (f0' & _ & Hst1).
    apply bind_Ok_inv in Hst1. destruct Hst1 as (count_ & _ & Hst1).
    apply bind_Ok_inv in Hst1. destruct Hst1 as (r & _ & Hst1).
    inversion Hst1; subst st1; cbn.
    eexists _, _, _, _. repeat split.
Qed.

Lemma add_dims_parts h hlo side ci dims : forall st st',
  add_dims h hlo side ci dims st = Ok st' ->
  let axes := tiled_axes h hlo side dims in
  exists bs ss os adv,
    bounds st' = bounds st ++ bs /\ List.length bs = List.length axes
    /\ strides st' = strides st ++ ss /\ List.length ss = List.length axes
    /\ tensor_offsets st' = tensor_offsets st ++ os
    /\ List.length os = List.length axes
    /\ block_offsets st' = block_offsets st ++ adv
    /\ List.length adv = List.length axes
    /\ block_dims st'
       = block_dims st ++ map (fun ax => block_size (fst ax)) axes
    /\ dim_order st'
       = rev (map Z.of_nat (seq (List.length (dim_order st))
                                (List.length axes)))
         ++ dim_order st.
Proof.
  induction dims as [| d ds IH]; intros st st' H; cbn [add_dims] in H.
  - inversion H; subst st'. cbn. exists [], [], [], [].
    rewrite !app_nil_r. repeat split.
  - apply bind_Ok_inv in H. destruct H as (st1 & Hd & H).
    apply add_dim_parts in Hd.
    destruct (IH _ _ H) as (bs & ss & os & adv & Hb & Lb & Hs & Ls & Ho & Lo
                            & Ha & La & Hbd & Hdo).
    cbn [tiled_axes flat_map]. fold (tiled_axes h hlo side ds).
    destruct (IterSpec (analysis_ h) (scope side) hlo (index d)).
    + destruct Hd as (b & s & o & a & Eb & Es & Eo & Ebd & Edo & Ea).
      exists (b :: bs), (s :: ss), (o :: os), (a :: adv).
      rewrite Hb, Hs, Ho, Ha, Hbd, Hdo, Eb, Es, Eo, Ebd, Edo, Ea.
      cbn [app List.length map fst seq rev].
      rewrite <- !app_assoc. cbn [app].
      repeat split; try congruence.
    + subst st1. exists bs, ss, os, adv. cbn [app].
      repeat split; assumption.
Qed.

(** X9.  Whenever [EmitTensorPointer] returns, the pointer has one axis per
    tiled dimension the node has a spec for.  With no such dimension it
    is a plain pointer of the type of the first base (the load of a
    scalar).  Otherwise it is a block pointer advanced once: bounds,
    strides, tensor offsets and advance offsets number as many as the
    axes, the block shape lists the block sizes of the axes in order, and
    the dimension order is n-1, ..., 1, 0. *)
Theorem EmitTensorPointer_block_pointer h hlo side bases pk checks0 ptr checks :
  EmitTensorPointer h hlo side bases pk checks0 = Ok (ptr, checks) ->
  let axes := tiled_axes h hlo side (tiled_dims side) in
  let n := List.length axes in
  exists b0 base,
    nth_error bases 0 = Some b0
    /\ getType base = getType b0
    /\ match axes with
       | [] => ptr = base
       | _ =>
           exists bounds strides offsets advance,
             let tensor_ptr :=
               MakeTensorPtrOp base bounds strides offsets
                 (map (fun ax => block_size (fst ax)) axes)
                 (rev (map Z.of_nat (seq 0 n))) in
             ptr = AdvanceOp (getType tensor_ptr) tensor_ptr advance
             /\ List.length bounds = n /\ List.length strides = n
             /\ List.length offsets = n /\ List.length advance = n
       end.
Proof.
  intros H axes n.
  destruct (EmitTensorPointer_inv h hlo side bases pk checks0 ptr checks H)
    as (base0 & ci & st & base2 & Hbase & Hst & Hty & _ & Hptr).
  destruct (emit_base_inv h hlo side bases base0 ci Hbase)
    as (_ & b0 & rest & Hbases & Hty0).
  destruct (add_dims_parts h hlo side ci _ _ _ Hst)
    as (bs & ss & os & adv & Hb & Lb & Hs & Ls & Ho & Lo & Ha & La & Hbd & Hdo).
  cbn [empty_parts bounds strides tensor_offsets block_offsets block_dims
       dim_order app List.length] in Hb, Hs, Ho, Ha, Hbd, Hdo.
  rewrite app_nil_r in Hdo. fold axes in Lb, Ls, Lo, La, Hbd, Hdo.
  exists b0, base2. split; [now rewrite Hbases |].
  split; [congruence |].
  rewrite Hbd in Hptr.
  destruct axes as [| ax axes'] eqn:Eaxes; [exact Hptr |].
  cbn [map] in Hptr. cbn zeta in Hptr.
  exists bs, ss, os, adv.
  rewrite Hb, Hs, Ho, Ha, Hdo in Hptr.
  repeat split; assumption.
Qed.

(** ** Types of emitted constants, loads and reductions *)

(** X10.  [EmitConstant] returns only for a scalar constant whose element type
    [TritonType] covers, and then yields a scalar constant op of that
    type; for U64, which has a branch of its own, it dies in
    [TritonType] before the branch is reached. *)
Theorem EmitConstant_typed constant :
  (element_type (shape constant) = U64 -> EmitConstant constant = Abort)
  /\ (forall v,
        EmitConstant constant = Ok v ->
        IsScalarConstant constant = true
        /\ exists e a,
             TritonType (element_type (shape constant)) = Ok e
             /\ v = ConstantOp (ScalarType e) a).
Proof.
  unfold EmitConstant. split.
  - intros ->. reflexivity.
  - intros v H.
    apply bind_Ok_inv in H. destruct H as (e & He & H).
    assert (Hc : forall dst,
              (c <- ScalarConstantValue constant dst ;;
               CreateConst (ScalarType e) c) = Ok v ->
              IsScalarConstant constant = true
              /\ exists a, v = ConstantOp (ScalarType e) a).
    { intros dst Hd. apply bind_Ok_inv in Hd. destruct Hd as (c & Hs & Hd).
      unfold ScalarConstantValue, CHECK in Hs.
      destruct (IsScalarConstant constant); [| discriminate Hs].
      split; [reflexivity |].
      unfold CreateConst in Hd.
      apply bind_Ok_inv in Hd. destruct Hd as (a & _ & Hd).
      inversion Hd. now exists a. }
    destruct (IsInteger (shape constant));
      [destruct (PrimitiveType_eqb (element_type (shape constant)) U64) |];
      apply Hc in H; destruct H as (Hs & a & Hv);
      (split; [exact Hs | exists e, a; split; [exact He | exact Hv]]).
Qed.

(** X11.  [EmitParameterLoad] always yields a ranked tensor of the pointee's
    element type: the block itself for a block pointer, with the checks
    it is given, and for a pointer to a scalar a rank-0 splat of a load
    that carries no check and no padding, whatever checks are passed. *)
Theorem EmitParameterLoad_typed pointer pointee e checks :
  getType pointer = PointerType pointee ->
  element_of pointee = Some e ->
  exists v,
    EmitParameterLoad pointer checks = Ok v
    /\ match pointee with
       | RankedTensorType dims _ =>
           getType v = RankedTensorType dims e
           /\ v = LoadOp pointer checks
                    (match checks with [] => None | _ => Some PAD_ZERO end)
       | _ =>
           getType v = RankedTensorType [] e
           /\ v = SplatOp (RankedTensorType [] e) (LoadOp pointer [] None)
       end.
Proof.
  intros Hty He. unfold EmitParameterLoad, Splat. rewrite Hty.
  destruct pointee as [e' | dims e' | p]; cbn in He; inversion He; subst.
  - cbn. rewrite Hty. eexists. split; [reflexivity |]. split; reflexivity.
  - cbn. eexists. split; [reflexivity |]. cbn. rewrite Hty.
    split; reflexivity.
Qed.

Lemma drop_last_axis (s : list Z) :
  s <> [] ->
  drop_axis s (Z.of_nat (List.length s) - 1) = removelast s.
Proof.
  intros Hs. unfold drop_axis.
  replace (Z.to_nat (Z.of_nat (List.length s) - 1))
    with (List.length s - 1)%nat by lia.
  replace (S (List.length s - 1)) with (List.length s)
    by (destruct s; [contradiction | cbn; lia]).
  rewrite skipn_all, app_nil_r.
  clear Hs. induction s as [| x [| y s] IH]; [reflexivity | reflexivity |].
  cbn [List.length] in *.
  replace (S (S (List.length s)) - 1)%nat with (S (List.length s)) by lia.
  cbn [firstn]. cbn [removelast]. f_equal.
  replace (S (List.length s) - 1)%nat with (List.length s) in IH by lia.
  exact IH.
Qed.

Lemma back_nonempty (s : list Z) x : back s = Ok x -> s <> [].
Proof. intros H ->. discriminate H. Qed.

(** X12.  Whenever [EmitReduce] returns (on a tile of fewer than 2^31
    dimensions), the value is a ranked tensor whose shape is the shape of
    the input tile without its last axis, of rank 0 for a row tile, and
    whose element type is the Triton type of the reduce's result. *)
Theorem EmitReduce_result_type hlo_reduce input v :
  EmitReduce hlo_reduce input = Ok v ->
  exists input_shape e out_ty,
    getType input = RankedTensorType input_shape e
    /\ input_shape <> []
    /\ TritonType (element_type (shape hlo_reduce)) = Ok out_ty
    /\ (Z.of_nat (List.length input_shape) < 2 ^ 31 ->
        getType v = RankedTensorType (removelast input_shape) out_ty).
Proof.
  unfold EmitReduce. intros H.
  apply bind_Ok_inv in H. destruct H as (input_shape & Hshape & H).
  apply TF_RET_CHECK_inv in H. destruct H as [_ H].
  apply TF_RET_CHECK_inv in H. destruct H as [_ H].
  apply bind_Ok_inv in H. destruct H as (d0 & _ & H).
  apply bind_Ok_inv in H. destruct H as (operand0 & _ & H).
  apply TF_RET_CHECK_inv in H. destruct H as [_ H].
  apply bind_Ok_inv in H. destruct H as (last & Hlast & H).
  apply bind_Ok_inv in H. destruct H as (minor & _ & H).
  apply TF_RET_CHECK_inv in H. destruct H as [_ H].
  apply bind_Ok_inv in H. destruct H as (operand1 & _ & H).
  apply bind_Ok_inv in H. destruct H as (neutral & _ & H).
  apply bind_Ok_inv in H. destruct H as (masked & Hmask & H).
  apply bind_Ok_inv in H. destruct H as (casted & Hcast & H).
  apply bind_Ok_inv in H. destruct H as ([region_values to_emit] & _ & H).
  apply TF_RET_CHECK_inv in H. destruct H as [_ H].
  apply bind_Ok_inv in H. destruct H as (result & _ & H).
  apply bind_Ok_inv in H. destruct H as (result' & Hres & H).
  apply bind_Ok_inv in H. destruct H as (out_ty & Hout & H).
  unfold tensor_shape in Hshape.
  destruct (getType input) as [| s e |] eqn:Ein; try discriminate Hshape.
  inversion Hshape; subst s.
  pose proof (back_nonempty _ _ Hlast) as Hne.
  exists input_shape, e, out_ty.
  split; [reflexivity |]. split; [exact Hne |]. split; [exact Hout |].
  intros Hlen.
  assert (Hm : getType masked = RankedTensorType input_shape e).
  { unfold mask_input in Hmask.
    destruct (negb (int32 last =? int32 minor)).
    - apply bind_Ok_inv in Hmask. destruct Hmask as (sp & _ & Hmask).
      apply bind_Ok_inv in Hmask. destruct Hmask as (nn & _ & Hmask).
      inversion Hmask. cbn. exact Ein.
    - inversion Hmask; subst. exact Ein. }
  apply Cast_Ok_type in Hcast. rewrite Hm in Hcast. cbn in Hcast.
  apply Cast_Ok_type in H.
  assert (Hr : getType result' = RankedTensorType (removelast input_shape) f32).
  { set (axis := int32 (Z.of_nat (List.length input_shape)) - 1) in *.
    assert (Haxis : axis = Z.of_nat (List.length input_shape) - 1).
    { unfold axis. rewrite int32_fits by lia. reflexivity. }
    assert (Hred : getType (ReduceOp casted axis result)
                   = match removelast input_shape with
                     | [] => ScalarType f32
                     | s' => RankedTensorType s' f32
                     end).
    { cbn [getType]. rewrite Hcast, Haxis, (drop_last_axis _ Hne).
      reflexivity. }
    rewrite Hred in Hres.
    destruct (removelast input_shape) as [| x xs] eqn:Erl.
    - unfold Splat in Hres. rewrite Hred in Hres. inversion Hres. reflexivity.
    - inversion Hres; subst result'. exact Hred. }
  rewrite H, Hr. reflexivity.
Qed.

(** ** Loads and advances of the loop body *)

(** X13.  The storage type is never i1, and differs from the type only for
    i1.  When a loop-carried argument points to storage of the
    parameter's storage type, its load is a tensor of the parameter's
    type: the load itself for every type but i1, and for i1 the
    truncation to i1 of the loaded bytes. *)
Theorem iter_arg_load_storage scope_idx param_hlo iter_arg checks pointee
    param_ty :
  (if scope_idx =? kLhsMetaOperandIdx then Ok i16
   else TritonType (element_type (shape param_hlo))) = Ok param_ty ->
  getType iter_arg = PointerType pointee ->
  element_of pointee = Some (StorageType param_ty) ->
  StorageType param_ty <> i1
  /\ (StorageType param_ty = param_ty <-> param_ty <> i1)
  /\ exists load v,
       EmitParameterLoad iter_arg checks = Ok load
       /\ iter_arg_load scope_idx param_hlo iter_arg checks = Ok v
       /\ getType v = RankedTensorType (pointee_dims pointee) param_ty
       /\ (param_ty <> i1 -> v = load)
       /\ (param_ty = i1 ->
           v = TruncIOp (RankedTensorType (pointee_dims pointee) i1) load).
Proof.
  intros Hty Hptr Hel.
  split; [destruct param_ty; cbn; discriminate |].
  split; [destruct param_ty; cbn; split; intros H; congruence |].
  assert (Hload : exists load,
            EmitParameterLoad iter_arg checks = Ok load
            /\ getType load
               = RankedTensorType (pointee_dims pointee) (StorageType param_ty)).
  { unfold EmitParameterLoad, Splat. rewrite Hptr.
    destruct pointee as [e | dims e | p]; cbn in Hel; inversion Hel; subst.
    - cbn. rewrite Hptr. eexists. split; reflexivity.
    - cbn. eexists. split; [reflexivity |]. cbn. rewrite Hptr. reflexivity. }
  destruct Hload as (load & Hload & Hlt).
  exists load. unfold iter_arg_load. rewrite Hty, Hload. cbn [bind].
  destruct (ElementType_eqb param_ty (StorageType param_ty)) eqn:E.
  - apply ElementType_eqb_eq in E. cbn [negb].
    assert (Hne : param_ty <> i1).
    { intros ->. discriminate E. }
    exists load. split; [reflexivity |]. split; [reflexivity |].
    split; [rewrite Hlt, <- E; reflexivity |].
    split; [reflexivity | contradiction].
  - assert (param_ty = i1) as ->.
    { destruct param_ty; try reflexivity; discriminate E. }
    cbn [negb]. change (StorageType i1) with i8 in Hlt.
    assert (He : element_of (getType load) = Some i8) by now rewrite Hlt.
    assert (Hc : Cast load i1
                 = Ok (TruncIOp (RankedTensorType (pointee_dims pointee) i1)
                                load)).
    { unfold Cast. rewrite He, (MlirType_eqb_with_element _ _ i1 He).
      cbn [ElementType_eqb]. unfold Cast_from.
      rewrite He, (MlirType_eqb_with_element _ _ i1 He). cbn.
      rewrite Hlt. reflexivity. }
    rewrite Hc. eexists. split; [reflexivity |]. split; [reflexivity |].
    split; [reflexivity |]. split; [congruence | reflexivity].
Qed.

Lemma iter_arg_increments_axes h hlo side scope_idx split_k : forall tiled,
  (forall d spec,
     In d tiled ->
     IterSpec (analysis_ h) (scope side) hlo (index d) = Some spec ->
     exists f0 rest, spec = f0 :: rest /\ stride f0 <> 0) ->
  iter_arg_increments (analysis_ h) side hlo scope_idx (dims_ h) split_k tiled
  = Ok (map (fun ax =>
               if index (fst ax) =? advancing_dim scope_idx (dims_ h)
               then c32 (mul32 (block_size (fst ax)) split_k)
               else c32 0)
            (tiled_axes h hlo side tiled)).
Proof.
  induction tiled as [| d ds IH]; intros Hstride; [reflexivity |].
  cbn [iter_arg_increments tiled_axes flat_map].
  fold (tiled_axes h hlo side ds).
  rewrite IH by (intros d' spec Hin; apply Hstride; now right).
  destruct (IterSpec (analysis_ h) (scope side) hlo (index d)) as [spec |]
    eqn:Espec; cbn [bind app map].
  - destruct (Hstride d spec (or_introl eq_refl) Espec)
      as (f0 & rest & -> & Hne).
    change (at_ (f0 :: rest) 0) with (Ok f0). cbn [bind].
    apply Z.eqb_neq in Hne. rewrite Hne. cbn [bind fst].
    unfold advancing_dim. reflexivity.
  - reflexivity.
Qed.

(** X14.  When every spec the node has along a tiled dimension starts with a
    fragment of non-zero stride, the loop advances a loop-carried pointer
    by one offset per axis of the block pointer [EmitTensorPointer]
    builds for the node: block_size * split_k along the contracting
    dimension of the side and 0 along every other axis.  A pointer
    without axes is carried over unchanged. *)
Theorem iter_arg_advance_matches_pointer h hlo side scope_idx split_k iter_arg :
  (forall d spec,
     In d (tiled_dims side) ->
     IterSpec (analysis_ h) (scope side) hlo (index d) = Some spec ->
     exists f0 rest, spec = f0 :: rest /\ stride f0 <> 0) ->
  let axes := tiled_axes h hlo side (tiled_dims side) in
  let increments :=
    map (fun ax =>
           if index (fst ax) =? advancing_dim scope_idx (dims_ h)
           then c32 (mul32 (block_size (fst ax)) split_k)
           else c32 0) axes in
  iter_arg_increments (analysis_ h) side hlo scope_idx (dims_ h) split_k
    (tiled_dims side) = Ok increments
  /\ List.length increments = List.length axes
  /\ iter_arg_next (analysis_ h) side hlo scope_idx (dims_ h) split_k iter_arg
     = Ok (match axes with
           | [] => iter_arg
           | _ => AdvanceOp (getType iter_arg) iter_arg increments
           end).
Proof.
  intros Hstride axes increments.
  pose proof (iter_arg_increments_axes h hlo side scope_idx split_k
                (tiled_dims side) Hstride) as Hinc.
  fold axes in Hinc. fold increments in Hinc.
  split; [exact Hinc |].
  split; [unfold increments; apply length_map |].
  unfold iter_arg_next. rewrite Hinc. cbn [bind].
  unfold increments. destruct axes; reflexivity.
Qed.

(** ** Kernel arguments of a scope input *)

Lemma operand_arguments_spec fn : forall ops args,
  operand_arguments fn ops = Ok args ->
  List.length args = List.length ops
  /\ forall j op, nth_error ops j = Some op ->
       exists ty, at_ fn (parameter_number op) = Ok ty
                  /\ nth_error args j
                     = Some (FuncArgument (parameter_number op) ty).
Proof.
  induction ops as [| op rest IH]; intros args H; cbn [operand_arguments] in H.
  - inversion H; subst. split; [reflexivity |].
    intros [| j] op' Hn; discriminate Hn.
  - apply bind_Ok_inv in H. destruct H as (a & Ha & H).
    apply bind_Ok_inv in H. destruct H as (more & Hmore & H).
    inversion H; subst args; clear H.
    destruct (IH _ Hmore) as [Hlen Hnth].
    split; [cbn; now rewrite Hlen |].
    intros [| j] op' Hn; cbn in Hn.
    + inversion Hn; subst op'. unfold getArgument in Ha.
      apply bind_Ok_inv in Ha. destruct Ha as (ty & Hty & Ha).
      inversion Ha; subst a. exists ty. split; [exact Hty | reflexivity].
    + exact (Hnth _ _ Hn).
Qed.

(** X15.  The arguments [GetArguments] returns for a scope input are what
    [EmitTensorPointer] expects as bases: the one function argument of a
    parameter, and for a concatenation one function argument per operand,
    in operand order, so that the size check on the bases passes. *)
Theorem GetArguments_bases fn input args :
  GetArguments fn input = Ok args ->
  (opcode input = kParameter \/ opcode input = kConcatenate)
  /\ (opcode input = kParameter ->
      exists ty, at_ fn (parameter_number input) = Ok ty
                 /\ args = [FuncArgument (parameter_number input) ty])
  /\ (opcode input = kConcatenate ->
      Z.of_nat (List.length args) = operand_count input
      /\ forall j op, nth_error (operands input) j = Some op ->
           exists ty, at_ fn (parameter_number op) = Ok ty
                      /\ nth_error args j
                         = Some (FuncArgument (parameter_number op) ty)).
Proof.
  unfold GetArguments. intros H.
  destruct (HloOpcode_eqb (opcode input) kParameter) eqn:Ep.
  - apply HloOpcode_eqb_eq in Ep.
    split; [now left |]. split.
    + intros _. apply bind_Ok_inv in H. destruct H as (a & Ha & H).
      unfold getArgument in Ha.
      apply bind_Ok_inv in Ha. destruct Ha as (ty & Hty & Ha).
      inversion Ha; subst a. inversion H; subst args.
      exists ty. split; [exact Hty | reflexivity].
    + intros Hc. congruence.
  - destruct (HloOpcode_eqb (opcode input) kConcatenate) eqn:Ec;
      [| discriminate H].
    apply HloOpcode_eqb_eq in Ec.
    split; [now right |]. split.
    + intros Hp. congruence.
    + intros _. destruct (operand_arguments_spec fn _ _ H) as [Hlen Hnth].
      split; [unfold operand_count; now rewrite Hlen | exact Hnth].
Qed.

(** ** The emulated dots and the choice between them *)

Lemma TruncateToBF16TowardsZero_f32 x dims :
  getType x = RankedTensorType dims f32 ->
  exists t, TruncateToBF16TowardsZero x = Ok t
            /\ getType t = RankedTensorType dims f32.
Proof.
  intros H. unfold TruncateToBF16TowardsZero, shaped_type. rewrite H. cbn.
  eexists. split; reflexivity.
Qed.

Lemma SoftMiddleEight_f32 x dims :
  getType x = RankedTensorType dims f32 ->
  exists s, SoftMiddleEight x = Ok s
            /\ getType s = RankedTensorType dims f32.
Proof.
  intros H. unfold SoftMiddleEight.
  destruct (TruncateToBF16TowardsZero_f32 x dims H) as (t & -> & _).
  cbn. eexists. split; [reflexivity | exact H].
Qed.

Lemma SoftLowEight_f32 x dims :
  getType x = RankedTensorType dims f32 ->
  exists s, SoftLowEight x = Ok s
            /\ getType s = RankedTensorType dims f32.
Proof.
  intros H. unfold SoftLowEight.
  destruct (SoftMiddleEight_f32 x dims H) as (m & -> & Hm).
  cbn [bind]. apply SoftMiddleEight_f32. exact Hm.
Qed.

Lemma RoundToBF16_f32 x dims :
  getType x = RankedTensorType dims f32 ->
  exists r, RoundToBF16 x = Ok r
            /\ getType r = RankedTensorType dims bf16.
Proof.
  intros H. unfold RoundToBF16.
  assert (He : element_of (getType x) = Some f32) by now rewrite H.
  destruct (Cast_typed x f32 bf16 He) as (r & Hr & Ht).
  exists r. split; [exact Hr |]. rewrite Ht, H. reflexivity.
Qed.

Lemma check_f32_pass v dims what :
  getType v = RankedTensorType dims f32 -> check_f32 v what = Ok tt.
Proof. intros H. unfold check_f32, shaped_type. rewrite H. reflexivity. Qed.

Lemma check_f32_fail v dims e what :
  getType v = RankedTensorType dims e -> e <> f32 ->
  check_f32 v what = Err (InternalError what).
Proof.
  intros H Hne. unfold check_f32, shaped_type. rewrite H. cbn.
  destruct e; try reflexivity. contradiction.
Qed.

Lemma Emit6x_total lhs rhs acc dl dr da :
  getType lhs = RankedTensorType dl f32 ->
  getType rhs = RankedTensorType dr f32 ->
  getType acc = RankedTensorType da f32 ->
  exists v, Emit6xBfloat16MatMul lhs rhs acc = Ok v
            /\ getType v = getType acc.
Proof.
  intros Hl Hr Ha. unfold Emit6xBfloat16MatMul.
  rewrite (check_f32_pass lhs dl _ Hl), (check_f32_pass rhs dr _ Hr),
          (check_f32_pass acc da _ Ha).
  cbn [bind].
  destruct (TruncateToBF16TowardsZero_f32 lhs dl Hl) as (t1 & -> & T1).
  cbn [bind].
  destruct (RoundToBF16_f32 t1 dl T1) as (lhs_high & -> & _). cbn [bind].
  destruct (SoftMiddleEight_f32 lhs dl Hl) as (s1 & -> & S1). cbn [bind].
  destruct (TruncateToBF16TowardsZero_f32 s1 dl S1) as (t2 & -> & T2).
  cbn [bind].
  destruct (RoundToBF16_f32 t2 dl T2) as (lhs_middle & -> & _). cbn [bind].
  destruct (SoftLowEight_f32 lhs dl Hl) as (s2 & -> & S2). cbn [bind].
  destruct (TruncateToBF16TowardsZero_f32 s2 dl S2) as (t3 & -> & T3).
  cbn [bind].
  destruct (RoundToBF16_f32 t3 dl T3) as (lhs_low & -> & _). cbn [bind].
  destruct (TruncateToBF16TowardsZero_f32 rhs dr Hr) as (t4 & -> & T4).
  cbn [bind].
  destruct (RoundToBF16_f32 t4 dr T4) as (rhs_high & -> & _). cbn [bind].
  destruct (SoftMiddleEight_f32 rhs dr Hr) as (s3 & -> & S3). cbn [bind].
  destruct (TruncateToBF16TowardsZero_f32 s3 dr S3) as (t5 & -> & T5).
  cbn [bind].
  destruct (RoundToBF16_f32 t5 dr T5) as (rhs_middle & -> & _). cbn [bind].
  destruct (SoftLowEight_f32 rhs dr Hr) as (s4 & -> & S4). cbn [bind].
  destruct (TruncateToBF16TowardsZero_f32 s4 dr S4) as (t6 & -> & T6).
  cbn [bind].
  destruct (RoundToBF16_f32 t6 dr T6) as (rhs_low & -> & _). cbn [bind].
  rewrite (ZerosLike_f32 acc da Ha). cbn [bind].
  rewrite (guard_non_finite_Ok _ da) by reflexivity. cbn [bind].
  eexists. split; reflexivity.
Qed.

Lemma Emit3x_total lhs rhs acc dl dr da :
  getType lhs = RankedTensorType dl f32 ->
  getType rhs = RankedTensorType dr f32 ->
  getType acc = RankedTensorType da f32 ->
  exists v, Emit3xBfloat16MatMul lhs rhs acc = Ok v
            /\ getType v = getType acc.
Proof.
  intros Hl Hr Ha. unfold Emit3xBfloat16MatMul.
  rewrite (check_f32_pass lhs dl _ Hl), (check_f32_pass rhs dr _ Hr),
          (check_f32_pass acc da _ Ha).
  cbn [bind].
  destruct (TruncateToBF16TowardsZero_f32 lhs dl Hl) as (t1 & -> & T1).
  cbn [bind].
  destruct (RoundToBF16_f32 t1 dl T1) as (lhs_high & -> & _). cbn [bind].
  destruct (SoftMiddleEight_f32 lhs dl Hl) as (s1 & -> & S1). cbn [bind].
  destruct (RoundToBF16_f32 s1 dl S1) as (lhs_low & -> & _). cbn [bind].
  destruct (TruncateToBF16TowardsZero_f32 rhs dr Hr) as (t4 & -> & T4).
  cbn [bind].
  destruct (RoundToBF16_f32 t4 dr T4) as (rhs_high & -> & _). cbn [bind].
  destruct (SoftMiddleEight_f32 rhs dr Hr) as (s3 & -> & S3). cbn [bind].
  destruct (RoundToBF16_f32 s3 dr S3) as (rhs_low & -> & _). cbn [bind].
  rewrite (ZerosLike_f32 acc da Ha). cbn [bind].
  rewrite (guard_non_finite_Ok _ da) by reflexivity. cbn [bind].
  eexists. split; reflexivity.
Qed.

Lemma emulation_rejects lhs rhs acc dl el dr er da ea :
  getType lhs = RankedTensorType dl el ->
  getType rhs = RankedTensorType dr er ->
  getType acc = RankedTensorType da ea ->
  ~ (el = f32 /\ er = f32 /\ ea = f32) ->
  (exists what,
     Emit6xBfloat16MatMul lhs rhs acc = Err (InternalError what))
  /\ (exists what,
        Emit3xBfloat16MatMul lhs rhs acc = Err (InternalError what)).
Proof.
  intros Hl Hr Ha Hn. unfold Emit6xBfloat16MatMul, Emit3xBfloat16MatMul.
  destruct (ElementType_eqb el f32) eqn:E1.
  - apply ElementType_eqb_eq in E1. subst el.
    rewrite !(check_f32_pass lhs dl _ Hl). cbn [bind].
    destruct (ElementType_eqb er f32) eqn:E2.
    + apply ElementType_eqb_eq in E2. subst er.
      rewrite !(check_f32_pass rhs dr _ Hr). cbn [bind].
      assert (ea <> f32) as Hne by (intros ->; apply Hn; auto).
      rewrite !(check_f32_fail acc da ea _ Ha Hne). cbn [bind].
      split; eexists; reflexivity.
    + assert (er <> f32) as Hne.
      { intros ->. discriminate E2. }
      rewrite !(check_f32_fail rhs dr er _ Hr Hne). cbn [bind].
      split; eexists; reflexivity.
  - assert (el <> f32) as Hne.
    { intros ->. discriminate E1. }
    rewrite !(check_f32_fail lhs dl el _ Hl Hne). cbn [bind].
    split; eexists; reflexivity.
Qed.

(** X16.  On three tensors, either emulation returns a value, of the type of
    the accumulator, exactly when all three have element type f32; in
    every other case it returns an internal error. *)
Theorem emulated_dot_f32_only lhs rhs acc dl el dr er da ea :
  getType lhs = RankedTensorType dl el ->
  getType rhs = RankedTensorType dr er ->
  getType acc = RankedTensorType da ea ->
  (el = f32 /\ er = f32 /\ ea = f32 ->
   (exists v, Emit6xBfloat16MatMul lhs rhs acc = Ok v
              /\ getType v = getType acc)
   /\ (exists v, Emit3xBfloat16MatMul lhs rhs acc = Ok v
                 /\ getType v = getType acc))
  /\ (~ (el = f32 /\ er = f32 /\ ea = f32) ->
      (exists what,
         Emit6xBfloat16MatMul lhs rhs acc = Err (InternalError what))
      /\ (exists what,
            Emit3xBfloat16MatMul lhs rhs acc = Err (InternalError what))).
Proof.
  intros Hl Hr Ha. split.
  - intros (-> & -> & ->). split.
    + exact (Emit6x_total lhs rhs acc dl dr da Hl Hr Ha).
    + exact (Emit3x_total lhs rhs acc dl dr da Hl Hr Ha).
  - intros Hn. exact (emulation_rejects lhs rhs acc _ _ _ _ _ _ Hl Hr Ha Hn).
Qed.

Lemma both_f32_true lhs rhs dl dr :
  getType lhs = RankedTensorType dl f32 ->
  getType rhs = RankedTensorType dr f32 ->
  both_f32 lhs rhs = Ok true.
Proof.
  intros Hl Hr. unfold both_f32, shaped_type. rewrite Hl, Hr. reflexivity.
Qed.

Lemma none_of_not_default ps :
  negb (existsb (fun p => negb (Precision_eqb p DEFAULT)) ps)
  = forallb (fun p => Precision_eqb p DEFAULT) ps.
Proof.
  induction ps as [| p ps IH]; [reflexivity |].
  cbn [existsb forallb]. rewrite <- IH.
  destruct (Precision_eqb p DEFAULT); reflexivity.
Qed.

(** X17.  With no algorithm set and f32 tiles as dot inputs and accumulator,
    the next accumulator is always emitted: by the 6-term emulation when
    its flag is on, whether or not the 3-term flag is on too; else by the
    3-term emulation when its flag is on; else by a single dot that
    allows TF32 only if TF32 execution is enabled, every operand
    precision is the default one and the dot is not an 8-bit-or-less one
    converted to F32. *)
Theorem accumulator_next_choice pc options narrow lhs rhs acc dl dr da :
  getType lhs = RankedTensorType dl f32 ->
  getType rhs = RankedTensorType dr f32 ->
  getType acc = RankedTensorType da f32 ->
  algorithm pc = ALG_UNSET ->
  (exists v, accumulator_next pc options narrow lhs rhs acc = Ok v
             /\ getType v = getType acc)
  /\ accumulator_next pc options narrow lhs rhs acc
     = if xla_gpu_enable_bf16_6way_gemm options
       then Emit6xBfloat16MatMul lhs rhs acc
       else if xla_gpu_enable_bf16_3way_gemm options
       then Emit3xBfloat16MatMul lhs rhs acc
       else Ok (DotOp lhs rhs acc
                  (tensor_float_32_execution_enabled
                   && forallb (fun p => Precision_eqb p DEFAULT)
                              (operand_precision pc)
                   && negb narrow) 0).
Proof.
  intros Hl Hr Ha Halg.
  destruct (Emit6x_total lhs rhs acc dl dr da Hl Hr Ha) as (v6 & H6 & T6).
  destruct (Emit3x_total lhs rhs acc dl dr da Hl Hr Ha) as (v3 & H3 & T3).
  assert (Heq : accumulator_next pc options narrow lhs rhs acc
     = if xla_gpu_enable_bf16_6way_gemm options
       then Emit6xBfloat16MatMul lhs rhs acc
       else if xla_gpu_enable_bf16_3way_gemm options
       then Emit3xBfloat16MatMul lhs rhs acc
       else Ok (DotOp lhs rhs acc
                  (tensor_float_32_execution_enabled
                   && forallb (fun p => Precision_eqb p DEFAULT)
                              (operand_precision pc)
                   && negb narrow) 0)).
  { unfold accumulator_next, Is6xBfloat16MatMul, Is3xBfloat16MatMul,
      IsTf32Allowed.
    rewrite Halg, (both_f32_true lhs rhs dl dr Hl Hr), none_of_not_default.
    destruct (xla_gpu_enable_bf16_6way_gemm options); cbn [bind].
    - rewrite H6. reflexivity.
    - destruct (xla_gpu_enable_bf16_3way_gemm options); cbn [bind].
      + rewrite H3. reflexivity.
      + reflexivity. }
  split; [| exact Heq].
  rewrite Heq.
  destruct (xla_gpu_enable_bf16_6way_gemm options); [now exists v6 |].
  destruct (xla_gpu_enable_bf16_3way_gemm options); [now exists v3 |].
  eexists. split; reflexivity.
Qed.

(** X18.  An explicitly set algorithm overrides the two flags: the 6-term and
    3-term algorithms select their emulation, any other algorithm a
    single dot whose TF32 permission comes from the algorithm.  A
    selected emulation that rejects its inputs, as it does for a tensor
    input that is not f32, ends the process. *)
Theorem accumulator_next_explicit pc options narrow lhs rhs acc :
  (algorithm pc = ALG_DOT_BF16_BF16_F32_X6 ->
   accumulator_next pc options narrow lhs rhs acc
   = value (Emit6xBfloat16MatMul lhs rhs acc))
  /\ (algorithm pc = ALG_DOT_BF16_BF16_F32_X3 ->
      accumulator_next pc options narrow lhs rhs acc
      = value (Emit3xBfloat16MatMul lhs rhs acc))
  /\ (forall id, algorithm pc = OtherAlgorithm id ->
      accumulator_next pc options narrow lhs rhs acc
      = Ok (DotOp lhs rhs acc
              (HasTf32InputType (OtherAlgorithm id) && negb narrow) 0))
  /\ (forall dl el dr er da ea,
        algorithm pc = ALG_DOT_BF16_BF16_F32_X6
        \/ algorithm pc = ALG_DOT_BF16_BF16_F32_X3 ->
        getType lhs = RankedTensorType dl el ->
        getType rhs = RankedTensorType dr er ->
        getType acc = RankedTensorType da ea ->
        ~ (el = f32 /\ er = f32 /\ ea = f32) ->
        accumulator_next pc options narrow lhs rhs acc = Abort).
Proof.
  assert (H6 : algorithm pc = ALG_DOT_BF16_BF16_F32_X6 ->
               accumulator_next pc options narrow lhs rhs acc
               = value (Emit6xBfloat16MatMul lhs rhs acc)).
  { intros Halg.
    unfold accumulator_next, Is6xBfloat16MatMul. rewrite Halg. reflexivity. }
  assert (H3 : algorithm pc = ALG_DOT_BF16_BF16_F32_X3 ->
               accumulator_next pc options narrow lhs rhs acc
               = value (Emit3xBfloat16MatMul lhs rhs acc)).
  { intros Halg.
    unfold accumulator_next, Is6xBfloat16MatMul, Is3xBfloat16MatMul.
    rewrite Halg. reflexivity. }
  split; [exact H6 |]. split; [exact H3 |]. split.
  - intros id Halg.
    unfold accumulator_next, Is6xBfloat16MatMul, Is3xBfloat16MatMul,
      IsTf32Allowed.
    rewrite Halg. reflexivity.
  - intros dl el dr er da ea Halg Hl Hr Ha Hn.
    destruct (emulation_rejects lhs rhs acc _ _ _ _ _ _ Hl Hr Ha Hn)
      as ((w6 & E6) & (w3 & E3)).
    destruct Halg as [Halg | Halg].
    + rewrite (H6 Halg), E6. reflexivity.
    + rewrite (H3 Halg), E3. reflexivity.
Qed.

(** ** The accumulator *)

(** X19.  The accumulator type [GetDotAccumulatorType] returns is always
    a float type.  With no algorithm set it returns only if the two dot
    operands have the same element type, and the accumulator is f64
    exactly when both the operands and the result of the dot are f64,
    and f32 in every other case.  The initial accumulator is a block_m
    by block_n tile of that type filled with zeros. *)
Theorem accumulator_type_and_init pc dot config ty :
  GetDotAccumulatorType pc dot = Ok ty ->
  isFloat ty = true
  /\ (algorithm pc = ALG_UNSET ->
      exists out_ty in_ty lhs rhs,
        TritonType (element_type (shape (dot_hlo dot))) = Ok out_ty
        /\ operand (dot_hlo dot) 0 = Ok lhs
        /\ operand (dot_hlo dot) 1 = Ok rhs
        /\ TritonType (element_type (shape lhs)) = Ok in_ty
        /\ TritonType (element_type (shape rhs)) = Ok in_ty
        /\ (out_ty = f64 /\ in_ty = f64 -> ty = f64)
        /\ (~ (out_ty = f64 /\ in_ty = f64) -> ty = f32))
  /\ exists init,
       accumulator_init pc dot config = Ok init
       /\ getType init
          = RankedTensorType [block_m config; block_n config] ty
       /\ forall env,
            eval env init
            = Some (VTensor [block_m config; block_n config]
                      (repeat (SFloat (S754_zero false))
                         (num_elements [block_m config; block_n config]))).
Proof.
  intros H.
  assert (Hf : isFloat ty = true).
  { unfold GetDotAccumulatorType in H.
    destruct (algorithm pc).
    - apply bind_Ok_inv in H. destruct H as (out_ty & _ & H).
      apply bind_Ok_inv in H. destruct H as (lhs & _ & H).
      apply bind_Ok_inv in H. destruct H as (lhs_ty & _ & H).
      apply bind_Ok_inv in H. destruct H as (rhs & _ & H).
      apply bind_Ok_inv in H. destruct H as (rhs_ty & _ & H).
      apply bind_Ok_inv in H. destruct H as (? & _ & H).
      inversion H.
      destruct (ElementType_eqb out_ty f64 && ElementType_eqb lhs_ty f64);
        reflexivity.
    - apply bind_Ok_inv in H. destruct H as (a & _ & H).
      apply bind_Ok_inv in H. destruct H as (t & _ & H).
      destruct (isFloat t) eqn:E; inversion H; subst; exact E.
    - apply bind_Ok_inv in H. destruct H as (a & _ & H).
      apply bind_Ok_inv in H. destruct H as (t & _ & H).
      destruct (isFloat t) eqn:E; inversion H; subst; exact E.
    - apply bind_Ok_inv in H. destruct H as (a & _ & H).
      apply bind_Ok_inv in H. destruct H as (t & _ & H).
      destruct (isFloat t) eqn:E; inversion H; subst; exact E. }
  split; [exact Hf |]. split.
  - intros Halg. unfold GetDotAccumulatorType in H. rewrite Halg in H.
    apply bind_Ok_inv in H. destruct H as (out_ty & Hout & H).
    apply bind_Ok_inv in H. destruct H as (lhs & Hlhs & H).
    apply bind_Ok_inv in H. destruct H as (lhs_ty & Hlt & H).
    apply bind_Ok_inv in H. destruct H as (rhs & Hrhs & H).
    apply bind_Ok_inv in H. destruct H as (rhs_ty & Hrt & H).
    apply bind_Ok_inv in H. destruct H as (? & Hchk & H).
    unfold CHECK in Hchk.
    destruct (ElementType_eqb lhs_ty rhs_ty) eqn:E; [| discriminate Hchk].
    apply ElementType_eqb_eq in E. subst rhs_ty.
    exists out_ty, lhs_ty, lhs, rhs.
    repeat (split; [assumption |]).
    inversion H as [Hty]. split.
    + intros [-> ->]. reflexivity.
    + intros Hn.
      destruct (ElementType_eqb out_ty f64) eqn:E1;
        destruct (ElementType_eqb lhs_ty f64) eqn:E2; try reflexivity.
      exfalso. apply Hn. split; now apply ElementType_eqb_eq.
  - unfold accumulator_init. rewrite H. cbn [bind].
    unfold CreateConstTensor, const_attr.
    assert (isInteger ty = false) as -> by (unfold isInteger; now rewrite Hf).
    cbn [bind]. eexists. split; [reflexivity |]. split; [reflexivity |].
    intros env. cbn [eval const_scalar]. rewrite Hf.
    cbn [option_map]. reflexivity.
Qed.

(** ** Broadcast of a tile *)

Lemma skipn_nth_error {A} (l : list A) : forall n x,
  nth_error l n = Some x -> skipn n l = x :: skipn (S n) l.
Proof.
  induction l as [| y l IH]; intros [| n] x H; try discriminate.
  - cbn in H. inversion H. reflexivity.
  - cbn in H. cbn [skipn]. now apply IH.
Qed.

Lemma insert_axis_at_end (done todo : list Z) :
  insert_axis (done ++ todo) (Z.of_nat (List.length done))
  = (done ++ [1]) ++ todo.
Proof.
  unfold insert_axis. rewrite Nat2Z.id.
  rewrite firstn_app, firstn_all, Nat.sub_diag, firstn_O, app_nil_r.
  rewrite skipn_app, skipn_all, Nat.sub_diag. cbn [skipn app].
  rewrite <- app_assoc. reflexivity.
Qed.

Lemma tiled_broadcast_loop_inv dimensions input_tile_shape e :
  forall rest id st st' done,
    0 <= input_dim_id st ->
    tileType (expanded_input st)
    = RankedTensorType
        (done ++ padded_tile_shape
                   (skipn (Z.to_nat (input_dim_id st)) input_tile_shape)) e ->
    expanded_input_dim_id st = Z.of_nat (List.length done) ->
    tiled_broadcast_loop dimensions input_tile_shape rest id st = Ok st' ->
    let kept := kept_dims dimensions rest id in
    exists done',
      tileType (expanded_input st')
      = RankedTensorType
          (done ++ done'
           ++ padded_tile_shape
                (skipn (Z.to_nat (input_dim_id st')) input_tile_shape)) e
      /\ broadcastable done' (padded_tile_shape rest)
      /\ input_dim_id st' = input_dim_id st + Z.of_nat (List.length kept)
      /\ firstn (List.length kept)
                (skipn (Z.to_nat (input_dim_id st)) input_tile_shape)
         = kept.
Proof.
  induction rest as [| tile rest IH]; intros id st st' done Hi Hty Hp H.
  - cbn in H. inversion H; subst st'. exists []. cbn.
    split; [exact Hty |]. split; [constructor |]. split; [lia | reflexivity].
  - cbn [tiled_broadcast_loop kept_dims] in *.
    destruct (is_broadcasted_dim dimensions id) eqn:Eb; cbn [app].
    + destruct (Z.eqb_spec tile 1) as [-> | Hne].
      * destruct (IH _ _ _ done Hi Hty Hp H) as (done' & H1 & H2 & H3 & H4).
        exists done'. unfold padded_tile_shape at 2. cbn [filter Z.eqb negb].
        repeat split; assumption.
      * set (st1 := mkTiledBroadcastState _ _ _) in H.
        assert (Hty1 : tileType (expanded_input st1)
                       = RankedTensorType
                           ((done ++ [1])
                            ++ padded_tile_shape
                                 (skipn (Z.to_nat (input_dim_id st1))
                                        input_tile_shape)) e).
        { unfold st1. cbn [expanded_input input_dim_id tileType].
          rewrite Hty, Hp. rewrite insert_axis_at_end. reflexivity. }
        assert (Hp1 : expanded_input_dim_id st1
                      = Z.of_nat (List.length (done ++ [1]))).
        { unfold st1. cbn [expanded_input_dim_id].
          rewrite length_app. cbn [List.length]. lia. }
        destruct (IH (id + 1) st1 st' (done ++ [1]) Hi Hty1 Hp1 H)
          as (done' & H1 & H2 & H3 & H4).
        exists (1 :: done'). rewrite H1, <- app_assoc. cbn [app].
        split; [reflexivity |]. split; [| split; assumption].
        unfold padded_tile_shape. cbn [filter].
        apply Z.eqb_neq in Hne. rewrite Hne. cbn [negb map].
        constructor; [now left | exact H2].
    + apply bind_Ok_inv in H. destruct H as (input_tile & Hat & H).
      apply bind_Ok_inv in H. destruct H as (? & Hchk & H).
      unfold CHECK in Hchk.
      destruct (Z.eqb_spec input_tile tile) as [-> | ?]; [| discriminate Hchk].
      apply at_Ok_inv in Hat. destruct Hat as [_ Hnth].
      pose proof (skipn_nth_error _ _ _ Hnth) as Hskip.
      replace (S (Z.to_nat (input_dim_id st)))
        with (Z.to_nat (input_dim_id st + 1)) in Hskip by lia.
      set (st1 := mkTiledBroadcastState _ _ _) in H.
      assert (Hi1 : 0 <= input_dim_id st1) by (unfold st1; cbn; lia).
      cbn [List.length]. rewrite Hskip. cbn [firstn].
      destruct (Z.eqb_spec tile 1) as [-> | Hne].
      * assert (Hty1 : tileType (expanded_input st1)
                       = RankedTensorType
                           (done
                            ++ padded_tile_shape
                                 (skipn (Z.to_nat (input_dim_id st1))
                                        input_tile_shape)) e).
        { unfold st1. cbn [expanded_input input_dim_id].
          rewrite Hty, Hskip. reflexivity. }
        assert (Hp1 : expanded_input_dim_id st1 = Z.of_nat (List.length done)).
        { unfold st1. cbn. exact Hp. }
        destruct (IH (id + 1) st1 st' done Hi1 Hty1 Hp1 H)
          as (done' & H1 & H2 & H3 & H4).
        exists done'. split; [exact H1 |]. split; [exact H2 |].
        unfold st1 in H3, H4. cbn [input_dim_id] in H3, H4.
        split; [lia |]. f_equal. exact H4.
      * assert (Hpad : padded_tile_shape (tile :: skipn (Z.to_nat (input_dim_id st + 1)) input_tile_shape)
                       = PowerOf2Ceil tile
                         :: padded_tile_shape (skipn (Z.to_nat (input_dim_id st + 1)) input_tile_shape)).
        { unfold padded_tile_shape. cbn [filter].
          apply Z.eqb_neq in Hne. rewrite Hne. reflexivity. }
        assert (Hty1 : tileType (expanded_input st1)
                       = RankedTensorType
                           ((done ++ [PowerOf2Ceil tile])
                            ++ padded_tile_shape
                                 (skipn (Z.to_nat (input_dim_id st1))
                                        input_tile_shape)) e).
        { unfold st1. cbn [expanded_input input_dim_id].
          rewrite Hty, Hskip, Hpad, <- app_assoc. reflexivity. }
        assert (Hp1 : expanded_input_dim_id st1
                      = Z.of_nat (List.length (done ++ [PowerOf2Ceil tile]))).
        { unfold st1. cbn [expanded_input_dim_id negb].
          rewrite length_app. cbn [List.length]. lia. }
        destruct (IH (id + 1) st1 st' _ Hi1 Hty1 Hp1 H)
          as (done' & H1 & H2 & H3 & H4).
        exists (PowerOf2Ceil tile :: done').
        rewrite H1, <- app_assoc. cbn [app].
        split; [reflexivity |].
        unfold st1 in H3, H4. cbn [input_dim_id] in H3, H4.
        split; [| split; [lia | f_equal; exact H4]].
        unfold padded_tile_shape. cbn [filter].
        apply Z.eqb_neq in Hne. rewrite Hne. cbn [negb map].
        constructor; [now right | exact H2].
Qed.

(** X20.  Whenever [EmitTiledBroadcast] returns on an operand value that holds
    the operand's tile (dimensions of size 1 left out, the others padded)
    and an operand tile with as many dimensions as the broadcast keeps,
    the operand tile sizes are the output tile sizes of the kept
    dimensions, and the result is a broadcast to the padded output tile
    shape of a value of the same rank in which every dimension is either
    1 or the dimension of the result. *)
Theorem tiled_broadcast_well_shaped input_tile_shape output_tile_shape
    dimensions input e result :
  getType input = RankedTensorType (padded_tile_shape input_tile_shape) e ->
  List.length input_tile_shape
  = List.length (kept_dims dimensions output_tile_shape 0) ->
  EmitTiledBroadcast input_tile_shape output_tile_shape dimensions input
  = Ok result ->
  input_tile_shape = kept_dims dimensions output_tile_shape 0
  /\ exists expanded src_shape,
       result = BroadcastOp
                  (RankedTensorType (padded_tile_shape output_tile_shape) e)
                  expanded
       /\ tileType expanded = RankedTensorType src_shape e
       /\ List.length src_shape
          = List.length (padded_tile_shape output_tile_shape)
       /\ broadcastable src_shape (padded_tile_shape output_tile_shape).
Proof.
  intros Hty Hlen H. unfold EmitTiledBroadcast in H.
  apply bind_Ok_inv in H. destruct H as (st & Hloop & H).
  set (st0 := mkTiledBroadcastState (Plain input) 0 0) in Hloop.
  assert (H0 : 0 <= input_dim_id st0) by (cbn; lia).
  destruct (tiled_broadcast_loop_inv dimensions input_tile_shape e
              output_tile_shape 0 st0 st [] H0 Hty eq_refl Hloop)
    as (done' & H1 & H2 & H3 & H4).
  subst st0. cbn [input_dim_id app skipn Z.to_nat] in H1, H3, H4.
  change (Z.to_nat 0) with 0%nat in H4. cbn [skipn] in H4.
  rewrite <- Hlen, firstn_all in H4.
  split; [exact H4 |].
  rewrite H3 in H1. rewrite <- Hlen in H1.
  replace (Z.to_nat (0 + Z.of_nat (List.length input_tile_shape)))
    with (List.length input_tile_shape) in H1 by lia.
  rewrite skipn_all in H1. unfold padded_tile_shape at 1 in H1.
  cbn [filter map] in H1. rewrite app_nil_r in H1.
  unfold Broadcast in H. rewrite H1 in H. inversion H; subst result.
  exists (expanded_input st), done'.
  split; [reflexivity |]. split; [exact H1 |].
  split; [exact (Forall2_length H2) | exact H2].
Qed.

Lemma positive_stride_Ok analysis scope_ hlo dim p :
  positive_stride analysis scope_ hlo dim = Ok p ->
  p = has_positive_stride analysis scope_ hlo dim.
Proof.
  unfold positive_stride, has_positive_stride.
  destruct (IterSpec analysis scope_ hlo (index dim)) as [[| f0 rest] |];
    cbn; intros H; inversion H; reflexivity.
Qed.

Lemma broadcast_out_shape_Ok analysis scope_ broadcast : forall tiled out,
  broadcast_out_shape analysis scope_ broadcast tiled = Ok out ->
  out = broadcast_result_shape analysis scope_ broadcast tiled.
Proof.
  unfold broadcast_result_shape.
  induction tiled as [| dim rest IH]; intros out H;
    cbn [broadcast_out_shape] in H.
  - now inversion H.
  - apply bind_Ok_inv in H. destruct H as (p & Hp & H).
    apply bind_Ok_inv in H. destruct H as (more & Hmore & H).
    apply positive_stride_Ok in Hp. apply IH in Hmore. subst p more.
    inversion H; subst out. cbn [filter].
    destruct (has_positive_stride analysis scope_ broadcast dim); reflexivity.
Qed.

Lemma broadcast_expand_inv analysis scope_ broadcast operand0 e :
  operand broadcast 0 = Ok operand0 ->
  forall tiled expanded dim_idx result done,
    Z.of_nat (List.length done) + Z.of_nat (List.length tiled) < 2 ^ 31 ->
    tileType expanded
    = RankedTensorType
        (done ++ broadcast_operand_shape analysis scope_ broadcast operand0
                   tiled) e ->
    dim_idx = Z.of_nat (List.length done) ->
    broadcast_expand analysis scope_ broadcast tiled expanded dim_idx
    = Ok result ->
    exists done',
      tileType result = RankedTensorType (done ++ done') e
      /\ broadcastable done'
           (broadcast_result_shape analysis scope_ broadcast tiled).
Proof.
  intros Hop. unfold broadcast_operand_shape, broadcast_result_shape.
  induction tiled as [| dim rest IH];
    intros expanded dim_idx result done Hlen Hty Hidx H;
    cbn [broadcast_expand] in H.
  - inversion H; subst result. exists []. cbn in Hty.
    split; [exact Hty | constructor].
  - apply bind_Ok_inv in H. destruct H as (p & Hp & H).
    apply positive_stride_Ok in Hp. subst p.
    cbn [filter] in *. cbn [List.length] in Hlen.
    destruct (has_positive_stride analysis scope_ broadcast dim);
      cbn [andb] in *.
    + rewrite Hop in H. cbn [bind] in H.
      assert (Hnext : add32 dim_idx 1 = Z.of_nat (List.length done) + 1).
      { unfold add32. rewrite int32_fits by lia. lia. }
      destruct (IterSpec analysis scope_ operand0 (index dim));
        cbn [has_value map] in *.
      * assert (Hty' : tileType expanded
                       = RankedTensorType
                           ((done ++ [block_size dim])
                            ++ map block_size
                                 (filter (fun dim0 =>
                                    has_positive_stride analysis scope_
                                      broadcast dim0
                                    && has_value
                                         (IterSpec analysis scope_ operand0
                                            (index dim0))) rest)) e).
        { rewrite Hty, <- app_assoc. reflexivity. }
        destruct (IH expanded (add32 dim_idx 1) result
                    (done ++ [block_size dim])
                    ltac:(rewrite length_app; cbn [List.length]; lia) Hty'
                    ltac:(rewrite length_app; cbn [List.length]; lia) H)
          as (done' & H1 & H2).
        exists (block_size dim :: done').
        split; [rewrite H1, <- app_assoc; reflexivity |].
        constructor; [now right | exact H2].
      * assert (Hty' : tileType (ExpandDimsOp expanded dim_idx)
                       = RankedTensorType
                           ((done ++ [1])
                            ++ map block_size
                                 (filter (fun dim0 =>
                                    has_positive_stride analysis scope_
                                      broadcast dim0
                                    && has_value
                                         (IterSpec analysis scope_ operand0
                                            (index dim0))) rest)) e).
        { cbn [tileType]. rewrite Hty, Hidx, insert_axis_at_end.
          reflexivity. }
        destruct (IH (ExpandDimsOp expanded dim_idx) (add32 dim_idx 1) result
                    (done ++ [1])
                    ltac:(rewrite length_app; cbn [List.length]; lia) Hty'
                    ltac:(rewrite length_app; cbn [List.length]; lia) H)
          as (done' & H1 & H2).
        exists (1 :: done').
        split; [rewrite H1, <- app_assoc; reflexivity |].
        constructor; [now left | exact H2].
    + apply (IH expanded dim_idx result done ltac:(lia) Hty Hidx H).
Qed.

(** X21.  Whenever [EmitBroadcast] returns, the result is a tensor whose shape
    lists the block sizes of the tiled dimensions along which the
    broadcast has a positive stride: a splat of a scalar input; and for a
    tensor input that has one dimension, of the block size, for each of
    these dimensions the operand has a spec for, either the input itself,
    when that is all of them, or a broadcast of a value of the same rank
    in which every dimension is 1 or the dimension of the result.
    It returns only when it is given an analysis. *)
Theorem EmitBroadcast_shape analysis scope_ tiled broadcast input result :
  Z.of_nat (List.length tiled) < 2 ^ 31 ->
  EmitBroadcast analysis scope_ tiled broadcast input = Ok result ->
  exists a,
    analysis = Some a
    /\ let out_shape := broadcast_result_shape a scope_ broadcast tiled in
       (forall e, getType input = ScalarType e ->
          result = Plain (SplatOp (RankedTensorType out_shape e) input))
       /\ (forall operand0 e,
             operand broadcast 0 = Ok operand0 ->
             getType input
             = RankedTensorType
                 (broadcast_operand_shape a scope_ broadcast operand0 tiled)
                 e ->
             tileType result = RankedTensorType out_shape e
             /\ (result = Plain input
                 \/ exists expanded src_shape,
                      result = BroadcastOp (RankedTensorType out_shape e)
                                 expanded
                      /\ tileType expanded = RankedTensorType src_shape e
                      /\ broadcastable src_shape out_shape)).
Proof.
  intros Hlen H. unfold EmitBroadcast in H.
  destruct analysis as [a |]; [| discriminate H].
  exists a. split; [reflexivity |]. intros out_shape.
  apply bind_Ok_inv in H. destruct H as (out & Hout & H).
  apply broadcast_out_shape_Ok in Hout. fold out_shape in Hout. subst out.
  split.
  - intros e He. rewrite He in H. unfold Splat in H. rewrite He in H.
    cbn in H. now inversion H.
  - intros operand0 e Hop He. rewrite He in H.
    destruct (Z.eqb_spec
                (Z.of_nat (List.length
                   (broadcast_operand_shape a scope_ broadcast operand0 tiled)))
                (Z.of_nat (List.length out_shape))) as [Heq | Hne].
    + inversion H; subst result. split; [| now left].
      cbn [tileType]. rewrite He. f_equal.
      unfold out_shape, broadcast_result_shape, broadcast_operand_shape in *.
      rewrite !length_map in Heq. apply Nat2Z.inj in Heq.
      clear - Heq. induction tiled as [| dim rest IH]; [reflexivity |].
      cbn [filter] in *.
      destruct (has_positive_stride a scope_ broadcast dim); cbn [andb] in *;
        [| now apply IH].
      destruct (has_value (IterSpec a scope_ operand0 (index dim))).
      * cbn [map List.length] in *. f_equal. apply IH. lia.
      * exfalso. cbn [List.length] in Heq.
        pose proof (filter_length_le
                      (fun dim0 =>
                         has_positive_stride a scope_ broadcast dim0
                         && has_value (IterSpec a scope_ operand0 (index dim0)))
                      rest) as Hle1.
        assert (Hle2 :
          (List.length (filter (fun dim0 =>
                         has_positive_stride a scope_ broadcast dim0
                         && has_value (IterSpec a scope_ operand0 (index dim0)))
                      rest)
           <= List.length (filter (has_positive_stride a scope_ broadcast)
                                  rest))%nat).
        { clear. induction rest as [| d r IHr]; [cbn; lia |].
          cbn [filter].
          destruct (has_positive_stride a scope_ broadcast d); cbn [andb];
            [| exact IHr].
          destruct (has_value (IterSpec a scope_ operand0 (index d)));
            cbn [List.length]; lia. }
        lia.
    + apply bind_Ok_inv in H. destruct H as (expanded & Hexp & H).
      destruct (broadcast_expand_inv a scope_ broadcast operand0 e Hop tiled
                  (Plain input) 0 expanded [] ltac:(cbn; lia)
                  ltac:(cbn [tileType app]; exact He) eq_refl Hexp)
        as (done' & H1 & H2).
      cbn [app] in H1. unfold Broadcast in H. rewrite H1 in H.
      inversion H; subst result. split; [reflexivity |].
      right. exists expanded, done'. repeat split; assumption.
Qed.

(** ** The grid the runtime launches *)

(** X22.  Whenever [EmitMatMul] completes, the remainder of the function ran
    on a prologue whose launch configuration, the one the program ids
    are derived from and the emitter helper holds, has the launch
    dimensions [GetMatMulLaunchDimensions] reports for the same analysis,
    dot and configuration.  Without a dot in the fusion
    [GetMatMulLaunchDimensions] returns an internal error. *)
Theorem launch_dimensions_agree analysis dot config body :
  EmitMatMul analysis dot config body = Ok tt ->
  GetMatMulLaunchDimensions analysis None config
  = Err (InternalError "dot != std::nullopt")
  /\ exists p,
       body p = Ok tt
       /\ MatMulDims_Create config dot analysis = Ok (prologue_dims p)
       /\ MatMulLaunchConfig_init config dot (prologue_dims p)
          = Ok (prologue_launch_config p)
       /\ GetMatMulLaunchDimensions analysis (Some dot) config
          = Ok (launch_dims (prologue_launch_config p))
       /\ ids p = program_ids config (prologue_launch_config p)
       /\ launch_config_ (emitter p) = prologue_launch_config p
       /\ dims_ (emitter p) = prologue_dims p.
Proof.
  intros H. split; [reflexivity |].
  unfold EmitMatMul in H.
  apply bind_Ok_inv in H. destruct H as (? & _ & H).
  apply bind_Ok_inv in H. destruct H as (use64 & _ & H).
  apply bind_Ok_inv in H. destruct H as (? & _ & H).
  apply bind_Ok_inv in H. destruct H as (narrow & _ & H).
  apply bind_Ok_inv in H. destruct H as (? & _ & H).
  apply bind_Ok_inv in H. destruct H as (dims & Hdims & H).
  apply bind_Ok_inv in H. destruct H as (lc & Hlc & H).
  eexists. split; [exact H |]. cbn.
  unfold GetMatMulLaunchDimensions. rewrite Hdims. cbn [bind]. rewrite Hlc.
  repeat split; assumption.
Qed.

(** ** The result of the compilation *)

(** X23.  A result [CompileTritonToLLVM] returns holds a shared-memory size
    that, on a CUDA device, does not exceed the opt-in limit per block,
    and cluster dimensions only if the configuration asks for more than
    one CTA and some dimension of the cluster exceeds 1; with at most one
    CTA the cluster is 1 by 1 by 1.  A size above the limit on a CUDA
    device yields a resource-exhaustion status before the translation to
    LLVM IR is attempted. *)
Theorem compile_result_limits is_cuda shared optin translate_and_link config
    cluster_info :
  (forall r,
     CompileTritonToLLVM_result is_cuda shared optin translate_and_link config
       cluster_info = Ok r ->
     shmem_bytes r = int32 shared
     /\ (is_cuda = true -> shmem_bytes r <= optin)
     /\ translate_and_link = Ok tt
     /\ (forall x y z,
           cluster_dim r = Some (mkClusterDim x y z) ->
           1 < num_ctas config /\ (1 < x \/ 1 < y \/ 1 < z)
           /\ cluster_info = mkClusterInfo x y z)
     /\ (num_ctas config <= 1 ->
         cluster_dim r = None /\ cluster_info = mkClusterInfo 1 1 1))
  /\ (is_cuda = true -> optin < int32 shared ->
      CompileTritonToLLVM_result is_cuda shared optin translate_and_link
        config cluster_info
      = Err (ResourceExhausted
               "Shared memory size limit exceeded: requested %d, available: %d"
               [int32 shared; optin])).
Proof.
  split.
  - intros r H. unfold CompileTritonToLLVM_result in H.
    apply bind_Ok_inv in H. destruct H as (bytes & Hb & H).
    apply bind_Ok_inv in H. destruct H as ([] & Ht & H).
    apply bind_Ok_inv in H. destruct H as (cd & Hcd & H).
    inversion H; subst r; clear H. cbn [shmem_bytes cluster_dim].
    unfold shared_memory_check in Hb.
    destruct (is_cuda && (int32 shared >? optin)) eqn:E; [discriminate Hb |].
    inversion Hb; subst bytes.
    split; [reflexivity |]. split.
    { intros ->. cbn in E. lia. }
    split; [exact Ht |].
    unfold result_cluster_dim in Hcd.
    destruct cluster_info as [cx cy cz]. cbn in Hcd.
    destruct (Z.gtb_spec (num_ctas config) 1) as [Hn | Hn].
    + split; [| lia].
      intros dx dy dz ->.
      destruct ((cx >? 1) || (cy >? 1) || (cz >? 1)) eqn:Ec;
        inversion Hcd; subst.
      split; [lia |]. split; [lia | reflexivity].
    + apply bind_Ok_inv in Hcd. destruct Hcd as (u & Hchk & Hcd).
      inversion Hcd; subst cd.
      split; [intros dx dy dz Hd; discriminate Hd |].
      intros _. split; [reflexivity |].
      apply TF_RET_CHECK_Ok_inv in Hchk.
      apply andb_true_iff in Hchk. destruct Hchk as [Hxy Hz].
      apply andb_true_iff in Hxy. destruct Hxy as [Hx Hy].
      apply Z.eqb_eq in Hx, Hy, Hz. now subst.
  - intros -> Hgt. unfold CompileTritonToLLVM_result, shared_memory_check.
    assert ((int32 shared >? optin) = true) as -> by lia.
    reflexivity.
Qed.

(** ** The instructions of the epilogue *)

Lemma same_instruction_sym a b : same_instruction a b = same_instruction b a.
Proof. apply String.eqb_sym. Qed.

Lemma same_instruction_name a b :
  same_instruction a b = true <-> name a = name b.
Proof. apply String.eqb_eq. Qed.

Lemma contains_name set hlo :
  contains set hlo = true <-> In (name hlo) (map name set).
Proof.
  unfold contains. rewrite existsb_exists, in_map_iff. split.
  - intros (x & Hin & Hs). exists x. apply same_instruction_name in Hs.
    split; [symmetry; exact Hs | exact Hin].
  - intros (x & Hn & Hin). exists x. split; [exact Hin |].
    apply same_instruction_name. symmetry. exact Hn.
Qed.

Lemma contains_same set a b :
  same_instruction a b = true -> contains set a = contains set b.
Proof.
  intros H. apply same_instruction_name in H.
  apply eq_true_iff_eq. rewrite !contains_name, H. reflexivity.
Qed.

Lemma contains_app s t hlo :
  contains (s ++ t) hlo = contains s hlo || contains t hlo.
Proof. apply existsb_app. Qed.

Lemma contains_cons c set hlo :
  contains (c :: set) hlo = same_instruction hlo c || contains set hlo.
Proof. reflexivity. Qed.

Lemma contains_In set hlo : In hlo set -> contains set hlo = true.
Proof.
  intros H. apply contains_name. apply in_map. exact H.
Qed.

Lemma hlo_size_operands h : hlo_size h = S (queue_size (operands h)).
Proof. destruct h; reflexivity. Qed.

Lemma queue_size_app s t :
  queue_size (s ++ t) = (queue_size s + queue_size t)%nat.
Proof. unfold queue_size. rewrite map_app. apply list_sum_app. Qed.

Lemma queue_size_filter p l : (queue_size (filter p l) <= queue_size l)%nat.
Proof.
  unfold queue_size.
  induction l as [| a l IH]; cbn [filter map list_sum fold_right]; [lia |].
  unfold list_sum in IH.
  destruct (p a); cbn [filter map list_sum fold_right]; lia.
Qed.

Lemma epilogue_step_size dot_instr to_order current rest :
  (S (queue_size (rest ++ epilogue_pushed dot_instr to_order current))
   <= queue_size (current :: rest))%nat.
Proof.
  rewrite queue_size_app. unfold epilogue_pushed.
  pose proof (queue_size_filter
                (fun operand =>
                   negb (contains to_order operand)
                   && negb (same_instruction operand dot_instr))
                (operands current)) as H.
  change (queue_size (current :: rest))
    with (hlo_size current + queue_size rest)%nat.
  rewrite hlo_size_operands. lia.
Qed.

(** The loop finishes within as many iterations as the operand trees of
    the queue have instructions. *)
Lemma epilogue_collect_fuel dot_instr : forall fuel to_add to_order,
  (queue_size to_add <= fuel)%nat ->
  exists r, epilogue_collect fuel dot_instr to_add to_order = Some r.
Proof.
  induction fuel as [| fuel IH]; intros to_add to_order Hf.
  - destruct to_add as [| current rest]; [eexists; reflexivity |].
    exfalso. change (queue_size (current :: rest))
      with (hlo_size current + queue_size rest)%nat in Hf.
    rewrite hlo_size_operands in Hf. lia.
  - destruct to_add as [| current rest]; [eexists; reflexivity |].
    cbn [epilogue_collect].
    destruct (contains to_order current); [eexists; reflexivity |].
    apply IH.
    pose proof (epilogue_step_size dot_instr to_order current rest). lia.
Qed.

Lemma epilogue_collect_inv dot_instr : forall fuel to_add to_order res,
  epilogue_collect fuel dot_instr to_add to_order = Some (Ok res) ->
  epilogue_inv dot_instr to_add to_order ->
  epilogue_inv dot_instr [] res
  /\ (forall h, contains to_order h = true \/ contains to_add h = true ->
                contains res h = true).
Proof.
  induction fuel as [| fuel IH]; intros to_add to_order res Hrun Hinv.
  - destruct to_add as [| current rest]; [| discriminate Hrun].
    cbn in Hrun. inversion Hrun; subst res. split; [exact Hinv |].
    intros h [H | H]; [exact H | discriminate H].
  - destruct to_add as [| current rest].
    + cbn in Hrun. inversion Hrun; subst res. split; [exact Hinv |].
      intros h [H | H]; [exact H | discriminate H].
    + cbn [epilogue_collect] in Hrun.
      destruct (contains to_order current) eqn:Ecur; [discriminate Hrun |].
      destruct Hinv as (Hnd & Hdot & Hq & Hclosed).
      assert (Hcd : same_instruction dot_instr current = false
                    /\ contains rest dot_instr = false).
      { rewrite contains_cons in Hq. apply orb_false_iff in Hq. exact Hq. }
      destruct Hcd as (Hcd & Hrd).
      destruct (IH _ _ _ Hrun) as (Hfinal & Hmono).
      { split; [| split; [| split]].
        - cbn [map]. constructor; [| exact Hnd].
          intros Hin. apply contains_name in Hin. congruence.
        - rewrite contains_cons, Hcd, Hdot. reflexivity.
        - rewrite contains_app, Hrd. cbn [orb].
          unfold contains, epilogue_pushed.
          apply not_true_is_false. intros H.
          apply existsb_exists in H. destruct H as (x & Hx & Hs).
          apply filter_In in Hx. destruct Hx as (_ & Hx).
          apply andb_true_iff in Hx. destruct Hx as (_ & Hx).
          rewrite same_instruction_sym in Hs. rewrite Hs in Hx.
          discriminate Hx.
        - intros c operand Hc Hop Hnot.
          destruct Hc as [Hc | Hc].
          + subst c.
            destruct (contains to_order operand) eqn:Eop.
            * left. rewrite contains_cons, Eop. apply orb_true_r.
            * right. rewrite contains_app. apply orb_true_iff. right.
              apply contains_In. unfold epilogue_pushed.
              apply filter_In. split; [exact Hop |].
              rewrite Eop, Hnot. reflexivity.
          + destruct (Hclosed c operand Hc Hop Hnot) as [H | H].
            * left. rewrite contains_cons, H. apply orb_true_r.
            * rewrite contains_cons in H. apply orb_true_iff in H.
              destruct H as [H | H].
              -- left. rewrite contains_cons, H. reflexivity.
              -- right. rewrite contains_app, H. reflexivity. }
      split; [exact Hfinal |].
      intros h [H | H].
      * apply Hmono. left. rewrite contains_cons, H. apply orb_true_r.
      * rewrite contains_cons in H. apply orb_true_iff in H.
        destruct H as [H | H].
        -- apply Hmono. left. rewrite contains_cons, H. reflexivity.
        -- apply Hmono. right. rewrite contains_app, H. reflexivity.
Qed.

(** A queue in which an instruction stands twice, or one that is
    collected already, ends the process. *)
Lemma epilogue_collect_dies dot_instr : forall fuel to_add to_order,
  (queue_size to_add <= fuel)%nat ->
  ~ NoDup (map name to_add)
  \/ (exists e, In e to_add /\ contains to_order e = true) ->
  epilogue_collect fuel dot_instr to_add to_order = Some Abort.
Proof.
  induction fuel as [| fuel IH]; intros to_add to_order Hf Hbad.
  - destruct to_add as [| current rest].
    + exfalso. destruct Hbad as [H | (e & [] & _)]. apply H. constructor.
    + exfalso. change (queue_size (current :: rest))
        with (hlo_size current + queue_size rest)%nat in Hf.
      rewrite hlo_size_operands in Hf. lia.
  - destruct to_add as [| current rest].
    + exfalso. destruct Hbad as [H | (e & [] & _)]. apply H. constructor.
    + cbn [epilogue_collect].
      destruct (contains to_order current) eqn:Ecur; [reflexivity |].
      apply IH.
      { pose proof (epilogue_step_size dot_instr to_order current rest).
        lia. }
      destruct Hbad as [Hdup | (e & [He | He] & Hc)].
      * destruct (in_dec string_dec (name current) (map name rest))
          as [Hin | Hnin].
        -- right. apply in_map_iff in Hin. destruct Hin as (e & Hn & He).
           exists e. split; [apply in_or_app; left; exact He |].
           rewrite contains_cons. apply orb_true_iff. left.
           apply same_instruction_name. exact Hn.
        -- left. intros Hnd. apply Hdup. cbn. constructor; [exact Hnin |].
           rewrite map_app in Hnd. apply NoDup_app_remove_r in Hnd.
           exact Hnd.
      * subst e. congruence.
      * right. exists e. split; [apply in_or_app; left; exact He |].
        rewrite contains_cons, Hc. apply orb_true_r.
Qed.

Lemma duplicate_names_filter p (l : list HloInstruction) i j a b :
  i <> j ->
  nth_error l i = Some a -> nth_error l j = Some b ->
  p a = true -> p b = true -> name a = name b ->
  ~ NoDup (map name (filter p l)).
Proof.
  revert i j a b.
  assert (H : forall i j a b, (i < j)%nat ->
            nth_error l i = Some a -> nth_error l j = Some b ->
            p a = true -> p b = true -> name a = name b ->
            ~ NoDup (map name (filter p l))).
  { intros i j a b Hlt Ha Hb Hpa Hpb Hn Hnd.
    apply nth_error_split in Ha. destruct Ha as (l1 & l2 & Hl & Hlen).
    subst l. rewrite nth_error_app2 in Hb by lia.
    replace (j - List.length l1)%nat with (S (j - S i)) in Hb by lia.
    cbn in Hb. apply nth_error_In in Hb.
    rewrite filter_app in Hnd. cbn in Hnd. rewrite Hpa in Hnd.
    rewrite map_app in Hnd. cbn in Hnd.
    apply NoDup_remove_2 in Hnd. apply Hnd.
    apply in_or_app. right. rewrite Hn. apply in_map.
    apply filter_In. split; assumption. }
  intros i j a b Hne Ha Hb Hpa Hpb Hn.
  destruct (Nat.lt_total i j) as [Hlt | [Heq | Hgt]].
  - exact (H i j a b Hlt Ha Hb Hpa Hpb Hn).
  - contradiction.
  - exact (H j i b a Hgt Hb Ha Hpb Hpa (eq_sym Hn)).
Qed.

(** X24.  Given as many iterations as the operand tree of the root has
    instructions, [EpiloguePostOrderTransitiveOperands] finishes.  For
    the dot as root it returns nothing to emit.  Whenever it returns, the
    instructions to emit are those of the post order, in that order, that
    are in a set of instructions with distinct names that holds the root
    (unless it is the dot), does not hold the dot, and holds every operand
    of its members other than the dot. *)
Theorem epilogue_operands_closed fuel dot_instr root post_order :
  (hlo_size root <= fuel)%nat ->
  exists r,
    EpiloguePostOrderTransitiveOperands fuel dot_instr root post_order
    = Some r
    /\ (same_instruction root dot_instr = true -> r = Ok [])
    /\ forall to_emit,
         r = Ok to_emit ->
         exists to_order,
           to_emit = filter (contains to_order) post_order
           /\ NoDup (map name to_order)
           /\ (same_instruction root dot_instr = false ->
               contains to_order root = true)
           /\ contains to_order dot_instr = false
           /\ Forall (fun h => same_instruction h dot_instr = false) to_emit
           /\ forall c operand,
                In c to_order -> In operand (operands c) ->
                same_instruction operand dot_instr = false ->
                contains to_order operand = true.
Proof.
  intros Hf. unfold EpiloguePostOrderTransitiveOperands.
  set (to_add := if same_instruction root dot_instr then [] else [root]).
  assert (Hsize : (queue_size to_add <= fuel)%nat).
  { subst to_add. destruct (same_instruction root dot_instr).
    - cbn. lia.
    - unfold queue_size. cbn. lia. }
  destruct (epilogue_collect_fuel dot_instr fuel to_add [] Hsize) as (r & Hr).
  rewrite Hr. eexists. split; [reflexivity |]. split.
  - intros Eroot. subst to_add. rewrite Eroot in Hr.
    assert (r = Ok []) by (destruct fuel; cbn in Hr; congruence).
    subst r. cbn. f_equal.
    induction post_order as [| h l IH]; cbn; [reflexivity | exact IH].
  - intros to_emit Hok.
    destruct r as [to_order | |]; cbn in Hok; try discriminate Hok.
    inversion Hok; subst to_emit. exists to_order.
    destruct (epilogue_collect_inv dot_instr fuel to_add [] to_order Hr)
      as ((Hnd & Hdot & _ & Hclosed) & Hmono).
    { split; [constructor |]. split; [reflexivity |]. split.
      - subst to_add.
        destruct (same_instruction root dot_instr) eqn:Eroot;
          [reflexivity |].
        cbn. rewrite same_instruction_sym, Eroot. reflexivity.
      - intros c operand []. }
    split; [reflexivity |]. split; [exact Hnd |]. split.
    { intros Eroot. apply Hmono. right. subst to_add. rewrite Eroot.
      cbn. unfold same_instruction. rewrite String.eqb_refl. reflexivity. }
    split; [exact Hdot |]. split.
    { apply Forall_forall. intros h Hh. apply filter_In in Hh.
      destruct Hh as (_ & Hh).
      destruct (same_instruction h dot_instr) eqn:E; [| reflexivity].
      rewrite (contains_same to_order h dot_instr E) in Hh. congruence. }
    intros c operand Hc Hop Hnot.
    destruct (Hclosed c operand Hc Hop Hnot) as [H | H];
      [exact H | discriminate H].
Qed.

(** X25.  When the root is not the dot and has the same instruction,
    other than the dot, as two of its operands,
    [EpiloguePostOrderTransitiveOperands] ends the process: the operand
    is queued twice, and the second insertion into the set fails its
    CHECK. *)
Theorem epilogue_shared_operand_dies fuel dot_instr root post_order i j a b :
  (hlo_size root <= fuel)%nat ->
  same_instruction root dot_instr = false ->
  i <> j ->
  nth_error (operands root) i = Some a ->
  nth_error (operands root) j = Some b ->
  same_instruction a b = true ->
  same_instruction a dot_instr = false ->
  EpiloguePostOrderTransitiveOperands fuel dot_instr root post_order
  = Some Abort.
Proof.
  intros Hf Eroot Hne Ha Hb Hab Hdot.
  unfold EpiloguePostOrderTransitiveOperands. rewrite Eroot.
  destruct fuel as [| fuel]; [rewrite hlo_size_operands in Hf; lia |].
  cbn [epilogue_collect contains existsb app].
  rewrite epilogue_collect_dies; [reflexivity | |].
  - pose proof (epilogue_step_size dot_instr [] root []) as H.
    cbn [app] in H. unfold queue_size in H at 2. cbn in H. lia.
  - left. unfold epilogue_pushed.
    apply same_instruction_name in Hab.
    apply (duplicate_names_filter _ (operands root) i j a b Hne Ha Hb).
    + cbn. rewrite Hdot. reflexivity.
    + cbn. unfold same_instruction in *. rewrite <- Hab, Hdot. reflexivity.
    + exact Hab.
Qed.

(** ** The inputs of a scope *)

Lemma set_insert_In set hlo x :
  In x (set_insert set hlo) -> In x set \/ x = hlo.
Proof.
  unfold set_insert. destruct (contains set hlo); [auto |].
  intros H. apply in_app_or in H. destruct H as [H | [H | []]]; auto.
Qed.

Lemma set_insert_contains set hlo h :
  contains set h = true \/ same_instruction h hlo = true ->
  contains (set_insert set hlo) h = true.
Proof.
  unfold set_insert. destruct (contains set hlo) eqn:E; intros [H | H].
  - exact H.
  - rewrite (contains_same set h hlo H). exact E.
  - rewrite contains_app, H. reflexivity.
  - rewrite contains_app. cbn. rewrite H. apply orb_true_iff. right.
    reflexivity.
Qed.

Lemma set_insert_NoDup set hlo :
  NoDup (map name set) -> NoDup (map name (set_insert set hlo)).
Proof.
  unfold set_insert. destruct (contains set hlo) eqn:E; intros H; [exact H |].
  rewrite map_app. cbn [map]. apply NoDup_rev in H.
  rewrite <- (rev_involutive (map name set ++ [name hlo])).
  apply NoDup_rev. rewrite rev_app_distr. cbn [rev app].
  constructor; [| exact H].
  intros Hin. apply in_rev in Hin. apply contains_name in Hin. congruence.
Qed.

Lemma check_operands_are_parameters_Ok ops u :
  check_operands_are_parameters ops = Ok u ->
  Forall (fun operand => opcode operand = kParameter) ops.
Proof.
  induction ops as [| operand rest IH]; cbn; intros H; [constructor |].
  unfold CHECK in H.
  destruct (HloOpcode_eqb (opcode operand) kParameter) eqn:E;
    [| discriminate H].
  cbn in H. constructor; [apply HloOpcode_eqb_eq; exact E | exact (IH H)].
Qed.

Lemma scope_inputs_loop_spec : forall parameters result inputs,
  scope_inputs_loop parameters result = Ok inputs ->
  (NoDup (map name result) -> NoDup (map name inputs))
  /\ (forall h, contains result h = true -> contains inputs h = true)
  /\ (forall input, In input inputs ->
        In input result
        \/ (In input parameters /\ has_concatenate_user input = false)
        \/ exists parameter,
             In parameter parameters
             /\ users parameter = [input]
             /\ opcode input = kConcatenate
             /\ Forall (fun operand => opcode operand = kParameter)
                       (operands input))
  /\ forall parameter, In parameter parameters ->
       if has_concatenate_user parameter
       then exists c, users parameter = [c] /\ contains inputs c = true
       else contains inputs parameter = true.
Proof.
  induction parameters as [| parameter rest IH]; intros result inputs Hrun.
  - cbn in Hrun. inversion Hrun; subst inputs.
    split; [auto |]. split; [auto |]. split; [auto |]. intros p [].
  - cbn [scope_inputs_loop] in Hrun.
    destruct (has_concatenate_user parameter) eqn:Econcat.
    + unfold CHECK in Hrun.
      destruct (Z.eqb_spec (Z.of_nat (List.length (users parameter))) 1)
        as [Hlen | Hlen]; [| discriminate Hrun].
      cbn [bind] in Hrun.
      destruct (at_ (users parameter) 0) as [user0 | |] eqn:Eat;
        try discriminate Hrun.
      cbn [bind] in Hrun.
      destruct (check_operands_are_parameters (operands user0))
        as [u | |] eqn:Eops; try discriminate Hrun.
      cbn [bind] in Hrun.
      assert (Husers : users parameter = [user0]).
      { apply at_Ok_inv in Eat. destruct Eat as (_ & Eat).
        destruct (users parameter) as [| a [| b l]]; cbn in *;
          try lia; try discriminate Eat. congruence. }
      assert (Hop : opcode user0 = kConcatenate).
      { unfold has_concatenate_user in Econcat. rewrite Husers in Econcat.
        cbn in Econcat. rewrite orb_false_r in Econcat.
        apply HloOpcode_eqb_eq. exact Econcat. }
      apply check_operands_are_parameters_Ok in Eops.
      destruct (IH _ _ Hrun) as (Hnd & Hmono & Hin & Hall).
      split; [| split; [| split]].
      * intros H. apply Hnd. apply set_insert_NoDup. exact H.
      * intros h H. apply Hmono. apply set_insert_contains. left. exact H.
      * intros input Hi. destruct (Hin input Hi) as [H | [H | H]].
        -- apply set_insert_In in H. destruct H as [H | H]; [left; exact H |].
           subst input. right. right. exists parameter.
           split; [left; reflexivity |]. auto.
        -- right. left. destruct H as (H1 & H2).
           split; [right; exact H1 | exact H2].
        -- right. right. destruct H as (p & Hp & H).
           exists p. split; [right; exact Hp | exact H].
      * intros p [Hp | Hp]; [| exact (Hall p Hp)].
        subst p. rewrite Econcat. exists user0. split; [exact Husers |].
        apply Hmono. apply set_insert_contains. right.
        unfold same_instruction. apply String.eqb_refl.
    + destruct (IH _ _ Hrun) as (Hnd & Hmono & Hin & Hall).
      split; [| split; [| split]].
      * intros H. apply Hnd. apply set_insert_NoDup. exact H.
      * intros h H. apply Hmono. apply set_insert_contains. left. exact H.
      * intros input Hi. destruct (Hin input Hi) as [H | [H | H]].
        -- apply set_insert_In in H. destruct H as [H | H]; [left; exact H |].
           subst input. right. left. split; [left; reflexivity | exact Econcat].
        -- right. left. destruct H as (H1 & H2).
           split; [right; exact H1 | exact H2].
        -- right. right. destruct H as (p & Hp & H).
           exists p. split; [right; exact Hp | exact H].
      * intros p [Hp | Hp]; [| exact (Hall p Hp)].
        subst p. rewrite Econcat.
        apply Hmono. apply set_insert_contains. right.
        unfold same_instruction. apply String.eqb_refl.
Qed.

(** X26.  Whenever [ScopeInputs] returns, the inputs are distinct, and each
    is either a parameter of the scope that no concatenation uses, or a
    concatenation that is the only user of a parameter of the scope and
    whose operands are all parameters.  Every parameter of the scope is
    covered: by itself, or by the one instruction that uses it.  When the
    parameters of the scope have opcode parameter, every input has an
    opcode [GetArguments] accepts. *)
Theorem ScopeInputs_members analysis scope_ inputs :
  ScopeInputs analysis scope_ = Ok inputs ->
  NoDup (map name inputs)
  /\ (forall input, In input inputs ->
        (In input (ScopeParameters analysis scope_)
         /\ has_concatenate_user input = false)
        \/ exists parameter,
             In parameter (ScopeParameters analysis scope_)
             /\ users parameter = [input]
             /\ opcode input = kConcatenate
             /\ Forall (fun operand => opcode operand = kParameter)
                       (operands input))
  /\ (forall parameter, In parameter (ScopeParameters analysis scope_) ->
        if has_concatenate_user parameter
        then exists c, users parameter = [c] /\ contains inputs c = true
        else contains inputs parameter = true)
  /\ (Forall (fun parameter => opcode parameter = kParameter)
             (ScopeParameters analysis scope_) ->
      forall input, In input inputs ->
        opcode input = kParameter \/ opcode input = kConcatenate).
Proof.
  intros Hrun. unfold ScopeInputs in Hrun.
  destruct (scope_inputs_loop_spec _ _ _ Hrun) as (Hnd & _ & Hin & Hall).
  assert (Hmem : forall input, In input inputs ->
            (In input (ScopeParameters analysis scope_)
             /\ has_concatenate_user input = false)
            \/ exists parameter,
                 In parameter (ScopeParameters analysis scope_)
                 /\ users parameter = [input]
                 /\ opcode input = kConcatenate
                 /\ Forall (fun operand => opcode operand = kParameter)
                           (operands input)).
  { intros input Hi. destruct (Hin input Hi) as [[] | [H | H]]; auto. }
  split; [apply Hnd; constructor |]. split; [exact Hmem |].
  split; [exact Hall |].
  intros Hparams input Hi. destruct (Hmem input Hi) as [(H & _) | H].
  - left. rewrite Forall_forall in Hparams. exact (Hparams input H).
  - right. destruct H as (p & _ & _ & H & _). exact H.
Qed.

(** ** The loop-carried pointers *)

Lemma map_find_app {A} key k (v : A) m :
  map_find key (m ++ [(k, v)])
  = match map_find key m with
    | Some x => Some x
    | None => if k =? key then Some v else None
    end.
Proof.
  unfold map_find. induction m as [| kv m IH]; cbn.
  - destruct (k =? key); reflexivity.
  - destruct (fst kv =? key); [reflexivity | exact IH].
Qed.

Lemma side_iter_args_length h fn pid_k side : forall inputs st st',
  side_iter_args h fn pid_k side inputs st = Ok st' ->
  List.length (iter_args st')
  = (List.length (iter_args st) + List.length inputs)%nat.
Proof.
  induction inputs as [| input rest IH]; intros st st' Hrun.
  - cbn in Hrun. inversion Hrun; subst st'. cbn. lia.
  - cbn [side_iter_args] in Hrun.
    apply TF_RET_CHECK_inv in Hrun. destruct Hrun as (_ & Hrun).
    apply bind_Ok_inv in Hrun. destruct Hrun as (bases & _ & Hrun).
    apply bind_Ok_inv in Hrun. destruct Hrun as (r & _ & Hrun).
    apply IH in Hrun. cbn [iter_args] in Hrun.
    rewrite Hrun, length_app. cbn. lia.
Qed.

Lemma side_iter_args_inv h fn pid_k side : forall inputs st st' tags,
  side_iter_args h fn pid_k side inputs st = Ok st' ->
  Z.of_nat (List.length (iter_args st')) < 2 ^ 31 ->
  iter_args_inv h fn pid_k st tags ->
  iter_args_inv h fn pid_k st' (tags ++ map (pair side) inputs).
Proof.
  induction inputs as [| input rest IH]; intros st st' tags Hrun Hbound Hinv.
  - cbn in Hrun. inversion Hrun; subst st'. cbn. rewrite app_nil_r.
    exact Hinv.
  - pose proof (side_iter_args_length _ _ _ _ _ _ _ Hrun) as Hlen.
    cbn [List.length] in Hlen.
    cbn [side_iter_args] in Hrun.
    destruct Hinv as (H0 & Hfree & Hbuilt).
    rewrite int32_fits in Hrun by lia.
    apply TF_RET_CHECK_inv in Hrun. destruct Hrun as (_ & Hrun).
    apply bind_Ok_inv in Hrun. destruct Hrun as (bases & Hbases & Hrun).
    destruct (Hfree (List.length tags) (le_n _)) as (Hfi & Hfc).
    rewrite H0 in Hrun. rewrite Hfc in Hrun.
    apply bind_Ok_inv in Hrun. destruct Hrun as ([ptr checks] & Hptr & Hrun).
    cbn [fst snd] in Hrun.
    unfold map_set in Hrun. rewrite Hfc in Hrun.
    replace (tags ++ map (pair side) (input :: rest))
      with ((tags ++ [(side, input)]) ++ map (pair side) rest)
      by (rewrite <- app_assoc; reflexivity).
    apply (IH _ _ _ Hrun Hbound).
    split; [| split].
    + cbn [iter_args]. rewrite !length_app. cbn. lia.
    + intros k Hk. rewrite length_app in Hk. cbn in Hk.
      cbn [iter_args_to_inputs iter_args_to_boundary_checks].
      rewrite !map_find_app.
      destruct (Hfree k ltac:(lia)) as (Hki & Hkc). rewrite Hki, Hkc.
      destruct (Z.eqb_spec (Z.of_nat (List.length tags)) (Z.of_nat k));
        [lia |]. split; reflexivity.
    + intros i s inp Hnth.
      destruct (Nat.lt_ge_cases i (List.length tags)) as [Hlt | Hge].
      * rewrite nth_error_app1 in Hnth by exact Hlt.
        destruct (Hbuilt i s inp Hnth)
          as (p & b & c & Hp & Hi & Hc & Hb & He).
        exists p, b, c.
        cbn [iter_args iter_args_to_inputs iter_args_to_boundary_checks].
        rewrite nth_error_app1 by (rewrite H0; exact Hlt).
        rewrite !map_find_app, Hi, Hc. auto.
      * rewrite nth_error_app2 in Hnth by exact Hge.
        destruct (i - List.length tags)%nat as [| j] eqn:Ej;
          [| destruct j; discriminate Hnth].
        cbn in Hnth. inversion Hnth; subst s inp.
        assert (i = List.length tags) by lia. subst i.
        exists ptr, bases, checks.
        cbn [iter_args iter_args_to_inputs iter_args_to_boundary_checks].
        rewrite nth_error_app2 by (rewrite H0; apply le_n).
        rewrite H0, Nat.sub_diag. rewrite !map_find_app, Hfi, Hfc.
        rewrite Z.eqb_refl. auto.
Qed.

Lemma scopes_iter_args_length h fn pid_k analysis : forall scopes st st',
  scopes_iter_args h fn pid_k analysis scopes st = Ok st' ->
  (List.length (iter_args st) <= List.length (iter_args st'))%nat.
Proof.
  induction scopes as [| side rest IH]; intros st st' Hrun.
  - cbn in Hrun. inversion Hrun; subst st'. apply le_n.
  - cbn [scopes_iter_args] in Hrun.
    apply bind_Ok_inv in Hrun. destruct Hrun as (inputs & _ & Hrun).
    apply bind_Ok_inv in Hrun. destruct Hrun as (st1 & Hside & Hrun).
    apply side_iter_args_length in Hside. apply IH in Hrun. lia.
Qed.

(** The tags of the pointers the sides get, in the order of the loop. *)
Lemma scopes_iter_args_inv h fn pid_k analysis : forall scopes st st' tags,
  scopes_iter_args h fn pid_k analysis scopes st = Ok st' ->
  Z.of_nat (List.length (iter_args st')) < 2 ^ 31 ->
  iter_args_inv h fn pid_k st tags ->
  exists per_side,
    Forall2 (fun side inputs => ScopeInputs analysis (scope side) = Ok inputs)
            scopes per_side
    /\ iter_args_inv h fn pid_k st'
         (tags ++ List.concat (map (fun si => map (pair (fst si)) (snd si))
                              (combine scopes per_side))).
Proof.
  induction scopes as [| side rest IH]; intros st st' tags Hrun Hbound Hinv.
  - cbn in Hrun. inversion Hrun; subst st'. exists [].
    split; [constructor |]. cbn. rewrite app_nil_r. exact Hinv.
  - cbn [scopes_iter_args] in Hrun.
    apply bind_Ok_inv in Hrun. destruct Hrun as (inputs & Hin & Hrun).
    apply bind_Ok_inv in Hrun. destruct Hrun as (st1 & Hside & Hrun).
    pose proof (scopes_iter_args_length _ _ _ _ _ _ _ Hrun) as Hle.
    assert (Hinv1 : iter_args_inv h fn pid_k st1
                      (tags ++ map (pair side) inputs)).
    { apply (side_iter_args_inv _ _ _ _ _ _ _ _ Hside); [lia | exact Hinv]. }
    destruct (IH _ _ _ Hrun Hbound Hinv1) as (per_side & Hall & Hfinal).
    exists (inputs :: per_side). split; [constructor; assumption |].
    cbn [combine map List.concat fst snd]. rewrite app_assoc. exact Hfinal.
Qed.

(** X27.  The loop body of [EmitMatMul] takes position i of the
    loop-carried pointers for the LHS side below lsize, for the RHS side
    below lsize + rsize, and for the third side from there on.  This
    agrees with the loop that builds the pointers: whenever that loop
    returns (with fewer than 2^31 pointers) for an LHS side, an RHS side
    and at most one more side, the pointer at every position was built by
    [EmitTensorPointer] for the side the body takes, from the arguments
    [GetArguments] gives for the input the map of inputs holds for the
    position, which is an input of the scope of that side, starting from
    no boundary checks and ending with those the map of checks holds. *)
Theorem iter_args_scopes h fn pid_k analysis lhs rhs metas st linputs rinputs :
  scope lhs = LHS -> scope rhs = RHS -> (List.length metas <= 1)%nat ->
  ScopeInputs analysis LHS = Ok linputs ->
  ScopeInputs analysis RHS = Ok rinputs ->
  scopes_iter_args h fn pid_k analysis (lhs :: rhs :: metas)
                   (mkIterArgs [] [] []) = Ok st ->
  Z.of_nat (List.length (iter_args st)) < 2 ^ 31 ->
  let lsize := Z.of_nat (List.length linputs) in
  let rsize := Z.of_nat (List.length rinputs) in
  (metas = [] ->
   List.length (iter_args st)
   = (List.length linputs + List.length rinputs)%nat)
  /\ forall i, (i < List.length (iter_args st))%nat ->
       exists side input inputs,
         nth_error (lhs :: rhs :: metas)
                   (Z.to_nat (iter_arg_scope_index lsize rsize (Z.of_nat i)))
         = Some side
         /\ ScopeInputs analysis (scope side) = Ok inputs
         /\ In input inputs
         /\ iter_arg_built h fn pid_k st i side input.
Proof.
  intros Hl Hr Hm Hlin Hrin Hrun Hbound lsize rsize.
  destruct (scopes_iter_args_inv h fn pid_k analysis _ _ _ [] Hrun Hbound)
    as (per_side & Hall & Hlen & _ & Hbuilt).
  { split; [reflexivity |]. split; [intros k _; split; reflexivity |].
    intros i s inp H. destruct i; discriminate H. }
  inversion Hall as [| ? li ? per1 Hli Hall1]; subst.
  inversion Hall1 as [| ? ri ? per2 Hri Hall2]; subst.
  rewrite Hl, Hlin in Hli. inversion Hli; subst li.
  rewrite Hr, Hrin in Hri. inversion Hri; subst ri.
  cbn [app combine map List.concat fst snd] in Hlen, Hbuilt.
  set (rest := List.concat (map (fun si => map (pair (fst si)) (snd si))
                           (combine metas per2))) in *.
  rewrite !length_app, !length_map in Hlen.
  split.
  - intros ->. inversion Hall2; subst. cbn in Hlen. lia.
  - intros i Hi.
    unfold iter_arg_scope_index. subst lsize rsize.
    destruct (Z.ltb_spec (Z.of_nat i) (Z.of_nat (List.length linputs)))
      as [H1 | H1].
    + destruct (nth_error linputs i) as [input |] eqn:En;
        [| apply nth_error_None in En; lia].
      exists lhs, input, linputs. split; [reflexivity |].
      rewrite Hl. split; [exact Hlin |].
      split; [exact (nth_error_In _ _ En) |].
      apply Hbuilt. rewrite nth_error_app1 by (rewrite length_map; lia).
      rewrite nth_error_map, En. reflexivity.
    + destruct (Z.ltb_spec (Z.of_nat i)
                  (Z.of_nat (List.length linputs)
                   + Z.of_nat (List.length rinputs))) as [H2 | H2].
      * destruct (nth_error rinputs (i - List.length linputs))
          as [input |] eqn:En; [| apply nth_error_None in En; lia].
        exists rhs, input, rinputs. split; [reflexivity |].
        rewrite Hr. split; [exact Hrin |].
        split; [exact (nth_error_In _ _ En) |].
        apply Hbuilt. rewrite nth_error_app2 by (rewrite length_map; lia).
        rewrite length_map.
        rewrite nth_error_app1 by (rewrite length_map; lia).
        rewrite nth_error_map, En. reflexivity.
      * destruct metas as [| meta [| m2 l2]]; [| | cbn in Hm; lia].
        -- inversion Hall2; subst. cbn in Hlen. lia.
        -- inversion Hall2 as [| ? mi ? per3 Hmi Hall3]; subst.
           inversion Hall3; subst.
           subst rest. cbn [combine map List.concat fst snd app] in *.
           rewrite app_nil_r in *. rewrite length_map in Hlen.
           destruct (nth_error mi
                       (i - List.length linputs - List.length rinputs))
             as [input |] eqn:En; [| apply nth_error_None in En; lia].
           exists meta, input, mi. split; [reflexivity |].
           split; [exact Hmi |].
           split; [exact (nth_error_In _ _ En) |].
           apply Hbuilt.
           rewrite nth_error_app2 by (rewrite length_map; lia).
           rewrite length_map.
           rewrite nth_error_app2 by (rewrite length_map; lia).
           rewrite length_map, nth_error_map, En. reflexivity.
Qed.

(** ** The pre-flight check of EmitMatMul *)

(** C9.  For a tiling configuration with positive block sizes and warp
    count (and a numerator an [int] holds), the complexity check returns a
    resource-exhaustion status exactly when
    (block_m*block_n + (block_m+block_n)*block_k) / num_warps exceeds 9000
    and passes otherwise.  [EmitMatMul] runs it first: with an exceeding
    configuration it returns that status whatever the analysis, the dot
    and the rest of the function are, and with a configuration at or
    below the ceiling it is the function without the check. *)
Theorem complexity_heuristic_preflight config :
  tiling_in_range config ->
  (CheckGemmTilingComplexityHeuristic config =
   if heuristic_value config >? 9000
   then Err (ResourceExhausted "Tiling complexity heuristic exceeded: %d > %d"
               [heuristic_value config; 9000])
   else Ok tt)
  /\ ((exists st, CheckGemmTilingComplexityHeuristic config = Err st
                  /\ code st = kResourceExhausted)
      <-> heuristic_value config > 9000)
  /\ (CheckGemmTilingComplexityHeuristic config = Ok tt
      <-> heuristic_value config <= 9000)
  /\ (forall analysis dot body,
        EmitMatMul analysis dot config body =
        if heuristic_value config >? 9000
        then Err (ResourceExhausted
                    "Tiling complexity heuristic exceeded: %d > %d"
                    [heuristic_value config; 9000])
        else EmitMatMul_after_preflight analysis dot config body).
Proof.
  intros Hr.
  assert (E : CheckGemmTilingComplexityHeuristic config =
              if heuristic_value config >? 9000
              then Err (ResourceExhausted
                          "Tiling complexity heuristic exceeded: %d > %d"
                          [heuristic_value config; 9000])
              else Ok tt).
  { unfold CheckGemmTilingComplexityHeuristic.
    rewrite (complexity_heuristic_value_spec config Hr). reflexivity. }
  split; [exact E |].
  split; [| split].
  - rewrite E, Z.gtb_ltb.
    destruct (Z.ltb_spec 9000 (heuristic_value config)).
    + split; [lia |]. intros _. eexists. split; reflexivity.
    + split; [| lia]. intros (st & Hst & _). discriminate.
  - rewrite E, Z.gtb_ltb.
    destruct (Z.ltb_spec 9000 (heuristic_value config)).
    + split; [discriminate | lia].
    + split; [lia | reflexivity].
  - intros analysis dot body.
    unfold EmitMatMul, EmitMatMul_after_preflight. rewrite E.
    destruct (heuristic_value config >? 9000); reflexivity.
Qed.

(** ** Index width *)

Lemma EmitMultiSelect_Ok_type index limits choices v :
  EmitMultiSelect index limits choices = Ok v ->
  exists c0 rest, choices = c0 :: rest /\ getType v = getType c0.
Proof.
  unfold EmitMultiSelect. intros H.
  apply bind_Ok_inv in H. destruct H as (? & _ & H).
  destruct choices as [| c0 rest]; [discriminate H |].
  inversion H; subst v.
  exists c0, rest. split; [reflexivity | apply multi_select_loop_type].
Qed.


Lemma Forall_snoc {A} (P : A -> Prop) l x :
  Forall P l -> P x -> Forall P (l ++ [x]).
Proof.
  intros Hl Hx. apply Forall_app. split; [exact Hl |].
  constructor; [exact Hx | constructor].
Qed.

Lemma select_of_constants index limits (f : DimIterationSpec -> Z) specs v :
  EmitMultiSelect index limits (map (fun s => Cst64 (f s)) specs) = Ok v ->
  getType v = ScalarType i64.
Proof.
  intros H. apply EmitMultiSelect_Ok_type in H.
  destruct H as (c0 & rest & Hc & Hty).
  destruct specs as [| s specs']; [discriminate Hc |].
  cbn in Hc. inversion Hc; subst c0. rewrite Hty. reflexivity.
Qed.

Lemma add_dim_extents h hlo side ci d st st' :
  add_dim h hlo side ci d st = Ok st' ->
  extents_64bit st -> extents_64bit st'.
Proof.
  unfold add_dim. intros H (Hb & Hs & Ho).
  destruct (IterSpec (analysis_ h) (scope side) hlo (index d));
    [| inversion H; subst st'; repeat split; assumption].
  apply bind_Ok_inv in H. destruct H as (specs & _ & H).
  apply bind_Ok_inv in H. destruct H as (stride_value & Hstride & H).
  apply select_of_constants in Hstride.
  apply bind_Ok_inv in H. destruct H as (st1 & Hst1 & H).
  apply bind_Ok_inv in H. destruct H as (front & _ & H).
  apply bind_Ok_inv in H. destruct H as (f0 & _ & H).
  inversion H; subst st'. clear H.
  assert (H1 : Forall (fun v => getType v = ScalarType i64) (bounds st1)
               /\ Forall (fun v => getType v = ScalarType i64) (strides st1)
               /\ tensor_offsets st1 = tensor_offsets st).
  { destruct (index d =? concat_dim_idx ci).
    - apply bind_Ok_inv in Hst1. destruct Hst1 as (offset_value & _ & Hst1).
      apply bind_Ok_inv in Hst1. destruct Hst1 as (bound_value & Hbound & Hst1).
      apply select_of_constants in Hbound.
      inversion Hst1; subst st1. cbn.
      split; [apply Forall_snoc; assumption |].
      split; [apply Forall_snoc; assumption | reflexivity].
    - apply bind_Ok_inv in Hst1. destruct Hst1 as (front' & _ & Hst1).
      apply bind_Ok_inv in Hst1. destruct Hst1 as (f0' & _ & Hst1).
      apply bind_Ok_inv in Hst1. destruct Hst1 as (count_ & _ & Hst1).
      apply bind_Ok_inv in Hst1. destruct Hst1 as (r & _ & Hst1).
      inversion Hst1; subst st1. cbn.
      split; [apply Forall_snoc; [assumption | reflexivity] |].
      split; [apply Forall_snoc; assumption | reflexivity]. }
  destruct H1 as (Hb1 & Hs1 & Ho1).
  split; [exact Hb1 |]. split; [exact Hs1 |].
  cbn. rewrite Ho1. apply Forall_snoc; [exact Ho | reflexivity].
Qed.

Lemma add_dims_extents h hlo side ci dims : forall st st',
  add_dims h hlo side ci dims st = Ok st' ->
  extents_64bit st -> extents_64bit st'.
Proof.
  induction dims as [| d ds IH]; intros st st' H Hinv.
  - cbn in H. inversion H; subst st'. exact Hinv.
  - cbn [add_dims] in H. apply bind_Ok_inv in H.
    destruct H as (st1 & H1 & H).
    apply (IH _ _ H). exact (add_dim_extents _ _ _ _ _ _ _ H1 Hinv).
Qed.

(** C10 (amended).  With both operands of the dot present and an output
    element count times split_k that 64-bit arithmetic holds, [EmitMatMul]
    selects the 64-bit index type if and only if the element count of the
    LHS operand exceeds INT_MAX, or that of the RHS operand does, or the
    output element count times split_k does; otherwise the index type is
    the 32-bit one, and the remainder of the function only ever receives
    that index type.  The index type is the type of the constants the
    emitter helper builds with [Cst] and of the program ids it converts
    with [ConvertScalar].  The bounds and strides of every block pointer
    [EmitTensorPointer] builds over at least one tiled dimension are
    64-bit, and its tensor offsets 32-bit, whatever the index type. *)
Theorem index_width_selection config dot lhs rhs :
  operand (dot_hlo dot) 0 = Ok lhs ->
  operand (dot_hlo dot) 1 = Ok rhs ->
  fits64 (ElementsIn (shape (dot_hlo dot)) * split_k config) ->
  let need := needs_64bit config (shape lhs) (shape rhs) (shape (dot_hlo dot)) in
  exists use64,
    use_64bit_indexing config dot = Ok use64
    /\ (use64 = true <-> need)
    /\ (index_type use64 = i64 <-> need)
    /\ (index_type use64 = i32 <-> ~ need)
    /\ (forall analysis body,
          EmitMatMul analysis dot config body =
          EmitMatMul analysis dot config
            (fun p =>
               if ElementType_eqb (index_ty p) (index_type use64)
                  && ElementType_eqb (index_ty_ (emitter p)) (index_type use64)
               then body p else Abort))
    /\ (forall h z, getType (Cst h z) = ScalarType (index_ty_ h))
    /\ (forall h x,
          index_ty_ h = index_type use64 ->
          ConvertScalar h x
          = if use64 then ExtSIOp (ScalarType i64) x else x)
    /\ (forall h hlo side bases pid_k checks0 ptr checks,
          EmitTensorPointer h hlo side bases pid_k checks0 = Ok (ptr, checks) ->
          tiled_axes h hlo side (tiled_dims side) <> [] ->
          exists base bounds strides offsets dims order advance,
            let tensor_ptr :=
              MakeTensorPtrOp base bounds strides offsets dims order in
            ptr = AdvanceOp (getType tensor_ptr) tensor_ptr advance
            /\ bounds <> [] /\ strides <> []
            /\ Forall (fun v => getType v = ScalarType i64) bounds
            /\ Forall (fun v => getType v = ScalarType i64) strides
            /\ Forall (fun v => getType v = ScalarType i32) offsets).
Proof.
  intros Hl Hr Hf need.
  exists (needs_64bitb config (shape lhs) (shape rhs) (shape (dot_hlo dot))).
  pose proof (needs_64bitb_iff config (shape lhs) (shape rhs)
                (shape (dot_hlo dot))) as Hiff.
  fold need in Hiff.
  split; [apply use_64bit_indexing_spec; assumption |].
  split; [exact Hiff |].
  split; [| split; [| split; [| split; [| split]]]].
  - rewrite <- Hiff.
    destruct (needs_64bitb _ _ _ _); cbn; split; congruence.
  - rewrite <- Hiff.
    destruct (needs_64bitb _ _ _ _); cbn; split; congruence.
  - intros analysis body. unfold EmitMatMul.
    rewrite (use_64bit_indexing_spec config dot lhs rhs Hl Hr Hf).
    destruct (CheckGemmTilingComplexityHeuristic config); try reflexivity.
    cbn [bind].
    destruct (TF_RET_CHECK _ _); try reflexivity. cbn [bind].
    destruct (is_8_bit_or_less_dot_with_F32 dot); try reflexivity.
    cbn [bind].
    destruct (ValidateMatMulConfig config dot); try reflexivity. cbn [bind].
    destruct (MatMulDims_Create config dot analysis) as [md | |];
      try reflexivity.
    cbn [bind].
    destruct (MatMulLaunchConfig_init config dot md); try reflexivity.
    cbn [bind index_ty index_ty_ emitter].
    destruct (needs_64bitb _ _ _ _); reflexivity.
  - intros h z. reflexivity.
  - intros h x Hty. unfold ConvertScalar. rewrite Hty.
    destruct (needs_64bitb _ _ _ _); reflexivity.
  - intros h hlo side bases pid_k checks0 ptr checks H Haxes.
    destruct (EmitTensorPointer_inv _ _ _ _ _ _ _ _ H)
      as (base0 & ci & st & base2 & _ & Hst & _ & _ & Hptr).
    assert (Hinv : extents_64bit st).
    { apply (add_dims_extents _ _ _ _ _ _ _ Hst).
      repeat split; constructor. }
    destruct Hinv as (Hb & Hs & Ho).
    destruct (add_dims_parts h hlo side ci _ _ _ Hst)
      as (bs & ss & os & adv & Eb & Lb & Es & Ls & _ & _ & _ & _ & Hbd & _).
    cbn [empty_parts bounds strides block_dims app] in Eb, Es, Hbd.
    destruct (tiled_axes h hlo side (tiled_dims side)) as [| ax axes];
      [contradiction |].
    cbn [map] in Hbd. rewrite Hbd in Hptr. cbn iota in Hptr.
    rewrite <- Hbd in Hptr.
    exists base2, (bounds st), (strides st), (tensor_offsets st),
      (block_dims st), (dim_order st), (block_offsets st).
    cbn zeta. split; [exact Hptr |].
    split; [rewrite Eb; destruct bs; [discriminate Lb | discriminate] |].
    split; [rewrite Es; destruct ss; [discriminate Ls | discriminate] |].
    repeat split; assumption.
Qed.

(** ** Non-finite guard of the emulated dots *)

Lemma accumulate_high_eval env lhs_high rhs_high acc guarded dims g :
  getType acc = RankedTensorType dims f32 ->
  eval env guarded = Some g ->
  eval env (AddFOp acc (bf16_dot lhs_high rhs_high guarded))
  = accumulate_high env lhs_high rhs_high acc g.
Proof.
  intros Hty Hg. unfold accumulate_high, bf16_dot. cbn [eval].
  rewrite Hty, Hg. cbn [element_of].
  destruct (eval env acc); destruct (eval env lhs_high);
    destruct (eval env rhs_high); try reflexivity.
Qed.

(** C8.  Whenever the 3-term or the 6-term emulation succeeds, the value
    it returns is acc + dot(lhs_high, rhs_high, guarded), where the high,
    middle and low parts are the bf16 parts the helper functions take of
    the two operands and [guarded] is the select that keeps a lane of the
    accumulated correction terms (two partial dots in the 3-term variant,
    five in the 6-term one) where +infinity is greater than its absolute
    value and puts zero elsewhere.  Whatever tile of f32 values the
    correction terms evaluate to, the guarded tile holds the same value
    in every finite lane and zero in every lane that is infinite or NaN,
    and the result is the accumulator plus the high-by-high dot on that
    guarded tile, so no non-finite correction term reaches it; in
    particular +infinity * 0 is NaN, and its guarded value is zero. *)
Theorem non_finite_guard lhs rhs acc v :
  Emit3xBfloat16MatMul lhs rhs acc = Ok v
  \/ Emit6xBfloat16MatMul lhs rhs acc = Ok v ->
  exists dims lhs_high rhs_high partial,
    getType acc = RankedTensorType dims f32
    /\ high_part lhs lhs_high /\ high_part rhs rhs_high
    /\ ((exists lhs_low rhs_low,
           Emit3xBfloat16MatMul lhs rhs acc = Ok v
           /\ low_part_3x lhs lhs_low /\ low_part_3x rhs rhs_low
           /\ partial = correction_terms_3x lhs_high lhs_low rhs_high rhs_low
                          (zeros_f32 dims))
        \/ (exists lhs_middle lhs_low rhs_middle rhs_low,
              Emit6xBfloat16MatMul lhs rhs acc = Ok v
              /\ middle_part lhs lhs_middle /\ low_part_6x lhs lhs_low
              /\ middle_part rhs rhs_middle /\ low_part_6x rhs rhs_low
              /\ partial = correction_terms_6x lhs_high lhs_middle lhs_low
                             rhs_high rhs_middle rhs_low (zeros_f32 dims)))
    /\ v = AddFOp acc (bf16_dot lhs_high rhs_high
                                (finite_or_zero dims partial))
    /\ (forall env xs,
          eval env partial = Some (VTensor dims (map SFloat xs)) ->
          List.length xs = num_elements dims ->
          let guarded :=
            VTensor dims (map (fun x => SFloat (guard_f32 x)) xs) in
          eval env (finite_or_zero dims partial) = Some guarded
          /\ eval env v = accumulate_high env lhs_high rhs_high acc guarded)
    /\ (forall x, is_finite_class (guard_f32 x)
                  /\ (is_finite_class x -> guard_f32 x = x)
                  /\ (~ is_finite_class x -> guard_f32 x = float_zero))
    /\ SFmul 24 128 positive_infinity float_zero = S754_nan
    /\ guard_f32 (SFmul 24 128 positive_infinity float_zero) = float_zero.
Proof.
  assert (Hguard : forall x, is_finite_class (guard_f32 x)
                   /\ (is_finite_class x -> guard_f32 x = x)
                   /\ (~ is_finite_class x -> guard_f32 x = float_zero)).
  { intros x. split; [apply guard_f32_finite |].
    split; [apply guard_f32_id |].
    intros Hn. unfold guard_f32.
    destruct (is_finite_f32 x) eqn:E; [| reflexivity].
    exfalso. now apply Hn, is_finite_f32_class. }
  assert (Hsem : forall dims lh rh partial,
            getType acc = RankedTensorType dims f32 ->
            getType partial = RankedTensorType dims f32 ->
            forall env xs,
              eval env partial = Some (VTensor dims (map SFloat xs)) ->
              List.length xs = num_elements dims ->
              let guarded :=
                VTensor dims (map (fun x => SFloat (guard_f32 x)) xs) in
              eval env (finite_or_zero dims partial) = Some guarded
              /\ eval env (AddFOp acc (bf16_dot lh rh
                                         (finite_or_zero dims partial)))
                 = accumulate_high env lh rh acc guarded).
  { intros dims lh rh partial Hacc Hp env xs He Hlen guarded.
    assert (Hg : eval env (finite_or_zero dims partial) = Some guarded).
    { apply (guard_non_finite_eval env partial dims _ xs Hp);
        [| exact He | exact Hlen].
      apply guard_non_finite_Ok. exact Hp. }
    split; [exact Hg |].
    apply (accumulate_high_eval env lh rh acc _ dims guarded Hacc Hg). }
  intros [H | H].
  - pose proof H as H0. unfold Emit3xBfloat16MatMul in H.
    apply bind_Ok_inv in H. destruct H as (? & _ & H).
    apply bind_Ok_inv in H. destruct H as (? & _ & H).
    apply bind_Ok_inv in H. destruct H as (? & Hacc & H).
    apply check_f32_inv in Hacc. destruct Hacc as (dims & Hacc).
    apply bind_Ok_inv in H. destruct H as (lt & Hlt & H).
    apply bind_Ok_inv in H. destruct H as (lh & Hlh & H).
    apply bind_Ok_inv in H. destruct H as (ls & Hls & H).
    apply bind_Ok_inv in H. destruct H as (ll & Hll & H).
    apply bind_Ok_inv in H. destruct H as (rt & Hrt & H).
    apply bind_Ok_inv in H. destruct H as (rh & Hrh & H).
    apply bind_Ok_inv in H. destruct H as (rs & Hrs & H).
    apply bind_Ok_inv in H. destruct H as (rl & Hrl & H).
    rewrite (ZerosLike_f32 acc dims Hacc) in H. cbn [bind] in H.
    rewrite (guard_non_finite_Ok _ dims) in H by reflexivity.
    cbn [bind] in H. inversion H; subst v. clear H.
    exists dims, lh, rh, (correction_terms_3x lh ll rh rl (zeros_f32 dims)).
    split; [exact Hacc |].
    split; [exists lt; split; assumption |].
    split; [exists rt; split; assumption |].
    split.
    { left. exists ll, rl. split; [exact H0 |].
      split; [exists ls; split; assumption |].
      split; [exists rs; split; assumption | reflexivity]. }
    split; [reflexivity |].
    split; [| split; [exact Hguard | split; reflexivity]].
    intros env xs He Hlen.
    apply (Hsem dims lh rh _ Hacc); [reflexivity | exact He | exact Hlen].
  - pose proof H as H0. unfold Emit6xBfloat16MatMul in H.
    apply bind_Ok_inv in H. destruct H as (? & _ & H).
    apply bind_Ok_inv in H. destruct H as (? & _ & H).
    apply bind_Ok_inv in H. destruct H as (? & Hacc & H).
    apply check_f32_inv in Hacc. destruct Hacc as (dims & Hacc).
    apply bind_Ok_inv in H. destruct H as (lt & Hlt & H).
    apply bind_Ok_inv in H. destruct H as (lh & Hlh & H).
    apply bind_Ok_inv in H. destruct H as (lms & Hlms & H).
    apply bind_Ok_inv in H. destruct H as (lmt & Hlmt & H).
    apply bind_Ok_inv in H. destruct H as (lm & Hlm & H).
    apply bind_Ok_inv in H. destruct H as (lls & Hlls & H).
    apply bind_Ok_inv in H. destruct H as (llt & Hllt & H).
    apply bind_Ok_inv in H. destruct H as (ll & Hll & H).
    apply bind_Ok_inv in H. destruct H as (rt & Hrt & H).
    apply bind_Ok_inv in H. destruct H as (rh & Hrh & H).
    apply bind_Ok_inv in H. destruct H as (rms & Hrms & H).
    apply bind_Ok_inv in H. destruct H as (rmt & Hrmt & H).
    apply bind_Ok_inv in H. destruct H as (rm & Hrm & H).
    apply bind_Ok_inv in H. destruct H as (rls & Hrls & H).
    apply bind_Ok_inv in H. destruct H as (rlt & Hrlt & H).
    apply bind_Ok_inv in H. destruct H as (rl & Hrl & H).
    rewrite (ZerosLike_f32 acc dims Hacc) in H. cbn [bind] in H.
    rewrite (guard_non_finite_Ok _ dims) in H by reflexivity.
    cbn [bind] in H. inversion H; subst v. clear H.
    exists dims, lh, rh,
      (correction_terms_6x lh lm ll rh rm rl (zeros_f32 dims)).
    split; [exact Hacc |].
    split; [exists lt; split; assumption |].
    split; [exists rt; split; assumption |].
    split.
    { right. exists lm, ll, rm, rl. split; [exact H0 |].
      split; [exists lms, lmt; repeat split; assumption |].
      split; [exists lls, llt; repeat split; assumption |].
      split; [exists rms, rmt; repeat split; assumption |].
      split; [exists rls, rlt; repeat split; assumption | reflexivity]. }
    split; [reflexivity |].
    split; [| split; [exact Hguard | split; reflexivity]].
    intros env xs He Hlen.
    apply (Hsem dims lh rh _ Hacc); [reflexivity | exact He | exact Hlen].
Qed.

(** ** Reduction masking *)






(** A cast of an f32 value to bf16 or f16 is one truncation. *)
Lemma Cast_truncates_f32 v e :
  element_of (getType v) = Some f32 -> e = bf16 \/ e = f16 ->
  Cast v e = Ok (TruncFOp (with_element (getType v) e) v).
Proof.
  intros Hty He. unfold Cast.
  rewrite Hty, (MlirType_eqb_with_element _ _ e Hty).
  destruct He as [-> | ->]; cbn; unfold Cast_from; rewrite Hty.
  - rewrite (MlirType_eqb_with_element _ _ bf16 Hty). reflexivity.
  - rewrite (MlirType_eqb_with_element _ _ f16 Hty). reflexivity.
Qed.





End Emitter.

(** * The properties at the worked examples *)

(** The worked example: 64 by 64 outputs in blocks of 32 by 32 give a
    2 by 2 grid with the four tiles on axis X. *)
Lemma launch_config_plan_witness :
  batch_size_of ex_dot ex_dims = Some 1
  /\ launch_inputs_ok 32 ex_config ex_dims 1
  /\ exists lc,
       MatMulLaunchConfig_init 32 ex_config ex_dot ex_dims = Ok lc
       /\ grid_m lc = 2 /\ grid_n lc = 2
       /\ block_counts (launch_dims lc) = BlockDim 4 1 1.
Proof.
  assert (H : launch_inputs_ok 32 ex_config ex_dims 1).
  { unfold launch_inputs_ok, fits64, CInt.fits. cbn.
    repeat split; try lia; try (intros [H _]; discriminate H). }
  split; [reflexivity |]. split; [exact H |].
  destruct (launch_config_plan 32 ex_config ex_dot ex_dims 1 eq_refl H)
    as (_ & _ & _ & Hok).
  destruct Hok as (lc & Hlc & Hgm & Hgn & _ & Hsmall); [cbn; lia |].
  exists lc. split; [exact Hlc |]. split; [exact Hgm |]. split; [exact Hgn |].
  apply Hsmall. lia.
Defined.

(** The split example: the contracting dimension of size 100 was padded
    to 128 for a split factor of 2, and k is read as 100. *)
Lemma Create_contracting_extent_witness :
  MatMulDims_Create ex_GetNonContractingDims ex_split_config ex_split_dot
                    ex_split_analysis = Ok ex_split_dims
  /\ pad_pattern ex_split_config ex_split_dot
  /\ prepad_extent ex_split_dot 1 = Ok 100.
Proof.
  split; [reflexivity |].
  assert (Hpad : pad_pattern ex_split_config ex_split_dot).
  { split; [cbn; lia |].
    exists ex_bitcast_rhs, ex_padded_rhs. repeat split. }
  split; [exact Hpad |].
  apply (Create_contracting_extent ex_GetNonContractingDims ex_split_config
           ex_split_dot ex_split_analysis ex_split_dims 1);
    [reflexivity | reflexivity | lia | exact Hpad].
Defined.


(** The example of the specification: cumulative boundaries [64, 192] and
    block offset 130 select operand index 1. *)
Lemma multi_select_first_limit_witness :
  exists v,
    EmitMultiSelect (IntConst i32 130) [IntConst i32 64; IntConst i32 192]
                    [base_ptr 0; base_ptr 1; base_ptr 2] = Ok v
    /\ eval pointer_env v = Some (VScalar (SPointer 1)).
Proof.
  destruct (multi_select_first_limit pointer_env (IntConst i32 130) 130
              [IntConst i32 64; IntConst i32 192] [64; 192]
              [base_ptr 0; base_ptr 1; base_ptr 2]
              [VScalar (SPointer 0); VScalar (SPointer 1);
               VScalar (SPointer 2)])
    as (v & Hv & He & _).
  - reflexivity.
  - repeat constructor.
  - repeat constructor.
  - reflexivity.
  - cbn. lia.
  - repeat constructor; lia.
  - exists v. split; [exact Hv | exact He].
Defined.


(** A parameter of 70 rows tiled in blocks of 32: axis 0 gets a boundary
    check, axis 1 (64 columns) does not, and the load pads with zeros. *)
Lemma boundary_checks_registered_witness :
  exists ptr,
    EmitTensorPointer "uncompilable_fusion" ex_helper ex_tall ex_lhs_side
                      [base_ptr 0] NullValue [] = Ok (ptr, [0])
    /\ pointer_inputs_ok ex_helper ex_tall ex_lhs_side
    /\ checks_from ex_helper ex_tall ex_lhs_side
         (tiled_axes ex_helper ex_tall ex_lhs_side (tiled_dims ex_lhs_side)) 0
       = [0]
    /\ exists load, EmitParameterLoad ptr [0] = Ok load
                    /\ load_checks load = [0]
                    /\ load_padding load = Some PAD_ZERO.
Proof.
  eexists. split; [reflexivity |].
  assert (Hok : pointer_inputs_ok ex_helper ex_tall ex_lhs_side).
  { unfold pointer_inputs_ok. cbn.
    repeat split; try lia; try (repeat constructor; cbn; lia).
    intros s Hs. discriminate Hs. }
  split; [exact Hok |].
  destruct (boundary_checks_registered "uncompilable_fusion" ex_helper ex_tall
              ex_lhs_side [base_ptr 0] NullValue _ [0] Hok eq_refl)
    as (Hc & _ & _ & Hload).
  split; [symmetry; exact Hc |].
  destruct (Hload (base_ptr 0) [] f32 eq_refl eq_refl)
    as (load & Hl & Hlc & Hpad & _).
  exists load. split; [exact Hl |]. split; [exact Hlc |].
  apply Hpad. discriminate.
Defined.

(** A concatenation whose first operand has 100 rows cannot be tiled in
    blocks of 32. *)
Lemma concat_operand_not_divisible_witness :
  EmitTensorPointer "uncompilable_fusion" ex_helper ex_concat_swapped
                    ex_lhs_side [base_ptr 0; base_ptr 1] NullValue []
  = Err (UncompilableMatmul "uncompilable_fusion"
           "Operand is not divisible by the block size.").
Proof.
  apply (concat_operand_not_divisible "uncompilable_fusion" ex_helper
           ex_concat_swapped ex_lhs_side [base_ptr 0; base_ptr 1] NullValue []
           (mkDimProperties 0 (GetProgramIdOp PidX) 32 1)).
  - reflexivity.
  - reflexivity.
  - reflexivity.
  - cbn. lia.
  - repeat constructor. cbn. discriminate.
  - constructor. exists (mkFragment 32 100 (-64) 100).
    split; [reflexivity |]. cbn. intros [q Hq]. lia.
Defined.

(** C6, as stated, fails on the last operand: in the concatenation of 64
    rows and 100 rows with block size 32, the sliced count of the last
    operand is not divisible by the block size, and [EmitTensorPointer]
    succeeds. *)
Lemma concat_last_operand_counterexample :
  ~ (forall kUncompilableFusion h hlo side bases pk checks properties,
       opcode hlo = kConcatenate ->
       find_dim (tiled_dims side) (concat_dim_of h side) = Ok properties ->
       (exists op f,
          In op (operands hlo)
          /\ concat_fragment h side (concat_dim_of h side) op = Some f
          /\ ~ (block_size properties | sliced_count f)) ->
       exists s,
         EmitTensorPointer kUncompilableFusion h hlo side bases pk checks
         = Err s
         /\ is_uncompilable kUncompilableFusion s).
Proof.
  intros Hclaim.
  destruct (Hclaim "uncompilable_fusion"%string ex_helper ex_concat ex_lhs_side
              [base_ptr 0; base_ptr 1] NullValue []
              (mkDimProperties 0 (GetProgramIdOp PidX) 32 1)
              eq_refl eq_refl) as (s & Hs & _).
  - exists ex_p1, (mkFragment 32 100 (-64) 100).
    split; [cbn; auto |]. split; [reflexivity |].
    cbn. intros [q Hq]. lia.
  - vm_compute in Hs. discriminate Hs.
Qed.


(** The 3-term emulation on single-lane tiles holding +infinity and 1:
    the correction terms evaluate to NaN, the guard to zero, and the
    accumulator receives +infinity. *)
Lemma non_finite_guard_witness :
  exists v dims partial,
    Emit3xBfloat16MatMul (ex_lane 0) (ex_lane 1) (ex_lane 2) = Ok v
    /\ eval ex_guard_env partial = Some (VTensor dims [SFloat S754_nan])
    /\ eval ex_guard_env (finite_or_zero dims partial)
       = Some (VTensor dims [SFloat float_zero])
    /\ eval ex_guard_env v
       = Some (VTensor [1; 1] [SFloat positive_infinity]).
Proof.
  destruct (Emit3xBfloat16MatMul (ex_lane 0) (ex_lane 1) (ex_lane 2))
    as [v | st |] eqn:Ev; try discriminate Ev.
  destruct (non_finite_guard (ex_lane 0) (ex_lane 1) (ex_lane 2) v
              (or_introl Ev))
    as (dims & lh & rh & partial & Hacc & Hlh & Hrh & Hparts & Hv & Hsem & _).
  cbn in Hacc. inversion Hacc; subst dims.
  destruct Hlh as (t & Ht & Hlh). vm_compute in Ht. inversion Ht; subst t.
  vm_compute in Hlh. inversion Hlh; subst lh.
  destruct Hrh as (t & Ht' & Hrh). vm_compute in Ht'. inversion Ht'; subst t.
  vm_compute in Hrh. inversion Hrh; subst rh.
  destruct Hparts as [(ll & rl & _ & Hll & Hrl & Hp)
                     | (lm & ll & rm & rl & H6 & _)].
  - destruct Hll as (s & Hs & Hll). vm_compute in Hs. inversion Hs; subst s.
    vm_compute in Hll. inversion Hll; subst ll.
    destruct Hrl as (s & Hs' & Hrl). vm_compute in Hs'. inversion Hs'; subst s.
    vm_compute in Hrl. inversion Hrl; subst rl.
    destruct (Hsem ex_guard_env [S754_nan]) as (Hg & Hfinal).
    + rewrite Hp. vm_compute. reflexivity.
    + reflexivity.
    + exists v, [1; 1], partial.
      split; [reflexivity |].
      split; [rewrite Hp; vm_compute; reflexivity |].
      split; [exact Hg |].
      rewrite Hfinal. vm_compute. reflexivity.
  - vm_compute in H6, Ev. rewrite <- H6 in Ev. discriminate Ev.
Defined.

(** Blocks (32,32,32) on one warp have heuristic value 3072: the check
    passes and [EmitMatMul] goes on to its body.  Blocks (256,256,256) on
    one warp have heuristic value 196608: [EmitMatMul] returns the
    resource-exhaustion status and never reaches its body. *)
Lemma complexity_heuristic_preflight_witness :
  (tiling_in_range ex_config
   /\ heuristic_value ex_config = 3072
   /\ CheckGemmTilingComplexityHeuristic ex_config = Ok tt
   /\ EmitMatMul 32 ex_ElementsIn ex_GetNonContractingDims
        (fun _ => Ok false) ex_analysis ex_dot ex_config (fun _ => Ok tt)
      = Ok tt)
  /\ (tiling_in_range ex_big_config
      /\ heuristic_value ex_big_config = 196608
      /\ EmitMatMul 32 ex_ElementsIn ex_GetNonContractingDims
           (fun _ => Ok false) ex_analysis ex_dot ex_big_config
           (fun _ => Abort)
         = Err (ResourceExhausted
                  "Tiling complexity heuristic exceeded: %d > %d"
                  [196608; 9000])).
Proof.
  assert (H : tiling_in_range ex_config).
  { unfold tiling_in_range, INT_MAX. cbn. lia. }
  assert (Hbig : tiling_in_range ex_big_config).
  { unfold tiling_in_range, INT_MAX. cbn. lia. }
  split.
  - split; [exact H |]. split; [reflexivity |].
    destruct (complexity_heuristic_preflight 32 ex_ElementsIn
                ex_GetNonContractingDims (fun _ => Ok false) ex_config H)
      as (Hc & _ & _ & Hem).
    split; [exact Hc |].
    rewrite Hem. reflexivity.
  - split; [exact Hbig |]. split; [reflexivity |].
    destruct (complexity_heuristic_preflight 32 ex_ElementsIn
                ex_GetNonContractingDims (fun _ => Ok false) ex_big_config
                Hbig)
      as (_ & _ & _ & Hem).
    rewrite Hem. reflexivity.
Defined.

(** The pointer [EmitTensorPointer] builds for the left operand of the
    plain example. *)
Example lhs_pointer_example :
  EmitTensorPointer "uncompilable_fusion" ex_helper ex_lhs ex_lhs_side
                    [base_ptr 0] NullValue [] = Ok (ex_lhs_pointer, []).
Proof. vm_compute. reflexivity. Qed.

(** Operands and output of 4096 elements are addressed with 32-bit
    indices: the constants of the emitter helper are 32-bit, and the
    block pointer of the left operand has 64-bit bounds and strides and
    32-bit tensor offsets. *)
Lemma index_width_selection_witness :
  exists use64,
    use_64bit_indexing ex_ElementsIn ex_config ex_dot = Ok use64
    /\ index_type use64 = i32
    /\ getType (Cst ex_helper 7) = ScalarType i32
    /\ EmitTensorPointer "uncompilable_fusion" ex_helper ex_lhs ex_lhs_side
                         [base_ptr 0] NullValue [] = Ok (ex_lhs_pointer, [])
    /\ exists base bounds strides offsets dims order advance,
         let tensor_ptr :=
           MakeTensorPtrOp base bounds strides offsets dims order in
         ex_lhs_pointer = AdvanceOp (getType tensor_ptr) tensor_ptr advance
         /\ bounds <> [] /\ strides <> []
         /\ Forall (fun v => getType v = ScalarType i64) bounds
         /\ Forall (fun v => getType v = ScalarType i64) strides
         /\ Forall (fun v => getType v = ScalarType i32) offsets.
Proof.
  destruct (index_width_selection 32 ex_ElementsIn ex_GetNonContractingDims
              "uncompilable_fusion" (fun _ => Ok false) ex_config ex_dot
              ex_lhs ex_rhs eq_refl eq_refl)
    as (use64 & Hu & _ & _ & H32 & _ & Hcst & _ & Hptr).
  - unfold fits64, CInt.fits. cbn. lia.
  - exists use64. split; [exact Hu |].
    split; [apply H32; unfold needs_64bit, INT_MAX; cbn; lia |].
    split; [exact (Hcst ex_helper 7) |].
    split; [exact lhs_pointer_example |].
    apply (Hptr ex_helper ex_lhs ex_lhs_side [base_ptr 0] NullValue []
                 ex_lhs_pointer [] lhs_pointer_example).
    vm_compute. discriminate.
Defined.

(** C10, as stated, fails on the bounds and strides of a block pointer:
    with the 32-bit index type selected, the pointer of the left operand
    of the plain example is made with 64-bit bounds and strides. *)
Lemma index_width_strides_counterexample :
  ~ (forall ElementsIn kUncompilableFusion config dot h hlo side bases pid_k
            ptr checks ty base bounds strides offsets dims order advance,
       use_64bit_indexing ElementsIn config dot = Ok false ->
       index_ty_ h = index_type false ->
       EmitTensorPointer kUncompilableFusion h hlo side bases pid_k []
       = Ok (ptr, checks) ->
       ptr = AdvanceOp ty
               (MakeTensorPtrOp base bounds strides offsets dims order)
               advance ->
       Forall (fun v => getType v = ScalarType i32) (bounds ++ strides)).
Proof.
  intros Hclaim.
  pose proof (Hclaim ex_ElementsIn "uncompilable_fusion"%string ex_config
                ex_dot ex_helper ex_lhs ex_lhs_side [base_ptr 0] NullValue
                ex_lhs_pointer [] _ _ _ _ _ _ _ _ eq_refl eq_refl
                lhs_pointer_example eq_refl) as H.
  inversion H as [| x l Hx _]. discriminate Hx.
Qed.

(** The dimension analysis of the plain example: m = n = k = 64. *)
Example Create_plain_example :
  MatMulDims_Create ex_GetNonContractingDims ex_config ex_dot ex_analysis
  = Ok ex_dims.
Proof. reflexivity. Qed.

(** The end-to-end example: a 2 by 2 grid of tiles, one batch, no
    boundary check on the (64,64) operand, and a load without padding. *)
Example end_to_end_example :
  MatMulLaunchConfig_init 32 ex_config ex_dot ex_dims = Ok ex_launch_config
  /\ exists ptr load,
       EmitTensorPointer "uncompilable_fusion" ex_helper ex_lhs ex_lhs_side
                         [base_ptr 0] NullValue [] = Ok (ptr, [])
       /\ EmitParameterLoad ptr [] = Ok load
       /\ load_padding load = None.
Proof.
  split; [reflexivity |].
  eexists. eexists. split; [reflexivity |]. split; reflexivity.
Qed.

(** A concatenation whose first operand is block-aligned: the pointer is
    built, and the concatenated axis gets no boundary check. *)
Example concat_pointer_example :
  exists ptr,
    EmitTensorPointer "uncompilable_fusion" ex_helper ex_concat ex_lhs_side
                      [base_ptr 0; base_ptr 1] NullValue [] = Ok (ptr, []).
Proof. eexists. reflexivity. Qed.

(** A row as wide as the tile is reduced without a mask. *)
Example reduce_exact_example :
  EmitReduce (fun _ => true) (fun _ _ => Ok (CFloat float_zero)) ex_EmitScope
             ex_reduce_exact ex_row_tile
  = Ok (SplatOp (RankedTensorType [] f32)
          (ReduceOp ex_row_tile 0
             (AddFOp (BlockArgument 0 (ScalarType f32))
                     (BlockArgument 1 (ScalarType f32))))).
Proof. reflexivity. Qed.

(** * The further properties at worked examples *)

(** An f32 tile is converted to bf16 by one truncation, and the result
    is not converted again. *)
Lemma Cast_result_type_witness :
  exists v',
    Cast (ex_tile 0) bf16 = Ok v'
    /\ getType v' = RankedTensorType [16; 16] bf16
    /\ Cast v' bf16 = Ok v'.
Proof.
  destruct (Cast_result_type (ex_tile 0) f32 bf16 eq_refl)
    as (v' & Hv & Ht & _ & Hagain).
  exists v'. split; [exact Hv |]. split; [exact Ht | exact Hagain].
Defined.

(** A bf16 tile reaches i32 through f32. *)
Lemma Cast_bf16_through_f32_witness :
  Cast ex_bf16_tile i32
  = Cast (ExtFOp (RankedTensorType [16; 16] f32) ex_bf16_tile) i32
  /\ Cast ex_bf16_tile f32
     = Ok (ExtFOp (RankedTensorType [16; 16] f32) ex_bf16_tile).
Proof.
  destruct (Cast_bf16_through_f32 ex_bf16_tile bf16 i32 eq_refl)
    as (H & _ & _).
  apply H; [reflexivity | discriminate].
Defined.

(** The split example passes validation: the split dimension of either
    operand has extent 2 and sits just before the contracting one. *)
Lemma ValidateMatMulConfig_accepts_witness :
  ValidateMatMulConfig ex_split_config ex_split_dot = Ok tt
  /\ at_ (lhs_batch_dimensions (dot_dimension_numbers ex_split_dot)) 0 = Ok 1
  /\ dimension (shape ex_split_lhs) 1 = Ok 2.
Proof.
  split; [reflexivity |].
  destruct (ValidateMatMulConfig_accepts ex_split_config ex_split_dot)
    as (_ & _ & _ & _ & _ & lc & rc & lhs_operand & Hlc & _ & Hop & _ & Hsplit);
    [cbn; lia | reflexivity |].
  destruct Hsplit as (rhs_operand & _ & Hlb & _ & Hld & _); [cbn; lia |].
  inversion Hlc; subst lc. inversion Hop; subst lhs_operand.
  split; [exact Hlb | exact Hld].
Defined.

(** Two LHS parameters split 8 by 4 along dimension 0: the spec returned
    is theirs. *)
Lemma split_spec_agreement_witness :
  GetLhsNoncontractingSplitSpec ex_row_split_analysis 0
  = Ok (Some [mkFragment 1 8 0 8; mkFragment 8 4 0 4])
  /\ exists q,
       In q (ScopeParameters ex_row_split_analysis LHS)
       /\ has_split_spec ex_row_split_analysis 0 q
            [mkFragment 1 8 0 8; mkFragment 8 4 0 4].
Proof.
  split; [reflexivity |].
  exact (proj1 (split_spec_agreement ex_row_split_analysis 0
                  (Some [mkFragment 1 8 0 8; mkFragment 8 4 0 4]) eq_refl)).
Defined.

(** The dimensions of the split example: split-K first, no batch, then
    the two non-contracting dimensions. *)
Lemma Create_invariants_witness :
  MatMulDims_Create ex_GetNonContractingDims ex_split_config ex_split_dot
                    ex_split_analysis = Ok ex_split_dims
  /\ 1 <= m ex_split_dims /\ 1 <= n ex_split_dims
  /\ out_split_k_dim_idx ex_split_dims = Some 0
  /\ out_batch_dim_idx ex_split_dims = None.
Proof.
  split; [reflexivity |].
  destruct (Create_invariants ex_GetNonContractingDims ex_split_config
              ex_split_dot ex_split_analysis ex_split_dims eq_refl)
    as (Hm & Hn & _ & Hs & Hb & _).
  split; [exact Hm |]. split; [exact Hn |]. split; [exact Hs | exact Hb].
Defined.

(** The worked example: one batch on axis Y, the four tiles on axis X. *)
Lemma launch_grid_axes_witness :
  batch_size_of ex_dot ex_dims = Some 1
  /\ launch_inputs_ok 32 ex_config ex_dims 1
  /\ exists lc,
       MatMulLaunchConfig_init 32 ex_config ex_dot ex_dims = Ok lc
       /\ dim3_extent (block_counts (launch_dims lc))
            (noncontracting_program_id_dim lc) = grid_m lc * grid_n lc
       /\ 0 <= dim3_extent (block_counts (launch_dims lc)) PidY < 65536.
Proof.
  assert (H : launch_inputs_ok 32 ex_config ex_dims 1).
  { unfold launch_inputs_ok, fits64, CInt.fits. cbn.
    repeat split; try lia; try (intros [H _]; discriminate H). }
  split; [reflexivity |]. split; [exact H |].
  eexists. split; [reflexivity |].
  destruct (launch_grid_axes 32 ex_config ex_dot ex_dims 1 _ eq_refl H eq_refl)
    as (_ & Hnc & _ & _ & _ & _ & Hy & _).
  split; [exact Hnc | exact Hy].
Defined.

(** Blocks of 16 with two warps pass the check that blocks of 32 with
    one warp pass. *)
Lemma complexity_heuristic_monotone_witness :
  tiling_in_range ex_config
  /\ CheckGemmTilingComplexityHeuristic ex_config = Ok tt
  /\ CheckGemmTilingComplexityHeuristic ex_small_config = Ok tt.
Proof.
  assert (H : tiling_in_range ex_config).
  { unfold tiling_in_range, INT_MAX. cbn. lia. }
  split; [exact H |]. split; [reflexivity |].
  apply (complexity_heuristic_monotone ex_config ex_small_config H);
    cbn; try lia; reflexivity.
Defined.

(** Without choices the cascading select is an internal error. *)
Lemma EmitMultiSelect_arity_witness :
  EmitMultiSelect (IntConst i32 130) [] []
  = Err (InternalError "choices.size() - 1 == limits.size()")
  /\ exists c0 v,
       nth_error [base_ptr 0; base_ptr 1] 0 = Some c0
       /\ EmitMultiSelect (IntConst i32 130) [IntConst i32 64]
            [base_ptr 0; base_ptr 1] = Ok v
       /\ getType v = getType c0.
Proof.
  split.
  - apply (EmitMultiSelect_arity (IntConst i32 130) [] []);
      cbn; try lia; discriminate.
  - apply (EmitMultiSelect_arity (IntConst i32 130) [IntConst i32 64]
             [base_ptr 0; base_ptr 1]); cbn; try lia; reflexivity.
Defined.

(** The pointer of the 70 by 64 parameter has two axes with blocks of
    32 by 32 and order 1, 0. *)
Lemma EmitTensorPointer_block_pointer_witness :
  exists ptr base bounds strides offsets advance,
    EmitTensorPointer "uncompilable_fusion" ex_helper ex_tall ex_lhs_side
                      [base_ptr 0] NullValue [] = Ok (ptr, [0])
    /\ ptr = AdvanceOp (PointerType (RankedTensorType [32; 32] f32))
               (MakeTensorPtrOp base bounds strides offsets [32; 32] [1; 0])
               advance
    /\ List.length bounds = 2%nat /\ List.length advance = 2%nat.
Proof.
  destruct (EmitTensorPointer_block_pointer "uncompilable_fusion" ex_helper
              ex_tall ex_lhs_side [base_ptr 0] NullValue [] _ [0] eq_refl)
    as (b0 & base & Hb0 & Hty & bounds & strides & offsets & advance & Hptr
        & Hb & _ & _ & Ha).
  cbn in Hb0. inversion Hb0; subst b0.
  eexists _, base, bounds, strides, offsets, advance.
  split; [reflexivity |].
  split; [| split; [exact Hb | exact Ha]].
  rewrite Hptr at 1. cbn. rewrite Hty. reflexivity.
Defined.

(** The scalar f32 constant of the reduce example is emitted as a
    constant op of type f32. *)
Lemma EmitConstant_typed_witness :
  exists v e a,
    EmitConstant (fun _ => true) (fun _ _ => Ok (CFloat float_zero)) ex_zero
    = Ok v
    /\ TritonType (element_type (shape ex_zero)) = Ok e
    /\ v = ConstantOp (ScalarType e) a.
Proof.
  eexists.
  destruct (proj2 (EmitConstant_typed (fun _ => true)
                     (fun _ _ => Ok (CFloat float_zero)) ex_zero) _ eq_refl)
    as (_ & e & a & He & Hv).
  exists e, a. split; [reflexivity |]. split; [exact He | exact Hv].
Defined.

(** A pointer to a scalar is loaded without checks and splat to rank
    0, whatever checks are passed. *)
Lemma EmitParameterLoad_typed_witness :
  exists v,
    EmitParameterLoad (base_ptr 0) [0] = Ok v
    /\ getType v = RankedTensorType [] f32
    /\ v = SplatOp (RankedTensorType [] f32) (LoadOp (base_ptr 0) [] None).
Proof.
  exact (EmitParameterLoad_typed (base_ptr 0) (ScalarType f32) f32 [0]
           eq_refl eq_refl).
Defined.

(** The reduction of a row tile of width 128 is a tensor of rank 0. *)
Lemma EmitReduce_result_type_witness :
  exists v,
    EmitReduce (fun _ => true) (fun _ _ => Ok (CFloat float_zero)) ex_EmitScope
               ex_reduce ex_row_tile = Ok v
    /\ getType v = RankedTensorType [] f32.
Proof.
  eexists. split; [reflexivity |].
  destruct (EmitReduce_result_type (fun _ => true)
              (fun _ _ => Ok (CFloat float_zero)) ex_EmitScope
              ex_reduce ex_row_tile _ eq_refl)
    as (input_shape & e & out_ty & Hty & _ & Hout & Hv).
  cbn in Hty. inversion Hty; subst input_shape e.
  cbn in Hout. inversion Hout; subst out_ty.
  apply Hv. cbn. lia.
Defined.

(** A predicate parameter is stored as bytes: the loaded i8 tile is
    truncated to i1. *)
Lemma iter_arg_load_storage_witness :
  StorageType i1 = i8
  /\ exists load v,
       EmitParameterLoad ex_mask_arg [] = Ok load
       /\ iter_arg_load 0 ex_mask ex_mask_arg [] = Ok v
       /\ v = TruncIOp (RankedTensorType [32; 32] i1) load.
Proof.
  split; [reflexivity |].
  destruct (iter_arg_load_storage 0 ex_mask ex_mask_arg []
              (RankedTensorType [32; 32] i8) i1 eq_refl eq_refl eq_refl)
    as (_ & _ & load & v & Hl & Hv & _ & _ & Htr).
  exists load, v. split; [exact Hl |]. split; [exact Hv |].
  exact (Htr eq_refl).
Defined.

(** The LHS pointer of the 70 by 64 parameter advances by 32 along its
    contracting dimension 1 and by 0 along dimension 0. *)
Lemma iter_arg_advance_matches_pointer_witness :
  iter_arg_increments ex_analysis ex_lhs_side ex_tall 0 ex_dims 1
    (tiled_dims ex_lhs_side) = Ok [c32 0; c32 32]
  /\ iter_arg_next ex_analysis ex_lhs_side ex_tall 0 ex_dims 1 (base_ptr 0)
     = Ok (AdvanceOp (getType (base_ptr 0)) (base_ptr 0) [c32 0; c32 32]).
Proof.
  destruct (iter_arg_advance_matches_pointer ex_helper ex_tall ex_lhs_side 0 1
              (base_ptr 0))
    as (Hinc & _ & Hnext).
  - intros d spec [Hd | [Hd | []]] Hs; subst d; cbn in Hs;
      inversion Hs; subst spec; eexists _, _; (split; [reflexivity |]);
      cbn; lia.
  - split; [exact Hinc | exact Hnext].
Defined.

(** A concatenation of parameters 0 and 1 gets the two function
    arguments, in this order. *)
Lemma GetArguments_bases_witness :
  GetArguments ex_fn ex_concat
  = Ok [FuncArgument 0 (PointerType (ScalarType f32));
        FuncArgument 1 (PointerType (ScalarType f32))]
  /\ Z.of_nat
       (List.length [FuncArgument 0 (PointerType (ScalarType f32));
                     FuncArgument 1 (PointerType (ScalarType f32))])
     = operand_count ex_concat.
Proof.
  split; [reflexivity |].
  destruct (GetArguments_bases ex_fn ex_concat _ eq_refl) as (_ & _ & Hc).
  exact (proj1 (Hc eq_refl)).
Defined.

(** Both emulations accept three f32 tiles and return a value of the
    accumulator's type. *)
Lemma emulated_dot_f32_only_witness :
  (exists v, Emit6xBfloat16MatMul (ex_tile 0) (ex_tile 1) (ex_tile 2) = Ok v
             /\ getType v = getType (ex_tile 2))
  /\ (exists v, Emit3xBfloat16MatMul (ex_tile 0) (ex_tile 1) (ex_tile 2) = Ok v
                /\ getType v = getType (ex_tile 2)).
Proof.
  apply (emulated_dot_f32_only (ex_tile 0) (ex_tile 1) (ex_tile 2)
           [16; 16] f32 [16; 16] f32 [16; 16] f32 eq_refl eq_refl eq_refl).
  repeat split.
Defined.

(** With both flags on, the 6-term emulation is the one emitted. *)
Lemma accumulator_next_choice_witness :
  accumulator_next true (fun _ => false) ex_precision ex_options false
    (ex_tile 0) (ex_tile 1) (ex_tile 2)
  = Emit6xBfloat16MatMul (ex_tile 0) (ex_tile 1) (ex_tile 2).
Proof.
  exact (proj2 (accumulator_next_choice true (fun _ => false) ex_precision
                  ex_options false (ex_tile 0) (ex_tile 1) (ex_tile 2)
                  [16; 16] [16; 16] [16; 16]
                  eq_refl eq_refl eq_refl eq_refl)).
Defined.

(** The 3-term algorithm on a bf16 input ends the process. *)
Lemma accumulator_next_explicit_witness :
  accumulator_next true (fun _ => false)
    (mkPrecisionConfig ALG_DOT_BF16_BF16_F32_X3 [DEFAULT; DEFAULT])
    ex_options false ex_bf16_tile (ex_tile 1) (ex_tile 2) = Abort.
Proof.
  destruct (accumulator_next_explicit true (fun _ => false)
              (mkPrecisionConfig ALG_DOT_BF16_BF16_F32_X3 [DEFAULT; DEFAULT])
              ex_options false ex_bf16_tile (ex_tile 1) (ex_tile 2))
    as (_ & _ & _ & H).
  apply (H [16; 16] bf16 [16; 16] f32 [16; 16] f32);
    [right; reflexivity | reflexivity | reflexivity | reflexivity |].
  intros (Hbf & _). discriminate Hbf.
Defined.

(** The f32 dot of the worked example accumulates in f32, from a 32 by
    32 tile of zeros. *)
Lemma accumulator_type_and_init_witness :
  GetDotAccumulatorType (fun _ => Ok F32) ex_precision ex_dot = Ok f32
  /\ exists init,
       accumulator_init (fun _ => Ok F32) ex_precision ex_dot ex_config
       = Ok init
       /\ getType init = RankedTensorType [32; 32] f32.
Proof.
  split; [reflexivity |].
  destruct (accumulator_type_and_init (fun _ => Ok F32) ex_precision ex_dot
              ex_config f32 eq_refl)
    as (_ & _ & init & Hi & Ht & _).
  exists init. split; [exact Hi | exact Ht].
Defined.

(** A row of 8 values broadcast along dimension 0 to tiles of 4 by 8:
    the row gets a leading axis of size 1 and is broadcast to 4 by 8. *)
Lemma tiled_broadcast_well_shaped_witness :
  exists result expanded src_shape,
    EmitTiledBroadcast ex_PowerOf2Ceil [8] [4; 8] [1] ex_row8 = Ok result
    /\ result = BroadcastOp (RankedTensorType [4; 8] f32) expanded
    /\ tileType expanded = RankedTensorType src_shape f32
    /\ List.length src_shape = 2%nat.
Proof.
  eexists.
  destruct (tiled_broadcast_well_shaped ex_PowerOf2Ceil [8] [4; 8] [1] ex_row8
              f32 _ eq_refl eq_refl eq_refl)
    as (_ & expanded & src_shape & Hr & Ht & Hl & _).
  exists expanded, src_shape.
  split; [reflexivity |]. split; [exact Hr |]. split; [exact Ht | exact Hl].
Defined.

(** A vector of 64 values broadcast along dimension 0 in blocks of 32
    by 64 is a tensor of 32 by 64. *)
Lemma EmitBroadcast_shape_witness :
  exists result,
    EmitBroadcast (Some ex_bcast_analysis) OUTPUT ex_bcast_dims ex_bcast
                  ex_vec_tile = Ok result
    /\ tileType result = RankedTensorType [32; 64] f32.
Proof.
  eexists. split; [reflexivity |].
  destruct (EmitBroadcast_shape (Some ex_bcast_analysis) OUTPUT ex_bcast_dims
              ex_bcast ex_vec_tile _ ltac:(cbn; lia) eq_refl)
    as (a & Ha & _ & Ht).
  inversion Ha; subst a.
  exact (proj1 (Ht ex_vec f32 eq_refl eq_refl)).
Defined.

(** The worked example is launched on the grid its program ids are
    derived from: 4 blocks of 32 threads. *)
Lemma launch_dimensions_agree_witness :
  EmitMatMul 32 ex_ElementsIn ex_GetNonContractingDims (fun _ => Ok false)
             ex_analysis ex_dot ex_config (fun _ => Ok tt) = Ok tt
  /\ exists p,
       GetMatMulLaunchDimensions 32 ex_GetNonContractingDims ex_analysis
         (Some ex_dot) ex_config
       = Ok (launch_dims (prologue_launch_config p))
       /\ launch_dims (prologue_launch_config p)
          = mkLaunchDimensions (BlockDim 4 1 1) (BlockDim 32 1 1).
Proof.
  split; [reflexivity |].
  destruct (launch_dimensions_agree 32 ex_ElementsIn ex_GetNonContractingDims
              (fun _ => Ok false) ex_analysis ex_dot ex_config
              (fun _ => Ok tt) eq_refl)
    as (_ & p & _ & _ & _ & Hg & _).
  exists p. split; [exact Hg |].
  cbn in Hg. inversion Hg as [Hl]. reflexivity.
Defined.

(** On a CUDA device with a limit of 1000 bytes, a kernel that needs 512
    is returned without cluster dimensions, one that needs 2000 is
    rejected. *)
Lemma compile_result_limits_witness :
  (exists r,
     CompileTritonToLLVM_result true 512 1000 (Ok tt) ex_config
       (mkClusterInfo 1 1 1) = Ok r
     /\ shmem_bytes r <= 1000 /\ cluster_dim r = None)
  /\ CompileTritonToLLVM_result true 2000 1000 (Ok tt) ex_config
       (mkClusterInfo 1 1 1)
     = Err (ResourceExhausted
              "Shared memory size limit exceeded: requested %d, available: %d"
              [2000; 1000]).
Proof.
  split.
  - eexists. split; [reflexivity |].
    destruct (proj1 (compile_result_limits true 512 1000 (Ok tt) ex_config
                       (mkClusterInfo 1 1 1)) _ eq_refl)
      as (_ & Hle & _ & _ & Hone).
    split; [exact (Hle eq_refl) |].
    apply Hone. cbn. lia.
  - apply (proj2 (compile_result_limits true 2000 1000 (Ok tt) ex_config
                    (mkClusterInfo 1 1 1)) eq_refl).
    cbn. lia.
Defined.

(** The epilogue that scales the result of the dot: the multiplication
    and its parameter are emitted, the dot is not. *)
Lemma epilogue_operands_closed_witness :
  EpiloguePostOrderTransitiveOperands 5 ex_dot_hlo ex_epilogue
    [ex_lhs; ex_rhs; ex_dot_hlo; ex_scale; ex_epilogue]
  = Some (Ok [ex_scale; ex_epilogue])
  /\ Forall (fun h => same_instruction h ex_dot_hlo = false)
       [ex_scale; ex_epilogue].
Proof.
  split; [reflexivity |].
  destruct (epilogue_operands_closed 5 ex_dot_hlo ex_epilogue
              [ex_lhs; ex_rhs; ex_dot_hlo; ex_scale; ex_epilogue])
    as (r & Hr & _ & H); [vm_compute; lia |].
  cbn in Hr. inversion Hr; subst r.
  destruct (H _ eq_refl) as (to_order & _ & _ & _ & _ & Hall & _).
  exact Hall.
Defined.

(** An epilogue that multiplies a parameter by itself ends the
    process. *)
Lemma epilogue_shared_operand_dies_witness :
  EpiloguePostOrderTransitiveOperands 3 ex_dot_hlo ex_square_epilogue
    [ex_lhs; ex_rhs; ex_dot_hlo; ex_scale; ex_square_epilogue]
  = Some Abort.
Proof.
  apply (epilogue_shared_operand_dies 3 ex_dot_hlo ex_square_epilogue _
           0%nat 1%nat ex_scale ex_scale);
    [vm_compute; lia | reflexivity | discriminate | reflexivity | reflexivity
    | reflexivity | reflexivity].
Defined.

(** Two parameters read through one concatenation are one input of the
    LHS scope. *)
Lemma ScopeInputs_members_witness :
  ScopeInputs ex_users ex_inputs_analysis LHS = Ok [ex_concat]
  /\ ScopeInputs ex_users ex_inputs_analysis RHS = Ok [ex_rhs]
  /\ NoDup (map name [ex_concat]).
Proof.
  split; [reflexivity |]. split; [reflexivity |].
  exact (proj1 (ScopeInputs_members ex_users ex_inputs_analysis LHS
                  [ex_concat] eq_refl)).
Defined.

(** With one input per side, the pointer at position 1 belongs to the
    RHS side. *)
Lemma iter_args_scopes_witness :
  exists st side input inputs,
    scopes_iter_args "uncompilable_fusion" ex_users ex_inputs_helper ex_fn
      NullValue ex_inputs_analysis [ex_lhs_side; ex_rhs_side]
      (mkIterArgs [] [] []) = Ok st
    /\ nth_error [ex_lhs_side; ex_rhs_side]
                 (Z.to_nat (iter_arg_scope_index 1 1 1)) = Some side
    /\ ScopeInputs ex_users ex_inputs_analysis (scope side) = Ok inputs
    /\ In input inputs
    /\ iter_arg_built "uncompilable_fusion" ex_inputs_helper ex_fn NullValue
         st 1 side input.
Proof.
  destruct (scopes_iter_args "uncompilable_fusion" ex_users ex_inputs_helper
              ex_fn NullValue ex_inputs_analysis [ex_lhs_side; ex_rhs_side]
              (mkIterArgs [] [] [])) as [st | |] eqn:Erun;
    [| vm_compute in Erun; discriminate Erun
     | vm_compute in Erun; discriminate Erun].
  assert (Hlen : List.length (iter_args st) = 2%nat).
  { vm_compute in Erun. inversion Erun. reflexivity. }
  destruct (iter_args_scopes "uncompilable_fusion" ex_users ex_inputs_helper
              ex_fn NullValue ex_inputs_analysis ex_lhs_side ex_rhs_side []
              st [ex_concat] [ex_rhs] eq_refl eq_refl (le_0_n 1)
              eq_refl eq_refl Erun) as (_ & Hpos).
  - rewrite Hlen. cbn. lia.
  - destruct (Hpos 1%nat) as (side & input & inputs & H);
      [rewrite Hlen; lia |].
    exists st, side, input, inputs. split; [reflexivity | exact H].
Defined.
